(** * sum_of_min_terms.py: a shallow embedding and its verified properties

    The program turns a boolean expression such as [A!B + (C*D)'] into a
    tree of gates, enumerates its truth table and prints the canonical sum
    of minterms.  This file embeds [src/sum_of_min_terms.py] function by
    function and proves properties of the embedded functions.

    Conventions of the embedding.
    - A Python [str] is a [list ascii]; string literals are coerced.  The
      characters are the 7-bit ASCII ones the expression grammar uses:
      [isalpha] and [upper] are the ASCII ones.
    - A Python [int] is a [Z]; indices are [Z] because the code starts some
      of them at [-1] and slices with negative bounds.
    - An exception is a value of [exn]; a function that can raise returns
      [result A].
    - The mutable fields of a [Gate] ([output], [truth_table]) are fields
      of the tree; a method that mutates the object returns the new tree.
    - The constructor calls itself once for every level of the tree.
      [Gate_call] takes the number of nested calls the interpreter allows
      and raises RecursionError beyond it; [Gate_new] is the constructor
      where this limit is not reached.

    The definitions come first: the functions of the program in the order
    of their dependencies, then the definitions the properties are stated
    with.  The properties follow. *)

From Stdlib Require Import List ZArith Ascii String Bool Lia Arith Permutation Sorted.
From Stdlib Require DecimalString.
Import ListNotations.

Open Scope char_scope.
Open Scope string_scope.
Open Scope list_scope.
Open Scope Z_scope.

(** ** Python values the program uses *)

Definition pystr := list ascii.

Coercion list_ascii_of_string : string >-> list.

Inductive exn : Type :=
| LeadingOperator        (* ValueError: Expression or sub-expression cannot start with an operator *)
| UnmatchedParenthesis   (* ValueError: Unmatched paranthesis! *)
| InvalidParenthesis     (* ValueError: Invalid Paranthesis *)
| UnknownOperator        (* NotImplementedError: Unknown operator encountered! *)
| IndexError             (* indexing a str or a list out of range *)
| KeyError (k : pystr)   (* dict lookup of an absent key: the MissingVariable condition *)
| AttributeError         (* None has no attribute output *)
| IntValueError          (* ValueError of int() on a malformed literal *)
| IncompleteTable        (* ValueError: Table incomplete! *)
| OverdefinedTable       (* ValueError: Table overdefined! *)
| InconsistentRow (line : Z) (* ValueError: Truth table has wrong input values in line .. *)
| OutOfFuel              (* not a Python exception: the recursion bound of the model ran out *)
| RecursionError.        (* RecursionError: maximum recursion depth exceeded *)

Inductive result (A : Type) : Type :=
| OK (a : A)
| Err (e : exn).
Arguments OK {A} a.
Arguments Err {A} e.

Definition bind {A B : Type} (r : result A) (k : A -> result B) : result B :=
  match r with
  | OK a => k a
  | Err e => Err e
  end.

Notation "x <- r ;; k" := (bind r (fun x => k))
  (at level 61, r at next level, right associativity).
Notation "' p <- r ;; k" := (bind r (fun x => let p := x in k))
  (at level 61, p pattern, r at next level, right associativity).

(** ** str methods *)

Module Str.

Definition eqb (s t : pystr) : bool :=
  if list_eq_dec ascii_dec s t then true else false.

Definition code (c : ascii) : nat := nat_of_ascii c.

Definition is_upper (c : ascii) : bool :=
  (Nat.leb 65 (code c) && Nat.leb (code c) 90)%bool.

Definition is_lower (c : ascii) : bool :=
  (Nat.leb 97 (code c) && Nat.leb (code c) 122)%bool.

(** [c.isalpha()] *)
Definition isalpha (c : ascii) : bool := (is_upper c || is_lower c)%bool.

(** [c.isspace()]: tab, newline, vertical tab, form feed, carriage
    return, the four separators 0x1c..0x1f and the space. *)
Definition isspace (c : ascii) : bool :=
  ((Nat.leb 9 (code c) && Nat.leb (code c) 13)
   || (Nat.leb 28 (code c) && Nat.leb (code c) 32))%bool.

Definition upper_char (c : ascii) : ascii :=
  if is_lower c then ascii_of_nat (code c - 32) else c.

(** [s.upper()] *)
Definition upper (s : pystr) : pystr := map upper_char s.

(** [s.replace(c, "")] for a one-character [c] *)
Definition remove_char (c : ascii) (s : pystr) : pystr :=
  filter (fun x => negb (Ascii.eqb x c)) s.

(** [s.replace(c, d)] for one-character [c] and [d] *)
Definition replace_char (c d : ascii) (s : pystr) : pystr :=
  map (fun x => if Ascii.eqb x c then d else x) s.

(** [s.lstrip(..)], the characters to drop given as a predicate *)
Fixpoint lstrip (p : ascii -> bool) (s : pystr) : pystr :=
  match s with
  | [] => []
  | c :: r => if p c then lstrip p r else s
  end.

Definition rstrip (p : ascii -> bool) (s : pystr) : pystr :=
  rev (lstrip p (rev s)).

Definition strip_pred (p : ascii -> bool) (s : pystr) : pystr :=
  rstrip p (lstrip p s).

(** [s.strip()] *)
Definition strip (s : pystr) : pystr := strip_pred isspace s.

(** [s.strip(c)] for a one-character [c] *)
Definition strip_char (c : ascii) (s : pystr) : pystr :=
  strip_pred (fun x => Ascii.eqb x c) s.

(** [s.count(c)] for a one-character [c] *)
Definition count (c : ascii) (s : pystr) : Z :=
  Z.of_nat (List.length (filter (fun x => Ascii.eqb x c) s)).

Definition len (s : pystr) : Z := Z.of_nat (List.length s).

(** [s[i]], negative indices counted from the end *)
Definition index (s : pystr) (i : Z) : result ascii :=
  let j := if i <? 0 then i + len s else i in
  if j <? 0 then Err IndexError
  else match nth_error s (Z.to_nat j) with
       | Some c => OK c
       | None => Err IndexError
       end.

(** The bound of a slice: negative bounds count from the end, and the
    result is clipped to the string. *)
Definition clip (s : pystr) (i : Z) : nat :=
  let j := if i <? 0 then i + len s else i in
  Z.to_nat (Z.min (Z.max j 0) (len s)).

(** [s[a:b]] *)
Definition slice (s : pystr) (a b : Z) : pystr :=
  firstn (clip s b - clip s a) (skipn (clip s a) s).

(** [s[:b]] *)
Definition slice_to (s : pystr) (b : Z) : pystr := firstn (clip s b) s.

(** [s[a:]] *)
Definition slice_from (s : pystr) (a : Z) : pystr := skipn (clip s a) s.

(** [s.split(c, maxsplit=1)] for a one-character [c] that occurs in
    [s]: the text before the first [c] and the text after it. *)
Fixpoint split1 (c : ascii) (s : pystr) : pystr * pystr :=
  match s with
  | [] => ([], [])
  | x :: r =>
      if Ascii.eqb x c then ([], r)
      else let '(a, b) := split1 c r in (x :: a, b)
  end.

(** [sep.join(l)] *)
Fixpoint join (sep : pystr) (l : list pystr) : pystr :=
  match l with
  | [] => []
  | [x] => x
  | x :: r => x ++ sep ++ join sep r
  end.

End Str.

(** ** normalize_bool_fct_str *)

(** The test of the loop body: an AND is implied between [sym_i] and
    [sym_i1]. *)
Definition implies_and (sym_i sym_i1 : ascii) : bool :=
  if ((Str.isalpha sym_i || Ascii.eqb sym_i "'")
      && (Str.isalpha sym_i1 || Ascii.eqb sym_i1 "("))%bool
  then true
  else (Ascii.eqb sym_i ")" && Str.isalpha sym_i1)%bool.

(** The chain of str methods at the head of the function. *)
Definition clean (fct_str : pystr) : pystr :=
  Str.strip_char "+"
    (Str.strip_char "*"
       (Str.replace_char "!" "'"
          (Str.remove_char "\"
             (Str.remove_char " " (Str.upper fct_str))))).

(** The first loop: the list [pos] of the indices [i] in
    [range(len(fct_str) - 1)] that pass the test. *)
Definition and_positions (fct_str : pystr) : list nat :=
  filter
    (fun i => implies_and (nth i fct_str Ascii.zero) (nth (S i) fct_str Ascii.zero))
    (seq 0 (List.length fct_str - 1)).

(** The body of the second loop: [fct_str[: i + 1] + "*" + fct_str[i + 1 :]]. *)
Definition insert_and (fct_str : pystr) (i : nat) : pystr :=
  firstn (S i) fct_str ++ "*"%char :: skipn (S i) fct_str.

Definition normalize_bool_fct_str (fct_str : pystr) : pystr :=
  let fct_str := clean fct_str in
  let pos := and_positions fct_str in
  fold_left insert_and (rev pos) fct_str.

(** ** The Gate class *)

(** The values the [output] attribute takes: an [int] read from the
    assignment, or the [bool] that [not] returns. *)
Inductive pyval : Type :=
| PInt (z : Z)
| PBool (b : bool).

(** Truth value of a Python value, as [if], [and], [or] and [not] test it. *)
Definition truthy (v : pyval) : bool :=
  match v with
  | PInt z => negb (z =? 0)
  | PBool b => b
  end.

Inductive op_kind : Type := AND | OR | NOT | UNITY | INPUT.

(** [Table = list[list[tuple[int, ...], int]]] *)
Definition Table : Type := list (list Z * Z).

#[warning="-register-all"]
Inductive Gate : Type := mkGate {
  truth_table : Table;
  expression : pystr;
  output : pyval;
  operator : op_kind;
  inp_1 : option Gate;
  inp_2 : option Gate
}.

(** ** parse_outer_paranthesis *)

(** The loop over [enumerate(expr)], from index [i] on, with the local
    variables [i_open], [i_close] and [count]. *)
Fixpoint parse_outer_loop (expr : pystr) (i i_open i_close count : Z)
  : result (Z * Z) :=
  match expr with
  | [] => OK (i_open, i_close)
  | sym :: rest =>
      let i_open := if (Ascii.eqb sym "(" && (count =? 0))%bool then i else i_open in
      let count := if Ascii.eqb sym "(" then count + 1 else count in
      if Ascii.eqb sym ")" then
        let count := count - 1 in
        if count =? 0 then OK (i_open, i)
        else if i_open =? -1 then Err InvalidParenthesis
        else parse_outer_loop rest (i + 1) i_open i_close count
      else parse_outer_loop rest (i + 1) i_open i_close count
  end.

Definition parse_outer_paranthesis (expr : pystr) : result (Z * Z) :=
  parse_outer_loop expr 0 (-1) (-1) 0.

(** ** Gate.__init__ *)

Definition is_operator_symbol (c : ascii) : bool :=
  (Ascii.eqb c "'" || Ascii.eqb c "*" || Ascii.eqb c "+" || Ascii.eqb c "!")%bool.

Definition is_not_symbol (c : ascii) : bool :=
  (Ascii.eqb c "'" || Ascii.eqb c "!")%bool.

Definition new_gate (expression : pystr) (operator : op_kind)
  (inp_1 inp_2 : option Gate) : Gate :=
  {| truth_table := []; expression := expression; output := PInt 0;
     operator := operator; inp_1 := inp_1; inp_2 := inp_2 |}.

(** The split point of the last branch: [split_at] as first assigned and
    then advanced over a complement mark. *)
Definition split_point (expression : pystr) (i_open i_close : Z) : result Z :=
  let split_at := if 0 <? i_open then i_open - 2 else i_close in
  c <- Str.index expression (split_at + 1) ;;
  OK (if is_not_symbol c then split_at + 1 else split_at).

(** The constructor calls itself on sub-expressions; [fuel] bounds the
    depth of these calls. *)
Fixpoint Gate_init (fuel : nat) (expression_arg : pystr) : result Gate :=
  match fuel with
  | O => Err OutOfFuel
  | S fuel =>
      let expression := normalize_bool_fct_str (Str.strip expression_arg) in
      c0 <- Str.index expression 0 ;;
      if is_operator_symbol c0 then Err LeadingOperator
      else
        let par_open := Str.count "(" expression in
        if negb (par_open =? 0) then
          let par_closed := Str.count ")" expression in
          if negb (par_open =? par_closed) then Err UnmatchedParenthesis
          else
            '(i_open, i_close) <- parse_outer_paranthesis expression ;;
            let len_expr := Str.len expression in
            if ((i_open =? 0) && (i_close =? len_expr - 2))%bool then
              inp_1 <- Gate_init fuel (Str.slice expression 1 (-2)) ;;
              OK (new_gate expression NOT (Some inp_1) None)
            else if ((i_open =? 0) && (i_close =? len_expr - 1))%bool then
              inp_1 <- Gate_init fuel (Str.slice expression 1 (-1)) ;;
              OK (new_gate expression UNITY (Some inp_1) None)
            else
              split_at <- split_point expression i_open i_close ;;
              let expr_1 := Str.slice_to expression (split_at + 1) in
              let expr_2 := Str.slice_from expression (split_at + 1) in
              c <- Str.index expression (split_at + 1) ;;
              operator <- (if Ascii.eqb c "*" then OK AND
                           else if Ascii.eqb c "+" then OK OR
                           else Err UnknownOperator) ;;
              inp_1 <- match expr_1 with
                       | [] => OK None
                       | _ => g <- Gate_init fuel expr_1 ;; OK (Some g)
                       end ;;
              inp_2 <- match expr_2 with
                       | [] => OK None
                       | _ => g <- Gate_init fuel expr_2 ;; OK (Some g)
                       end ;;
              OK (new_gate expression operator inp_1 inp_2)
        else if negb (Str.count "+" expression =? 0) then
          let expr := Str.split1 "+" expression in
          inp_1 <- Gate_init fuel (fst expr) ;;
          inp_2 <- Gate_init fuel (snd expr) ;;
          OK (new_gate expression OR (Some inp_1) (Some inp_2))
        else if negb (Str.count "*" expression =? 0) then
          let expr := Str.split1 "*" expression in
          inp_1 <- Gate_init fuel (fst expr) ;;
          inp_2 <- Gate_init fuel (snd expr) ;;
          OK (new_gate expression AND (Some inp_1) (Some inp_2))
        else
          let not_ops := Str.count "'" expression + Str.count "!" expression in
          if negb (not_ops =? 0) then
            c <- Str.index expression 0 ;;
            inp_1 <- Gate_init fuel [c] ;;
            OK (new_gate expression
                  (if negb (not_ops mod 2 =? 0) then NOT else UNITY)
                  (Some inp_1) None)
          else OK (new_gate expression INPUT None None)
  end.

(** [Gate(expression)] where the recursion limit of the interpreter is
    not reached.  No call goes deeper than the length of the normalized
    text, so this bound never runs out (theorem [Gate_new_terminates]).
    [Gate_call] below is the constructor under a recursion limit; it
    returns what [Gate_new] returns or raises RecursionError. *)
Definition Gate_new (expression : pystr) : result Gate :=
  Gate_init
    (S (List.length (normalize_bool_fct_str (Str.strip expression))))
    expression.

(** [Gate(expression)] under the recursion limit of the interpreter.
    Every sub-expression is built by a call of the constructor nested in
    the call that builds the expression around it, and the interpreter
    raises RecursionError in place of a call that would nest deeper than
    it allows; nothing in the program catches it.  [limit] is the number
    of nested calls of the constructor that the interpreter allows at the
    place where [Gate(expression)] is called: it depends on
    [sys.getrecursionlimit()], on the frames each call takes in the
    version of the interpreter and on the depth of the calling frame, and
    is at most [sys.getrecursionlimit()], 1000 unless it is set. *)
Definition Gate_call (limit : nat) (expression : pystr) : result Gate :=
  match Gate_init limit expression with
  | Err OutOfFuel => Err RecursionError
  | r => r
  end.

(** ** Gate.update *)

(** A [dict] as the list of its items, the most recent first. *)
Definition dict : Type := list (pystr * pyval).

(** [inputs[k]] *)
Definition dict_get (inputs : dict) (k : pystr) : result pyval :=
  match find (fun kv => Str.eqb (fst kv) k) inputs with
  | Some kv => OK (snd kv)
  | None => Err (KeyError k)
  end.

(** [dict(zip(keys, values))]: the pairs are inserted in order, a later
    pair replacing an earlier one with the same key. *)
Definition dict_zip (keys : list pystr) (values : list pyval) : dict :=
  rev (combine keys values).

(** [inp.output] for an attribute [inp] that may be [None]. *)
Definition output_of (inp : option Gate) : result pyval :=
  match inp with
  | Some g => OK (output g)
  | None => Err AttributeError
  end.

Fixpoint update (self : Gate) (inputs : dict) : result Gate :=
  match self with
  | mkGate tbl expr _ op i1 i2 =>
      inp_1' <- match i1 with
                | Some g => g' <- update g inputs ;; OK (Some g')
                | None => OK None
                end ;;
      inp_2' <- match i2 with
                | Some g => g' <- update g inputs ;; OK (Some g')
                | None => OK None
                end ;;
      out <- match op with
             | AND => a <- output_of inp_1' ;;
                      if truthy a then output_of inp_2' else OK a
             | OR => a <- output_of inp_1' ;;
                     if truthy a then OK a else output_of inp_2'
             | NOT => a <- output_of inp_1' ;; OK (PBool (negb (truthy a)))
             | INPUT => dict_get inputs expr
             | UNITY => output_of inp_1'
             end ;;
      OK (mkGate tbl expr out op inp_1' inp_2')
  end.

(** ** normalize_bool *)

Definition normalize_bool (value : pyval) : Z :=
  match value with
  | PBool true => 1
  | PBool false => 0
  | PInt z => z
  end.

(** ** extract_input_symbols *)

(** [sorted(.., reverse=True)] on one-character strings: insertion in a
    list kept in descending order of the character codes. *)
Fixpoint insert_desc (c : ascii) (l : list ascii) : list ascii :=
  match l with
  | [] => [c]
  | d :: r => if Nat.leb (Str.code d) (Str.code c) then c :: l
              else d :: insert_desc c r
  end.

Definition sorted_reverse (l : list ascii) : list ascii :=
  fold_right insert_desc [] l.

(** The set comprehension keeps one copy of every alphabetic character;
    the sorted list is returned as a list of one-character strings. *)
Definition extract_input_symbols (fct_str : pystr) : list pystr :=
  let input_symbols := nodup ascii_dec (filter Str.isalpha fct_str) in
  map (fun sym => [sym]) (sorted_reverse input_symbols).

(** ** itertools.product(pool, repeat=n) *)

(** As itertools documents it: [result = [[]]], and for each of the
    [repeat] pools [result = [x+[y] for x in result for y in pool]]. *)
Fixpoint product (pool : list Z) (repeat : nat) : list (list Z) :=
  match repeat with
  | O => [[]]
  | S n => flat_map (fun x => map (fun y => x ++ [y]) pool) (product pool n)
  end.

(** ** generate_truth_table *)

(** The loop [for inp in product([0, 1], repeat=n_sym)] with the local
    [table] and the circuit whose outputs each [update] overwrites. *)
Fixpoint table_loop (input_symbols : list pystr) (inps : list (list Z))
  (circuit : Gate) (table : Table) : result (Gate * Table) :=
  match inps with
  | [] => OK (circuit, table)
  | inp :: rest =>
      let inputs := dict_zip input_symbols (map PInt inp) in
      circuit <- update circuit inputs ;;
      table_loop input_symbols rest circuit
        (table ++ [(inp, normalize_bool (output circuit))])
  end.

Definition set_truth_table (circuit : Gate) (table : Table) : Gate :=
  {| truth_table := table; expression := expression circuit;
     output := output circuit; operator := operator circuit;
     inp_1 := inp_1 circuit; inp_2 := inp_2 circuit |}.

Definition generate_truth_table (circuit : Gate) : result Gate :=
  let fct_str := expression circuit in
  let input_symbols := extract_input_symbols fct_str in
  let n_sym := List.length input_symbols in
  '(circuit, table) <- table_loop input_symbols (product [0; 1] n_sym) circuit [] ;;
  OK (set_truth_table circuit table).

(** ** build_minterms and sum_of_min_terms *)

Definition ascii_uppercase : pystr := "ABCDEFGHIJKLMNOPQRSTUVWXYZ".

(** [l[i]] on a list *)
Definition list_index {A : Type} (l : list A) (i : nat) : result A :=
  match nth_error l i with
  | Some a => OK a
  | None => Err IndexError
  end.

(** [[f(i) for i in l]] where [f] may raise *)
Fixpoint comprehension {A B : Type} (f : A -> result B) (l : list A)
  : result (list B) :=
  match l with
  | [] => OK []
  | a :: r => b <- f a ;; bs <- comprehension f r ;; OK (b :: bs)
  end.

(** The list [row] built for one line of the table. *)
Definition minterm_row (input_symbols : list pystr) (inp : list Z)
  : result (list pystr) :=
  comprehension
    (fun i =>
       bit <- list_index inp i ;;
       sym <- list_index input_symbols i ;;
       OK (if negb (bit =? 0) then sym else sym ++ "'"))
    (seq 0 (List.length inp)).

(** The loop [for line in table] with the local [min_terms]. *)
Fixpoint minterm_loop (input_symbols : list pystr) (table : Table)
  (min_terms : list pystr) : result (list pystr) :=
  match table with
  | [] => OK min_terms
  | line :: rest =>
      if negb (snd line =? 0) then
        row <- minterm_row input_symbols (fst line) ;;
        minterm_loop input_symbols rest (min_terms ++ [Str.join "" row])
      else minterm_loop input_symbols rest min_terms
  end.

Definition build_minterms (table : Table) (input_symbols : option (list pystr))
  : result pystr :=
  input_symbols <- match input_symbols with
                   | None =>
                       line <- list_index table 0 ;;
                       let n_sym := List.length (fst line) in
                       OK (rev (map (fun c => [c]) (firstn n_sym ascii_uppercase)))
                   | Some l => OK l
                   end ;;
  min_terms <- minterm_loop input_symbols table [] ;;
  let min_terms := rev min_terms in
  OK (Str.join " + " min_terms).

Definition sum_of_min_terms (circuit : Gate) : result pystr :=
  circuit <- (if (List.length (truth_table circuit) =? 0)%nat
              then generate_truth_table circuit else OK circuit) ;;
  let input_symbols := extract_input_symbols (expression circuit) in
  min_terms <- build_minterms (truth_table circuit) (Some input_symbols) ;;
  OK ("F = " ++ min_terms).

(** ** read_table_from_file and check_table *)

(** [s.split()]: the maximal runs of characters that are not whitespace;
    [cur] is the run being read. *)
Fixpoint split_loop (s : pystr) (cur : pystr) : list pystr :=
  match s with
  | [] => match cur with [] => [] | _ => [cur] end
  | c :: r =>
      if Str.isspace c
      then match cur with
           | [] => split_loop r []
           | _ => cur :: split_loop r []
           end
      else split_loop r (cur ++ [c])
  end.

Definition split (s : pystr) : list pystr := split_loop s [].

Definition digit_value (c : ascii) : option Z :=
  if (Nat.leb 48 (Str.code c) && Nat.leb (Str.code c) 57)%bool
  then Some (Z.of_nat (Str.code c) - 48)
  else None.

(** The digits of an [int()] literal: decimal digits, single underscores
    allowed between two digits. *)
Fixpoint int_digits (s : pystr) (acc : Z) (after_digit : bool) : option Z :=
  match s with
  | [] => if after_digit then Some acc else None
  | c :: r =>
      if Ascii.eqb c "_" then
        if after_digit then int_digits r acc false else None
      else match digit_value c with
           | Some d => int_digits r (10 * acc + d) true
           | None => None
           end
  end.

(** [int(s)] on a token without whitespace *)
Definition py_int (s : pystr) : result Z :=
  let r := match s with
           | "+"%char :: t => int_digits t 0 false
           | "-"%char :: t => option_map Z.opp (int_digits t 0 false)
           | _ => int_digits s 0 false
           end in
  match r with
  | Some z => OK z
  | None => Err IntValueError
  end.

(** The local function [parse_line]. *)
Definition parse_line (line : pystr) : result (list Z * Z) :=
  let line := split (Str.strip line) in
  inp <- comprehension py_int (removelast line) ;;
  last_token <- list_index (rev line) 0 ;;
  out <- py_int last_token ;;
  OK (inp, out).

(** The loop [for i, inp in enumerate(product([0, 1], repeat=n_inp))],
    from index [i] on. *)
Fixpoint check_loop (table : Table) (inps : list (list Z)) (i : nat)
  : result unit :=
  match inps with
  | [] => OK tt
  | inp :: rest =>
      line <- list_index table i ;;
      let table_inp := fst line in
      if list_eq_dec Z.eq_dec table_inp inp
      then check_loop table rest (S i)
      else Err (InconsistentRow (Z.of_nat i + 1))
  end.

Definition check_table (table : Table) (n_inp : nat) : result unit :=
  check_loop table (product [0; 1] n_inp) 0.

(** The function after [readlines()]: [lines] are the lines of the file. *)
Definition read_table_from_lines (lines : list pystr) : result Table :=
  line_0 <- list_index lines 0 ;;
  line_1 <- parse_line line_0 ;;
  let n_inp := List.length (fst line_1) in
  if Z.of_nat (List.length lines) <? 2 ^ Z.of_nat n_inp then Err IncompleteTable
  else if Z.of_nat (List.length lines) >? 2 ^ Z.of_nat n_inp then Err OverdefinedTable
  else
    rest <- comprehension parse_line (skipn 1 lines) ;;
    let table := [line_1] ++ rest in
    _ <- check_table table n_inp ;;
    OK table.

(** ** print_truth_table *)

(** [str(i)] for an [int] *)
Definition str_of_int (z : Z) : pystr :=
  list_ascii_of_string (DecimalString.NilZero.string_of_int (Z.to_int z)).

(** [s * n] *)
Definition str_times (s : pystr) (n : nat) : pystr := List.concat (repeat s n).

Definition tab : pystr := ["009"%char].

Definition newline : pystr := ["010"%char].

(** The function builds the list [truth_table] of lines and prints
    their join; the model returns the text handed to [print]. *)
Definition print_truth_table (table : Table) (input_symbols : option (list pystr))
  : result pystr :=
  '(input_symbols, n_sym) <-
    match input_symbols with
    | None =>
        line <- list_index table 0 ;;
        let n_sym := List.length (fst line) in
        OK (rev (map (fun c => [c]) (firstn n_sym ascii_uppercase)), n_sym)
    | Some l => OK (l, List.length l)
    end ;;
  let truth_table :=
    [Str.join tab input_symbols ++ tab ++ " | F";
     str_times "--------" (n_sym + 1)] in
  let truth_table :=
    fold_left
      (fun truth_table line =>
         let row := Str.join tab (map str_of_int (fst line))
                      ++ tab ++ " | " ++ str_of_int (snd line) in
         truth_table ++ [row])
      table truth_table in
  OK (Str.join newline truth_table).

(** ** The printing methods of Gate and main *)

(** A computation that prints: the lines printed, in order, and then its
    outcome.  The lines printed before an exception are kept. *)
Definition io (A : Type) : Type := (list pystr * result A)%type.

Definition io_ret {A : Type} (a : A) : io A := ([], OK a).

Definition io_lift {A : Type} (r : result A) : io A := ([], r).

Definition io_bind {A B : Type} (m : io A) (k : A -> io B) : io B :=
  match m with
  | (out, OK a) => let '(out', r) := k a in (out ++ out', r)
  | (out, Err e) => (out, Err e)
  end.

Notation "x <<- m ;; k" := (io_bind m (fun x => k))
  (at level 61, m at next level, right associativity).

(** [print(s)] *)
Definition print (s : pystr) : io unit := ([s], OK tt).

(** [print(a, b)]: the arguments separated by a blank *)
Definition print2 (a b : pystr) : io unit := print (a ++ " " ++ b).

(** [sum_of_min_terms] with the circuit it leaves behind: the table
    stays stored in the circuit. *)
Definition sum_of_min_terms_state (circuit : Gate) : result (Gate * pystr) :=
  circuit <- (if (List.length (truth_table circuit) =? 0)%nat
              then generate_truth_table circuit else OK circuit) ;;
  let input_symbols := extract_input_symbols (expression circuit) in
  min_terms <- build_minterms (truth_table circuit) (Some input_symbols) ;;
  OK (circuit, "F = " ++ min_terms).

(** [Gate.print_truth_table] *)
Definition Gate_print_truth_table (self : Gate) : io Gate :=
  self <<- io_lift (if (List.length (truth_table self) =? 0)%nat
                    then generate_truth_table self else OK self) ;;
  let input_symbols := extract_input_symbols (expression self) in
  text <<- io_lift (print_truth_table (truth_table self) (Some input_symbols)) ;;
  _ <<- print text ;;
  io_ret self.

(** [Gate.print_sum_of_minterms] *)
Definition Gate_print_sum_of_minterms (self : Gate) : io Gate :=
  r <<- io_lift (sum_of_min_terms_state self) ;;
  _ <<- print (snd r) ;;
  io_ret (fst r).

(** [main] after [parser.parse_args()]: [function] is [args.function],
    [table] is [args.table], and [read_table] holds the lines of the file
    named by [args.read_table]. *)
Definition main (function : option pystr) (table : bool)
  (read_table : option (list pystr)) : io Z :=
  match function with
  | Some f =>
      circuit <<- io_lift (Gate_new f) ;;
      _ <<- print2 "Boolean function raw input: F = " (Str.strip f) ;;
      _ <<- print2 "Boolean function normalized: F = " (expression circuit) ;;
      _ <<- print "Canonical form of F in sum-of-minterms notation:" ;;
      circuit <<- Gate_print_sum_of_minterms circuit ;;
      _ <<- (if table
             then _ <<- print "Truth Table:" ;;
                  _ <<- Gate_print_truth_table circuit ;;
                  io_ret tt
             else io_ret tt) ;;
      io_ret 0
  | None =>
      match read_table with
      | Some lines =>
          _ <<- print "Reading truth table..." ;;
          table_ <<- io_lift (read_table_from_lines lines) ;;
          min_terms <<- io_lift (build_minterms table_ None) ;;
          _ <<- print "Canonical form of F in sum-of-minterms notation:" ;;
          _ <<- print ("F = " ++ min_terms) ;;
          _ <<- (if table
                 then _ <<- print "Truth Table:" ;;
                      text <<- io_lift (print_truth_table table_ None) ;;
                      print text
                 else io_ret tt) ;;
          io_ret 0
      | None => io_ret 0
      end
  end.

(** ** Definitions used to state the properties *)

(** The grammar of expressions: complement binds tightest, then AND, then
    OR.  The operator at the root of an expression is therefore an OR
    outside every parenthesis, or an AND outside every parenthesis when the
    expression has no such OR. *)
Module Grammar.

(** Nesting depth of the position [k] of [e]. *)
Fixpoint depth_before (e : pystr) (k : nat) : Z :=
  match k, e with
  | S k', c :: r =>
      (if Ascii.eqb c "(" then 1 else if Ascii.eqb c ")" then -1 else 0)
      + depth_before r k'
  | _, _ => 0
  end.

Definition top_level_at (e : pystr) (c : ascii) (k : nat) : bool :=
  match nth_error e k with
  | Some x => (Ascii.eqb x c && (depth_before e k =? 0))%bool
  | None => false
  end.

Definition has_top_level (e : pystr) (c : ascii) : bool :=
  existsb (top_level_at e c) (seq 0 (List.length e)).

Definition is_root_operator (e : pystr) (k : nat) : bool :=
  (top_level_at e "+" k
   || (top_level_at e "*" k && negb (has_top_level e "+")))%bool.

End Grammar.

(** The table and the minterm string of an expression, and the output
    column of the row with the given inputs. *)
Definition table_of (expression : pystr) : result Table :=
  circuit <- Gate_new expression ;;
  circuit <- generate_truth_table circuit ;;
  OK (truth_table circuit).

Definition minterms_of (expression : pystr) : result pystr :=
  circuit <- Gate_new expression ;;
  sum_of_min_terms circuit.

Definition table_lookup (table : Table) (inp : list Z) : option Z :=
  option_map snd (find (fun line => if list_eq_dec Z.eq_dec (fst line) inp then true else false) table).

(** The text with the AND markers in place, computed in one pass from
    left to right; [normalize_insertion] shows that the two loops of
    [normalize_bool_fct_str] compute it. *)
Fixpoint and_inserted (s : pystr) : pystr :=
  match s with
  | [] => []
  | c :: r =>
      match r with
      | [] => [c]
      | d :: _ =>
          if implies_and c d then c :: "*"%char :: and_inserted r
          else c :: and_inserted r
      end
  end.

(** The tree without the cached outputs: what [update] never changes. *)
Fixpoint erase (g : Gate) : Gate :=
  match g with
  | mkGate tbl expr _ op i1 i2 =>
      mkGate tbl expr (PInt 0) op
        (match i1 with Some a => Some (erase a) | None => None end)
        (match i2 with Some a => Some (erase a) | None => None end)
  end.

(** The data model of the tree: AND and OR have two inputs, NOT and the
    pass-through have one, an input variable has none. *)
Fixpoint well_formed (g : Gate) : bool :=
  match g with
  | mkGate _ _ _ op i1 i2 =>
      match op, i1, i2 with
      | AND, Some a, Some b => (well_formed a && well_formed b)%bool
      | OR, Some a, Some b => (well_formed a && well_formed b)%bool
      | NOT, Some a, None => well_formed a
      | UNITY, Some a, None => well_formed a
      | INPUT, None, None => true
      | _, _, _ => false
      end
  end.

(** The symbols of the input variables of a tree that the assignment
    lacks, from left to right. *)
Fixpoint missing (inputs : dict) (g : Gate) : list pystr :=
  match g with
  | mkGate _ expr _ op i1 i2 =>
      (match i1 with Some a => missing inputs a | None => [] end)
      ++ (match i2 with Some a => missing inputs a | None => [] end)
      ++ (match op with
          | INPUT => match dict_get inputs expr with
                     | OK _ => []
                     | Err _ => [expr]
                     end
          | _ => []
          end)
  end.

(** The rule of each operator, at every node of an evaluated tree. *)
Fixpoint outputs_follow (inputs : dict) (g : Gate) : Prop :=
  match g with
  | mkGate _ expr out op i1 i2 =>
      match op, i1, i2 with
      | AND, Some a, Some b =>
          truthy out = (truthy (output a) && truthy (output b))%bool
          /\ outputs_follow inputs a /\ outputs_follow inputs b
      | OR, Some a, Some b =>
          truthy out = (truthy (output a) || truthy (output b))%bool
          /\ outputs_follow inputs a /\ outputs_follow inputs b
      | NOT, Some a, None =>
          truthy out = negb (truthy (output a)) /\ outputs_follow inputs a
      | UNITY, Some a, None =>
          out = output a /\ outputs_follow inputs a
      | INPUT, None, None => dict_get inputs expr = OK out
      | _, _, _ => False
      end
  end.

(** The result of [update] on a tree of the data model, whole: either the
    tree with every output set by the rule of its operator, or the
    KeyError of the first variable the assignment lacks. *)
Definition update_result_ok (inputs : dict) (g : Gate) : Prop :=
  match update g inputs with
  | OK g' =>
      erase g' = erase g /\ outputs_follow inputs g' /\ missing inputs g = []
  | Err e =>
      exists k rest, missing inputs g = k :: rest /\ e = KeyError k
  end.

(** The number a tuple of bits spells, its first bit the most
    significant. *)
Definition binary_value (inp : list Z) : Z :=
  fold_left (fun acc bit => 2 * acc + bit) inp 0.

Definition is_bit (z : Z) : Prop := z = 0 \/ z = 1.

(** Descending order of the character codes, without repetition. *)
Definition descending (l : list ascii) : Prop :=
  StronglySorted (fun a b => (Str.code b < Str.code a)%nat) l.

(** The row of the table for the tuple [inp], as the loop body of
    [generate_truth_table] computes it. *)
Definition row_of (circuit : Gate) (input_symbols : list pystr)
  (inp : list Z) (row : list Z * Z) : Prop :=
  exists g',
    update circuit (dict_zip input_symbols (map PInt inp)) = OK g'
    /\ row = (inp, normalize_bool (output g')).

(** The minterm string as the specification words it: one term per row
    whose output bit is 1, each symbol bare if its bit is 1 and followed by
    a complement mark if it is 0, the terms in reversed row order, joined
    by [" + "]. *)
Definition spec_literal (sym : pystr) (bit : Z) : pystr :=
  if bit =? 1 then sym else sym ++ "'".

Definition spec_term (input_symbols : list pystr) (inp : list Z) : pystr :=
  List.concat (map (fun sb => spec_literal (fst sb) (snd sb))
              (combine input_symbols inp)).

Definition spec_minterms (input_symbols : list pystr) (table : Table) : pystr :=
  Str.join " + "
    (rev (map (fun line => spec_term input_symbols (fst line))
              (filter (fun line => snd line =? 1) table))).

(** A table of bits whose rows have at most [n] inputs. *)
Definition is_bitb (z : Z) : bool := ((z =? 0) || (z =? 1))%bool.

Definition bit_row (n : nat) (line : list Z * Z) : bool :=
  (Nat.leb (List.length (fst line)) n
   && forallb is_bitb (fst line) && is_bitb (snd line))%bool.

Definition bit_table (n : nat) (table : Table) : bool :=
  forallb (bit_row n) table.

Definition has_true_row (table : Table) : bool :=
  existsb (fun line => snd line =? 1) table.

(** *** Sums of products

    The texts and the trees of the sums of minterms, used to follow the
    output of the minterm builder through the normalizer, the constructor
    and the evaluator. *)

(** A literal: a variable and whether it occurs bare. *)
Definition literal : Type := (ascii * bool)%type.

Definition literal_text (l : literal) : pystr :=
  if snd l then [fst l] else [fst l; "'"%char].

(** A term as the builder writes it, and as the normalizer rewrites it. *)
Definition raw_term_text (t : list literal) : pystr :=
  List.concat (map literal_text t).

Definition term_text (t : list literal) : pystr :=
  Str.join "*" (map literal_text t).

Definition raw_sum_text (ts : list (list literal)) : pystr :=
  Str.join " + " (map raw_term_text ts).

Definition flat_sum_text (ts : list (list literal)) : pystr :=
  Str.join "+" (map raw_term_text ts).

Definition sum_text (ts : list (list literal)) : pystr :=
  Str.join "+" (map term_text ts).

Definition input_gate (c : ascii) : Gate := new_gate [c] INPUT None None.

Definition literal_gate (l : literal) : Gate :=
  if snd l then input_gate (fst l)
  else new_gate (literal_text l) NOT (Some (input_gate (fst l))) None.

Fixpoint term_gate (t : list literal) : Gate :=
  match t with
  | [] => input_gate zero
  | l :: r =>
      match r with
      | [] => literal_gate l
      | _ :: _ =>
          new_gate (term_text t) AND (Some (literal_gate l)) (Some (term_gate r))
      end
  end.

Fixpoint sum_gate (ts : list (list literal)) : Gate :=
  match ts with
  | [] => input_gate zero
  | t :: r =>
      match r with
      | [] => term_gate t
      | _ :: _ =>
          new_gate (sum_text ts) OR (Some (term_gate t)) (Some (sum_gate r))
      end
  end.

(** The AND markers of [and_inserted], with the character before the
    text as an argument instead of a look ahead. *)
Definition and_before (prev : option ascii) (c : ascii) : pystr :=
  match prev with
  | Some x => if implies_and x c then ["*"%char] else []
  | None => []
  end.

Fixpoint and_inserted_after (prev : option ascii) (s : pystr) : pystr :=
  match s with
  | [] => []
  | c :: r => and_before prev c ++ c :: and_inserted_after (Some c) r
  end.

(** The last character of [s], or [p] for the empty text. *)
Definition last_or (p : option ascii) (s : pystr) : option ascii :=
  match rev s with
  | [] => p
  | b :: _ => Some b
  end.

(** The character-wise steps of [clean]. *)
Definition scrub (s : pystr) : pystr :=
  Str.replace_char "!" "'"
    (Str.remove_char "\" (Str.remove_char " " (Str.upper s))).

(** A text that ends, or begins, with a character that passes [q]. *)
Definition ends_with (q : ascii -> bool) (s : pystr) : Prop :=
  exists m b, s = m ++ [b] /\ q b = true.

Definition begins_with (q : ascii -> bool) (s : pystr) : Prop :=
  exists a m, s = a :: m /\ q a = true.

(** The characters that [scrub] leaves alone. *)
Definition plain (c : ascii) : bool :=
  (negb (Str.is_lower c) && negb (Ascii.eqb c " ")
   && negb (Ascii.eqb c "\") && negb (Ascii.eqb c "!"))%bool.

(** The characters a stripped text begins and ends with. *)
Definition edge (c : ascii) : bool :=
  (negb (Str.isspace c) && negb (Ascii.eqb c "*") && negb (Ascii.eqb c "+"))%bool.

(** The sums the builder can write: at least one term, no empty term,
    uppercase variables. *)
Definition valid_literal (l : literal) : bool := Str.is_upper (fst l).

Definition valid_term (t : list literal) : bool :=
  (negb (Nat.eqb (List.length t) 0) && forallb valid_literal t)%bool.

Definition valid_sum (ts : list (list literal)) : bool :=
  (negb (Nat.eqb (List.length ts) 0) && forallb valid_term ts)%bool.

(** The characters of a literal, and those of a normalized sum. *)
Definition literal_char (c : ascii) : bool :=
  (Str.is_upper c || Ascii.eqb c "'")%bool.

Definition sum_char (c : ascii) : bool :=
  (literal_char c || Ascii.eqb c "*" || Ascii.eqb c "+")%bool.

(** The positions before which no marker is inserted (the start of the
    text and the position after an OR marker), and those after a literal. *)
Definition quiet (p : option ascii) : Prop := p = None \/ p = Some "+"%char.

Definition loud (p : option ascii) : Prop :=
  exists x, p = Some x /\ literal_char x = true.

Definition term_char (c : ascii) : bool :=
  (literal_char c || Ascii.eqb c "*")%bool.

(** The values an output takes when the assignment holds bits. *)
Definition bitlike (v : pyval) : Prop :=
  v = PInt 0 \/ v = PInt 1 \/ exists b, v = PBool b.

(** The truth of a literal, a term and a sum under an assignment. *)
Definition literal_true (inputs : dict) (l : literal) : bool :=
  match dict_get inputs [fst l] with
  | OK v => Bool.eqb (truthy v) (snd l)
  | Err _ => false
  end.

Definition term_true (inputs : dict) (t : list literal) : bool :=
  forallb (literal_true inputs) t.

Definition sum_true (inputs : dict) (ts : list (list literal)) : bool :=
  existsb (term_true inputs) ts.

(** The assignment binds every variable of the literals to a bit. *)
Definition binds (inputs : dict) (t : list literal) : Prop :=
  Forall (fun l => exists v, dict_get inputs [fst l] = OK v /\ bitlike v) t.

(** The one-character strings of a list of characters. *)
Definition symbols_of (chars : list ascii) : list pystr :=
  map (fun c => [c]) chars.

(** The literals of the term of a row: the variables paired with the
    bits of the row. *)
Definition literals (chars : list ascii) (inp : list Z) : list literal :=
  map (fun cb => (fst cb, snd cb =? 1)) (combine chars inp).

(** The sum that the builder writes for a table: the terms of the rows
    whose output is 1, in reversed row order. *)
Definition minterm_sum (chars : list ascii) (table : Table)
  : list (list literal) :=
  rev (map (fun line => literals chars (fst line))
           (filter (fun line => snd line =? 1) table)).

(** *** Examples *)

(** The circuit of [A+B], and the circuit after [generate_truth_table]. *)
Definition example_circuit : Gate :=
  new_gate "A+B" OR (Some (input_gate "A")) (Some (input_gate "B")).

Definition example_generated : Gate :=
  match generate_truth_table example_circuit with
  | OK circuit => circuit
  | Err _ => example_circuit
  end.

Definition example_table : Table :=
  [([0; 0], 0); ([0; 1], 1); ([1; 0], 1); ([1; 1], 1)].

(** The circuit of [A*B'] and two assignments, the second without [B]. *)
Definition example_and_not : Gate :=
  new_gate "A*B'" AND (Some (input_gate "A"))
    (Some (new_gate "B'" NOT (Some (input_gate "B")) None)).

Definition example_inputs : dict :=
  [("A" : pystr, PInt 1); ("B" : pystr, PInt 0)].

Definition example_inputs_short : dict := [("A" : pystr, PInt 1)].

(** Table files: a line ends with a newline. *)
Definition file_line (s : string) : pystr :=
  list_ascii_of_string s ++ ["010"%char].

Definition example_file : list pystr :=
  [file_line "0 0 1"; file_line "0 1 0"; file_line "1 0 0"; file_line "1 1 1"].

Definition example_file_short : list pystr :=
  [file_line "0 0 1"; file_line "0 1 0"; file_line "1 0 0"].

Definition example_file_long : list pystr :=
  example_file ++ [file_line "1 1 0"].

Definition example_file_disorder : list pystr :=
  [file_line "0 0 1"; file_line "1 0 0"; file_line "0 1 0"; file_line "1 1 1"].

(** *** Termination of the constructor *)

(** A text in which no AND marker is implied between two neighbours. *)
Fixpoint calm (s : pystr) : bool :=
  match s with
  | [] => true
  | c :: r =>
      match r with
      | [] => true
      | d :: _ => (negb (implies_and c d) && calm r)%bool
      end
  end.

(** What every normalized text is, and every part of one. *)
Definition settled (s : pystr) : bool := (forallb plain s && calm s)%bool.

Definition segment (sub s : pystr) : Prop := exists a b, s = a ++ sub ++ b.

(** A strictly shorter part of [s]: what the constructor calls itself on. *)
Definition smaller (sub s : pystr) : Prop :=
  segment sub s /\ (List.length sub < List.length s)%nat.

Definition no_fuel_error {A : Type} (r : result A) : Prop := r <> Err OutOfFuel.

(** The symbols of the input variables of a tree, from left to right. *)
Fixpoint variables (g : Gate) : list pystr :=
  match g with
  | mkGate _ expr _ op i1 i2 =>
      (match i1 with Some a => variables a | None => [] end)
      ++ (match i2 with Some a => variables a | None => [] end)
      ++ (match op with INPUT => [expr] | _ => [] end)
  end.

(** *** The constructor and its recursion bound *)

(** One call of the constructor, its recursive calls made through
    [rec]: [Gate_init (S fuel)] is [Gate_body (Gate_init fuel)]. *)
Definition Gate_body (rec : pystr -> result Gate) (expression_arg : pystr)
  : result Gate :=
  let expression := normalize_bool_fct_str (Str.strip expression_arg) in
  c0 <- Str.index expression 0 ;;
  if is_operator_symbol c0 then Err LeadingOperator
  else
    let par_open := Str.count "(" expression in
    if negb (par_open =? 0) then
      let par_closed := Str.count ")" expression in
      if negb (par_open =? par_closed) then Err UnmatchedParenthesis
      else
        '(i_open, i_close) <- parse_outer_paranthesis expression ;;
        let len_expr := Str.len expression in
        if ((i_open =? 0) && (i_close =? len_expr - 2))%bool then
          inp_1 <- rec (Str.slice expression 1 (-2)) ;;
          OK (new_gate expression NOT (Some inp_1) None)
        else if ((i_open =? 0) && (i_close =? len_expr - 1))%bool then
          inp_1 <- rec (Str.slice expression 1 (-1)) ;;
          OK (new_gate expression UNITY (Some inp_1) None)
        else
          split_at <- split_point expression i_open i_close ;;
          let expr_1 := Str.slice_to expression (split_at + 1) in
          let expr_2 := Str.slice_from expression (split_at + 1) in
          c <- Str.index expression (split_at + 1) ;;
          operator <- (if Ascii.eqb c "*" then OK AND
                       else if Ascii.eqb c "+" then OK OR
                       else Err UnknownOperator) ;;
          inp_1 <- match expr_1 with
                   | [] => OK None
                   | _ => g <- rec expr_1 ;; OK (Some g)
                   end ;;
          inp_2 <- match expr_2 with
                   | [] => OK None
                   | _ => g <- rec expr_2 ;; OK (Some g)
                   end ;;
          OK (new_gate expression operator inp_1 inp_2)
    else if negb (Str.count "+" expression =? 0) then
      let expr := Str.split1 "+" expression in
      inp_1 <- rec (fst expr) ;;
      inp_2 <- rec (snd expr) ;;
      OK (new_gate expression OR (Some inp_1) (Some inp_2))
    else if negb (Str.count "*" expression =? 0) then
      let expr := Str.split1 "*" expression in
      inp_1 <- rec (fst expr) ;;
      inp_2 <- rec (snd expr) ;;
      OK (new_gate expression AND (Some inp_1) (Some inp_2))
    else
      let not_ops := Str.count "'" expression + Str.count "!" expression in
      if negb (not_ops =? 0) then
        c <- Str.index expression 0 ;;
        inp_1 <- rec [c] ;;
        OK (new_gate expression
              (if negb (not_ops mod 2 =? 0) then NOT else UNITY)
              (Some inp_1) None)
      else OK (new_gate expression INPUT None None).

(** *** The outermost parentheses *)

Definition no_paren (s : pystr) : Prop :=
  Str.count "(" s = 0 /\ Str.count ")" s = 0.

(** Opening minus closing parentheses among the first [k] characters. *)
Definition paren_depth (expr : pystr) (k : nat) : Z :=
  Str.count "(" (firstn k expr) - Str.count ")" (firstn k expr).

(** [i_open] is the first parenthesis of the text, an opening one, and
    [i_close] the closing parenthesis that matches it. *)
Definition outer_span (expr : pystr) (i_open i_close : Z) : Prop :=
  exists o c : nat,
    i_open = Z.of_nat o /\ i_close = Z.of_nat c /\ (o < c)%nat
    /\ nth_error expr o = Some "("%char
    /\ nth_error expr c = Some ")"%char
    /\ no_paren (firstn o expr)
    /\ paren_depth expr (S c) = 0
    /\ (forall k, (o < k <= c)%nat -> 0 < paren_depth expr k).

(** No parenthesis at all, or a first opening one that is never closed. *)
Definition never_closed (expr : pystr) (i_open : Z) : Prop :=
  (i_open = -1 /\ no_paren expr)
  \/ (exists o : nat,
        i_open = Z.of_nat o
        /\ nth_error expr o = Some "("%char
        /\ no_paren (firstn o expr)
        /\ (forall k, (o < k <= List.length expr)%nat ->
                      0 < paren_depth expr k)).

(** A closing parenthesis before any opening one. *)
Definition stray_close (expr : pystr) : Prop :=
  exists j, nth_error expr j = Some ")"%char
            /\ Str.count "(" (firstn j expr) = 0.

(** The state of the scan before index [p]: the depth so far, and either
    no parenthesis yet or the first opening one with a positive depth
    since. *)
Definition scan_state (expr : pystr) (p : nat) (i_open n : Z) : Prop :=
  n = paren_depth expr p
  /\ ((i_open = -1 /\ no_paren (firstn p expr))
      \/ (exists o : nat,
            i_open = Z.of_nat o /\ (o < p)%nat
            /\ nth_error expr o = Some "("%char
            /\ no_paren (firstn o expr)
            /\ (forall k, (o < k <= p)%nat -> 0 < paren_depth expr k))).

Definition outer_result (expr : pystr) (r : result (Z * Z)) : Prop :=
  match r with
  | OK (i_open, i_close) =>
      (i_close = -1 /\ never_closed expr i_open)
      \/ outer_span expr i_open i_close
  | Err e => e = InvalidParenthesis /\ stray_close expr
  end.

(** None of the failures of the parenthesis branch of the constructor. *)
Definition no_parenthesis_error (r : result Gate) : Prop :=
  r <> Err UnmatchedParenthesis
  /\ r <> Err InvalidParenthesis
  /\ r <> Err UnknownOperator.

(** The sum [A*B'+C] and an assignment of its variables. *)
Definition example_sum : list (list literal) :=
  [[("A"%char, true); ("B"%char, false)]; [("C"%char, true)]].

Definition example_sum_inputs : dict :=
  [("A" : pystr, PInt 1); ("B" : pystr, PInt 0); ("C" : pystr, PInt 0)].

(** *** The minterm builder on any table

    The string the builder writes when every value other than 0 counts as
    true, as the tests [if line[1]] and [if inp[i]] take it. *)
Definition truthy_literal (sym : pystr) (bit : Z) : pystr :=
  if bit =? 0 then sym ++ "'" else sym.

Definition truthy_term (input_symbols : list pystr) (inp : list Z) : pystr :=
  List.concat (map (fun sb => truthy_literal (fst sb) (snd sb))
                 (combine input_symbols inp)).

Definition true_rows (table : Table) : Table :=
  filter (fun line => negb (snd line =? 0)) table.

Definition truthy_minterms (input_symbols : list pystr) (table : Table)
  : pystr :=
  Str.join " + "
    (rev (map (fun line => truthy_term input_symbols (fst line))
              (true_rows table))).

(** No row that counts as true has more inputs than there are symbols. *)
Definition fits (input_symbols : list pystr) (table : Table) : bool :=
  forallb (fun line => Nat.leb (List.length (fst line))
                         (List.length input_symbols))
    (true_rows table).

(** The names the builder and the printer give the columns of a table
    that comes without an expression. *)
Definition default_symbols (n : nat) : list pystr :=
  rev (map (fun c => [c]) (firstn n ascii_uppercase)).

(** A table file with an output that is no bit. *)
Definition example_file_wide : list pystr :=
  [file_line "0 7"; file_line "1 0"].

(** A table file with a blank third line. *)
Definition example_file_blank : list pystr :=
  [file_line "0 0 1"; file_line "0 1 0"; file_line ""; file_line "1 1 1"].

(** *** The printed table *)

(** The lines of the text that [print_truth_table] prints. *)
Definition header_text (input_symbols : list pystr) : pystr :=
  Str.join tab input_symbols ++ tab ++ " | F".

Definition rule_text (n_sym : nat) : pystr := str_times "--------" (n_sym + 1).

Definition row_text (line : list Z * Z) : pystr :=
  Str.join tab (map str_of_int (fst line)) ++ tab ++ " | "
    ++ str_of_int (snd line).

Definition table_lines (input_symbols : list pystr) (table : Table)
  : list pystr :=
  header_text input_symbols :: rule_text (List.length input_symbols)
    :: map row_text table.

(** The lines of a text: the pieces between its newline characters. *)
Fixpoint lines_loop (s cur : pystr) : list pystr :=
  match s with
  | [] => [cur]
  | c :: r =>
      if Ascii.eqb c "010" then cur :: lines_loop r []
      else lines_loop r (cur ++ [c])
  end.

Definition lines_of (s : pystr) : list pystr := lines_loop s [].

Definition one_line (s : pystr) : bool :=
  forallb (fun c => negb (Ascii.eqb c "010")) s.

(** The characters of a printed integer. *)
Definition sign_or_digit (c : ascii) : bool :=
  (Ascii.eqb c "-"
   || (Nat.leb 48 (Str.code c) && Nat.leb (Str.code c) 57))%bool.


(** *** Groups

    The parentheses of [m] are balanced when read at nesting depth [d]:
    no closing parenthesis comes without an opening one before it, and the
    depth is back to zero at the end. *)
Fixpoint balanced_from (d : Z) (m : pystr) : bool :=
  match m with
  | [] => d =? 0
  | c :: r =>
      if Ascii.eqb c "(" then balanced_from (d + 1) r
      else if Ascii.eqb c ")" then ((0 <? d) && balanced_from (d - 1) r)%bool
      else balanced_from d r
  end.

Definition balanced (m : pystr) : bool := balanced_from 0 m.

(** The text [m] in parentheses. *)
Definition group (m : pystr) : pystr := "("%char :: m ++ [")"%char].

(** The operator a binary gate gets from the character at the split. *)
Definition operator_at (c : ascii) : result op_kind :=
  if Ascii.eqb c "*" then OK AND
  else if Ascii.eqb c "+" then OK OR
  else Err UnknownOperator.

(** The gate of the last branch for a group: the operator, then the two
    inputs. *)
Definition split_gate (X : pystr) (c : ascii) (expr_1 expr_2 : pystr)
  : result Gate :=
  operator <- operator_at c ;;
  inp_1 <- Gate_new expr_1 ;;
  inp_2 <- Gate_new expr_2 ;;
  OK (new_gate X operator (Some inp_1) (Some inp_2)).

(** The value of a sum under the assignment of the bits of a tuple to
    the variable set of its text, and the table of these values. *)
Definition sum_value (ts : list (list literal)) (inp : list Z) : Z :=
  Z.b2z (sum_true (dict_zip (extract_input_symbols (sum_text ts))
                     (map PInt inp)) ts).

Definition sum_table (ts : list (list literal)) : Table :=
  map (fun inp => (inp, sum_value ts inp))
    (product [0; 1] (List.length (extract_input_symbols (sum_text ts)))).

(** *** The recursion limit *)

(** The number of nested calls of the constructor that build a tree: the
    call that builds the root is the first. *)
Fixpoint height (g : Gate) : nat :=
  match g with
  | mkGate _ _ _ _ i1 i2 =>
      S (Nat.max (match i1 with Some a => height a | None => 0%nat end)
                 (match i2 with Some a => height a | None => 0%nat end))
  end.

(** What one call of the constructor does with its normalized text [X]:
    it raises, returns an input variable, or calls itself on one part or
    on two parts of [X], one after the other, and returns a gate over the
    gates of these parts. *)
Inductive call_shape : Type :=
| Raises (x : exn)
| Leaf
| Unary (operator : op_kind) (part : pystr)
| Binary (operator : op_kind) (part_1 part_2 : pystr).

Definition run_shape (rec : pystr -> result Gate) (X : pystr)
  (shape : call_shape) : result Gate :=
  match shape with
  | Raises x => Err x
  | Leaf => OK (new_gate X INPUT None None)
  | Unary operator part =>
      inp_1 <- rec part ;;
      OK (new_gate X operator (Some inp_1) None)
  | Binary operator part_1 part_2 =>
      inp_1 <- rec part_1 ;;
      inp_2 <- rec part_2 ;;
      OK (new_gate X operator (Some inp_1) (Some inp_2))
  end.

(** The result of [Gate(expression)] under a limit, given its result
    where no limit is reached. *)
Definition limited (limit : nat) (r : result Gate) : result Gate :=
  match r with
  | OK g => if Nat.leb (height g) limit then OK g else Err RecursionError
  | Err x => Err x
  end.

(** The rows of a table that give a term of the sum of minterms. *)
Definition minterm_rows (table : Table) : Table :=
  filter (fun line => snd line =? 1) table.

(** The OR of ten variables, and the circuit after
    [generate_truth_table]. *)
Definition example_wide : pystr := "A+B+C+D+E+F+G+H+I+J".

Definition example_wide_circuit : Gate :=
  match Gate_new example_wide with
  | OK circuit => circuit
  | Err _ => new_gate [] INPUT None None
  end.

Definition example_wide_generated : Gate :=
  match generate_truth_table example_wide_circuit with
  | OK circuit => circuit
  | Err _ => example_wide_circuit
  end.

(** * Properties *)

(** ** The examples of the specification *)

(** C9: normalizing the raw text [a!b + c] gives [A'*B+C]: the letters
    are uppercased, the blanks removed, [!] becomes the complement mark and
    an AND marker is inserted between the complement mark and [B]. *)
Theorem normalize_example :
  normalize_bool_fct_str "a!b + c" = "A'*B+C"
  /\ clean "a!b + c" = "A'B+C"
  /\ and_positions "A'B+C" = [1%nat].
Proof. repeat split; reflexivity. Qed.

(** C4: the table of [A+B] has the four rows 00->0, 01->1, 10->1, 11->1
    over the variables [B; A], and its sum of minterms is
    [F = BA + BA' + B'A]. *)
Theorem a_or_b_example :
  table_of "A+B" = OK [([0; 0], 0); ([0; 1], 1); ([1; 0], 1); ([1; 1], 1)]
  /\ extract_input_symbols "A+B" = ["B" : pystr; "A" : pystr]
  /\ minterms_of "A+B" = OK ("F = BA + BA' + B'A" : pystr).
Proof. repeat split; vm_compute; reflexivity. Qed.

(** C10: an input whose normalized text is empty (the empty text, blanks
    only, or the markers [*+]) makes the constructor read character 0 of
    the empty string: it fails with IndexError, which is none of the
    validation failures. *)
Theorem empty_expression_index_error :
  (normalize_bool_fct_str (Str.strip "") = [] /\ Gate_new "" = Err IndexError)
  /\ (normalize_bool_fct_str (Str.strip "   ") = [] /\ Gate_new "   " = Err IndexError)
  /\ (normalize_bool_fct_str (Str.strip "*+") = [] /\ Gate_new "*+" = Err IndexError).
Proof. repeat split; vm_compute; reflexivity. Qed.

(** C1, evaluated on [A+B*(C)]: the group [(C)] is only a part of the
    expression; the split point is 2, just before the AND marker in front
    of the parenthesis, and the root built is an AND of [A+B] and [(C)].
    The root operator of the grammar is the OR at index 1.  With A=1, B=0
    and C=0 the tree gives 0, where [A+B*C], parsed by the branch without
    parentheses, gives 1.  Likewise [(A)*B+C] becomes an AND of [(A)] and
    [B+C], which gives 0 at C=1, B=0, A=0 where [A*B+C] gives 1. *)
Theorem split_misses_root_operator :
  normalize_bool_fct_str (Str.strip "A+B*(C)") = "A+B*(C)"
  /\ parse_outer_paranthesis "A+B*(C)" = OK (4, 6)
  /\ split_point "A+B*(C)" 4 6 = OK 2
  /\ Grammar.is_root_operator "A+B*(C)" 3 = false
  /\ Grammar.is_root_operator "A+B*(C)" 1 = true
  /\ (g <- Gate_new "A+B*(C)" ;;
      OK (operator g, option_map expression (inp_1 g), option_map expression (inp_2 g)))
     = OK (AND, Some ("A+B" : pystr), Some ("(C)" : pystr))
  /\ (t <- table_of "A+B*(C)" ;; OK (table_lookup t [0; 0; 1])) = OK (Some 0)
  /\ (t <- table_of "A+B*C" ;; OK (table_lookup t [0; 0; 1])) = OK (Some 1)
  /\ (g <- Gate_new "(A)*B+C" ;;
      OK (operator g, option_map expression (inp_1 g), option_map expression (inp_2 g)))
     = OK (AND, Some ("(A)" : pystr), Some ("B+C" : pystr))
  /\ (t <- table_of "(A)*B+C" ;; OK (table_lookup t [1; 0; 0])) = OK (Some 0)
  /\ (t <- table_of "A*B+C" ;; OK (table_lookup t [1; 0; 0])) = OK (Some 1).
Proof. repeat split; vm_compute; reflexivity. Qed.

(** C6, as stated, fails: the text [+A] begins with the OR marker, the
    normalizer strips it and the constructor returns the input gate [A]. *)
Theorem leading_or_is_stripped :
  is_operator_symbol "+" = true
  /\ Gate_new "+A" = OK (new_gate "A" INPUT None None)
  /\ Gate_new "+A" <> Err LeadingOperator.
Proof.
  split; [reflexivity|].
  assert (H : Gate_new "+A" = OK (new_gate "A" INPUT None None))
    by (vm_compute; reflexivity).
  split; [exact H|]. rewrite H. discriminate.
Qed.

(** ** The normalizer *)

Section Normalizer.

Lemma and_positions_cons (c d : ascii) (r : pystr) :
  and_positions (c :: d :: r)
  = (if implies_and c d then [0%nat] else [])
      ++ map S (and_positions (d :: r)).
Proof.
  unfold and_positions.
  replace (List.length (c :: d :: r) - 1)%nat
    with (S (List.length (d :: r) - 1)) by (simpl; lia).
  rewrite <- cons_seq, <- seq_shift.
  assert (E : forall l,
             filter (fun i => implies_and (nth i (c :: d :: r) zero)
                                          (nth (S i) (c :: d :: r) zero))
                    (map S l)
             = map S (filter (fun i => implies_and (nth i (d :: r) zero)
                                                    (nth (S i) (d :: r) zero)) l)).
  { induction l as [|x l IH]; [reflexivity|].
    cbn [map filter]. rewrite IH.
    change (nth (S (S x)) (c :: d :: r) zero) with (nth (S x) (d :: r) zero).
    change (nth (S x) (c :: d :: r) zero) with (nth x (d :: r) zero).
    destruct (implies_and _ _); reflexivity. }
  cbn [filter nth]. rewrite E. destruct (implies_and c d); reflexivity.
Qed.

Lemma fold_insert_and_shift (l : list nat) :
  forall (c : ascii) (s : pystr),
    fold_left insert_and (map S l) (c :: s) = c :: fold_left insert_and l s.
Proof.
  induction l as [|i l IH]; intros c s; simpl; [reflexivity|].
  change (insert_and (c :: s) (S i)) with (c :: insert_and s i).
  apply IH.
Qed.

Lemma normalize_insertion (s : pystr) :
  fold_left insert_and (rev (and_positions s)) s = and_inserted s.
Proof.
  induction s as [|c r IH]; [reflexivity|].
  destruct r as [|d r]; [reflexivity|].
  rewrite and_positions_cons, rev_app_distr, <- map_rev, fold_left_app.
  rewrite fold_insert_and_shift, IH.
  change (and_inserted (c :: d :: r))
    with (if implies_and c d then c :: "*"%char :: and_inserted (d :: r)
          else c :: and_inserted (d :: r)).
  destruct (implies_and c d); reflexivity.
Qed.

Lemma normalize_unfold (s : pystr) :
  normalize_bool_fct_str s = and_inserted (clean s).
Proof. unfold normalize_bool_fct_str. apply normalize_insertion. Qed.

End Normalizer.

(** ** Stripping *)

Section Strip.

Variable p : ascii -> bool.

Lemma lstrip_app_keep (l m : pystr) (c : ascii) :
  p c = false -> Str.lstrip p (l ++ c :: m) = Str.lstrip p l ++ c :: m.
Proof.
  intros Hc. induction l as [|x l IH]; simpl.
  - rewrite Hc. reflexivity.
  - destruct (p x); [exact IH | reflexivity].
Qed.

Lemma rstrip_cons_keep (c : ascii) (r : pystr) :
  p c = false -> Str.rstrip p (c :: r) = c :: Str.rstrip p r.
Proof.
  intros Hc. unfold Str.rstrip. simpl rev.
  rewrite lstrip_app_keep by exact Hc.
  rewrite rev_app_distr. reflexivity.
Qed.

Lemma strip_pred_cons_keep (c : ascii) (r : pystr) :
  p c = false -> Str.strip_pred p (c :: r) = c :: Str.rstrip p r.
Proof.
  intros Hc. unfold Str.strip_pred. simpl. rewrite Hc.
  apply rstrip_cons_keep, Hc.
Qed.

End Strip.

Lemma and_inserted_head (c : ascii) (r : pystr) :
  exists t, and_inserted (c :: r) = c :: t.
Proof.
  destruct r as [|d r]; simpl; [eexists; reflexivity|].
  destruct (implies_and c d); eexists; reflexivity.
Qed.

(** A text that begins with a complement mark or with [!] is normalized to
    a text that begins with a complement mark. *)
Lemma normalize_head_complement (c : ascii) (rest : pystr) :
  is_not_symbol c = true ->
  exists t, normalize_bool_fct_str (Str.strip (c :: rest)) = "'"%char :: t.
Proof.
  intros Hc. rewrite normalize_unfold.
  assert (Hs : Str.isspace c = false /\ (c = "'"%char \/ c = "!"%char)).
  { unfold is_not_symbol in Hc. apply orb_true_iff in Hc.
    destruct Hc as [Hc|Hc]; apply Ascii.eqb_eq in Hc; subst c;
      split; auto. }
  destruct Hs as [Hs Hq]. unfold Str.strip.
  rewrite strip_pred_cons_keep by exact Hs.
  set (r := Str.rstrip Str.isspace rest).
  assert (E : exists u,
             Str.replace_char "!" "'"
               (Str.remove_char "\" (Str.remove_char " " (Str.upper (c :: r))))
             = "'"%char :: u).
  { destruct Hq; subst c; eexists; reflexivity. }
  destruct E as [u E]. unfold clean. rewrite E.
  unfold Str.strip_char.
  rewrite strip_pred_cons_keep by reflexivity.
  rewrite strip_pred_cons_keep by reflexivity.
  apply and_inserted_head.
Qed.

(** ** The leading-operator check *)

Lemma Gate_init_leading (fuel : nat) (e t : pystr) (c : ascii) :
  normalize_bool_fct_str (Str.strip e) = c :: t ->
  is_operator_symbol c = true ->
  Gate_init (S fuel) e = Err LeadingOperator.
Proof.
  intros He Hc. cbn [Gate_init]. rewrite He.
  cbn [Str.index Z.ltb Z.compare Z.to_nat nth_error bind]. rewrite Hc.
  reflexivity.
Qed.

(** C6, amended: a text that begins with a complement mark or with [!]
    fails with LeadingOperator, in the first call and in every recursive
    call of the constructor (any positive fuel); a leading [*] or [+] is
    stripped by the normalizer, and the call fails with LeadingOperator
    whenever the normalized text still begins with one of the four
    operator symbols. *)
Theorem leading_operator_fails (fuel : nat) (c : ascii) (rest : pystr) :
  (is_not_symbol c = true ->
   Gate_init (S fuel) (c :: rest) = Err LeadingOperator
   /\ Gate_new (c :: rest) = Err LeadingOperator)
  /\ (forall e t,
        normalize_bool_fct_str (Str.strip e) = c :: t ->
        is_operator_symbol c = true ->
        Gate_init (S fuel) e = Err LeadingOperator
        /\ Gate_new e = Err LeadingOperator).
Proof.
  split.
  - intros Hc. destruct (normalize_head_complement c rest Hc) as [t Ht].
    split; [|unfold Gate_new];
      apply (Gate_init_leading _ _ t "'"); auto.
  - intros e t He Hc. split; [|unfold Gate_new];
      apply (Gate_init_leading _ _ t c); auto.
Qed.

Lemma leading_operator_fails_witness :
  Gate_new "'A" = Err LeadingOperator
  /\ Gate_new "!A+B" = Err LeadingOperator
  /\ Gate_new "+*A" = Err LeadingOperator.
Proof.
  split; [|split].
  - apply (proj1 (leading_operator_fails 0 "'" "A")). reflexivity.
  - apply (proj1 (leading_operator_fails 0 "!" "A+B")). reflexivity.
  - apply (proj2 (leading_operator_fails 0 "*" []) "+*A" "A"); reflexivity.
Defined.

(** ** Induction on gates *)

Lemma Gate_induction (P : Gate -> Prop) :
  (forall tbl expr out op i1 i2,
      (forall a, i1 = Some a -> P a) ->
      (forall a, i2 = Some a -> P a) ->
      P (mkGate tbl expr out op i1 i2)) ->
  forall g, P g.
Proof.
  intros H.
  refine (fix IH (g : Gate) : P g :=
            match g with
            | mkGate tbl expr out op i1 i2 =>
                H tbl expr out op i1 i2 (fun a E => _) (fun a E => _)
            end).
  - destruct i1 as [a1|]; [|discriminate E].
    injection E as <-. apply IH.
  - destruct i2 as [a2|]; [|discriminate E].
    injection E as <-. apply IH.
Qed.

(** ** The evaluator *)

Section Evaluator.

Variable inputs : dict.

Lemma update_unfold (tbl : Table) (expr : pystr) (o : pyval) (op : op_kind)
  (i1 i2 : option Gate) :
  update (mkGate tbl expr o op i1 i2) inputs
  = (inp_1' <- match i1 with
               | Some g => g' <- update g inputs ;; OK (Some g')
               | None => OK None
               end ;;
     inp_2' <- match i2 with
               | Some g => g' <- update g inputs ;; OK (Some g')
               | None => OK None
               end ;;
     out <- match op with
            | AND => a <- output_of inp_1' ;;
                     if truthy a then output_of inp_2' else OK a
            | OR => a <- output_of inp_1' ;;
                    if truthy a then OK a else output_of inp_2'
            | NOT => a <- output_of inp_1' ;; OK (PBool (negb (truthy a)))
            | INPUT => dict_get inputs expr
            | UNITY => output_of inp_1'
            end ;;
     OK (mkGate tbl expr out op inp_1' inp_2')).
Proof. reflexivity. Qed.

(** [update] reads no cached output: two trees that differ in their
    outputs only are updated to the same tree. *)
Lemma update_erase (g1 : Gate) :
  forall g2, erase g1 = erase g2 -> update g1 inputs = update g2 inputs.
Proof.
  induction g1 as [tbl expr out op i1 i2 IH1 IH2] using Gate_induction.
  intros [tbl' expr' out' op' j1 j2] E.
  cbn [erase] in E. injection E as -> -> -> E1 E2.
  rewrite !update_unfold.
  assert (H1 : match i1 with
               | Some g => g' <- update g inputs ;; OK (Some g')
               | None => OK None
               end
               = match j1 with
                 | Some g => g' <- update g inputs ;; OK (Some g')
                 | None => OK None
                 end).
  { destruct i1 as [a|], j1 as [b|]; try discriminate; [|reflexivity].
    injection E1 as E1. rewrite (IH1 a eq_refl b E1). reflexivity. }
  assert (H2 : match i2 with
               | Some g => g' <- update g inputs ;; OK (Some g')
               | None => OK None
               end
               = match j2 with
                 | Some g => g' <- update g inputs ;; OK (Some g')
                 | None => OK None
                 end).
  { destruct i2 as [a|], j2 as [b|]; try discriminate; [|reflexivity].
    injection E2 as E2. rewrite (IH2 a eq_refl b E2). reflexivity. }
  rewrite H1, H2. reflexivity.
Qed.

(** [update] changes the outputs only. *)
Lemma update_shape (g : Gate) :
  forall g', update g inputs = OK g' -> erase g' = erase g.
Proof.
  induction g as [tbl expr out op i1 i2 IH1 IH2] using Gate_induction.
  intros g' H. rewrite update_unfold in H.
  destruct i1 as [a|].
  - destruct (update a inputs) as [a'|] eqn:Ha; [|discriminate H].
    pose proof (IH1 a eq_refl a' Ha) as Ea.
    destruct i2 as [b|].
    + destruct (update b inputs) as [b'|] eqn:Hb; [|discriminate H].
      pose proof (IH2 b eq_refl b' Hb) as Eb.
      cbn [bind] in H.
      destruct (match op with AND => _ | _ => _ end) as [v|]; [|discriminate H].
      injection H as <-. cbn [erase]. rewrite Ea, Eb. reflexivity.
    + cbn [bind] in H.
      destruct (match op with AND => _ | _ => _ end) as [v|]; [|discriminate H].
      injection H as <-. cbn [erase]. rewrite Ea. reflexivity.
  - destruct i2 as [b|].
    + destruct (update b inputs) as [b'|] eqn:Hb; [|discriminate H].
      pose proof (IH2 b eq_refl b' Hb) as Eb.
      cbn [bind] in H.
      destruct (match op with AND => _ | _ => _ end) as [v|]; [|discriminate H].
      injection H as <-. cbn [erase]. rewrite Eb. reflexivity.
    + cbn [bind] in H.
      destruct (match op with AND => _ | _ => _ end) as [v|]; [|discriminate H].
      injection H as <-. reflexivity.
Qed.

End Evaluator.

(** ** Evaluation follows the operators *)

Section UpdateSpec.

Variable inputs : dict.

Lemma dict_get_cases (k : pystr) :
  (exists v, dict_get inputs k = OK v) \/ dict_get inputs k = Err (KeyError k).
Proof.
  unfold dict_get. destruct (find _ inputs) as [kv|]; [left|right]; eauto.
Qed.

Lemma update_result_unary (tbl : Table) (expr : pystr) (out : pyval)
  (op : op_kind) (a : Gate) :
  op = NOT \/ op = UNITY ->
  update_result_ok inputs a ->
  update_result_ok inputs (mkGate tbl expr out op (Some a) None).
Proof.
  unfold update_result_ok. intros Hop Ha. rewrite update_unfold.
  assert (M : missing inputs (mkGate tbl expr out op (Some a) None)
              = missing inputs a).
  { destruct Hop; subst op; cbn [missing]; rewrite !app_nil_r; reflexivity. }
  rewrite M. clear M.
  destruct (update a inputs) as [a'|e].
  - destruct Ha as (Ea & Fa & Ma). cbn [bind].
    destruct Hop; subst op; cbn [bind output_of erase]; rewrite Ea;
      repeat split; auto.
  - destruct Ha as (k & rest & Ma & ->). cbn [bind].
    exists k, rest. split; [exact Ma | reflexivity].
Qed.

Lemma update_result_binary (tbl : Table) (expr : pystr) (out : pyval)
  (op : op_kind) (a b : Gate) :
  op = AND \/ op = OR ->
  update_result_ok inputs a -> update_result_ok inputs b ->
  update_result_ok inputs (mkGate tbl expr out op (Some a) (Some b)).
Proof.
  unfold update_result_ok. intros Hop Ha Hb. rewrite update_unfold.
  assert (M : missing inputs (mkGate tbl expr out op (Some a) (Some b))
              = missing inputs a ++ missing inputs b).
  { destruct Hop; subst op; cbn [missing]; rewrite !app_nil_r; reflexivity. }
  rewrite M. clear M.
  destruct (update a inputs) as [a'|e].
  - destruct Ha as (Ea & Fa & Ma). cbn [bind]. rewrite Ma.
    destruct (update b inputs) as [b'|e].
    + destruct Hb as (Eb & Fb & Mb). cbn [bind]. rewrite Mb.
      destruct Hop; subst op; cbn [bind output_of];
        destruct (truthy (output a')) eqn:Ta;
        cbn [erase bind]; rewrite Ea, Eb;
        repeat split; auto;
        rewrite ?Ta; reflexivity.
    + destruct Hb as (k & rest & Mb & ->). cbn [bind].
      exists k, rest. split; [exact Mb | reflexivity].
  - destruct Ha as (k & rest & Ma & ->). cbn [bind].
    eexists k, _. split; [|reflexivity].
    rewrite Ma. reflexivity.
Qed.

Lemma update_result (g : Gate) :
  well_formed g = true -> update_result_ok inputs g.
Proof.
  induction g as [tbl expr out op i1 i2 IH1 IH2] using Gate_induction.
  intros W. cbn [well_formed] in W.
  destruct op, i1 as [a|], i2 as [b|]; try discriminate W.
  - apply andb_true_iff in W. destruct W as [Wa Wb].
    apply update_result_binary; eauto.
  - apply andb_true_iff in W. destruct W as [Wa Wb].
    apply update_result_binary; eauto.
  - apply update_result_unary; eauto.
  - apply update_result_unary; eauto.
  - unfold update_result_ok. rewrite update_unfold. cbn [bind missing].
    destruct (dict_get_cases expr) as [[v Hv]|Hv]; rewrite Hv; cbn [bind].
    + repeat split; auto.
    + exists expr, []. split; reflexivity.
Qed.

End UpdateSpec.

(** C8: for every tree of the data model and every assignment, [update]
    sets the output of every node from the outputs of its inputs, which it
    updates first: AND is the conjunction of both inputs, OR the
    disjunction, NOT the complement of the single input, the pass-through
    the output of its input unchanged, and an input variable the value
    the assignment has for its symbol; the tree is otherwise unchanged.
    When the assignment lacks a symbol of the tree, the result is the
    KeyError (the MissingVariable condition) of the first such symbol. *)
Theorem update_follows_operators (g : Gate) (inputs : dict) :
  well_formed g = true ->
  match update g inputs with
  | OK g' =>
      erase g' = erase g /\ outputs_follow inputs g' /\ missing inputs g = []
  | Err e =>
      exists k rest, missing inputs g = k :: rest /\ e = KeyError k
  end.
Proof. apply update_result. Qed.

(** ** The enumeration of the assignments *)

Section Product.

Lemma flat_map_pool_length (pool : list Z) (l : list (list Z)) :
  List.length (flat_map (fun x => map (fun y => x ++ [y]) pool) l)
  = (List.length l * List.length pool)%nat.
Proof.
  induction l as [|x l IH]; simpl; [reflexivity|].
  rewrite length_app, length_map, IH. reflexivity.
Qed.

Lemma product_length (n : nat) :
  List.length (product [0; 1] n) = (2 ^ n)%nat.
Proof.
  induction n as [|n IH]; [reflexivity|].
  cbn [product]. rewrite flat_map_pool_length, IH. simpl. lia.
Qed.

Lemma flat_map_pair_nth {A B : Type} (f0 f1 : A -> B) (l : list A) :
  forall q r, (r < 2)%nat ->
    nth_error (flat_map (fun x => [f0 x; f1 x]) l) (2 * q + r)
    = option_map (if Nat.eqb r 0 then f0 else f1) (nth_error l q).
Proof.
  induction l as [|a l IH]; intros q r Hr.
  - simpl. destruct q, r; reflexivity.
  - destruct q as [|q].
    + destruct r as [|[|r]]; [reflexivity | reflexivity | lia].
    + replace (2 * S q + r)%nat with (S (S (2 * q + r))) by lia.
      cbn [flat_map app nth_error]. rewrite IH by exact Hr. reflexivity.
Qed.

Lemma binary_value_snoc (x : list Z) (b : Z) :
  binary_value (x ++ [b]) = 2 * binary_value x + b.
Proof. unfold binary_value. rewrite fold_left_app. reflexivity. Qed.

(** Row [i] of the enumeration spells [i] in binary, on [n] bits. *)
Lemma product_nth (n : nat) :
  forall i, (i < 2 ^ n)%nat ->
    exists inp,
      nth_error (product [0; 1] n) i = Some inp
      /\ List.length inp = n
      /\ Forall is_bit inp
      /\ binary_value inp = Z.of_nat i.
Proof.
  induction n as [|n IH]; intros i Hi.
  - simpl in Hi. assert (i = 0%nat) by lia. subst i.
    exists []. repeat split; constructor.
  - cbn [Nat.pow] in Hi.
    pose proof (Nat.div_mod_eq i 2) as Ei.
    pose proof (Nat.mod_upper_bound i 2 ltac:(lia)) as Hr.
    destruct (IH (i / 2)%nat ltac:(lia)) as (x & Hx & Lx & Bx & Vx).
    revert Ei Hr Hx Vx.
    generalize (i / 2)%nat as q, (i mod 2)%nat as r.
    intros q r -> Hr Hx Vx.
    cbn [product map].
    rewrite (flat_map_pair_nth (fun x => x ++ [0]) (fun x => x ++ [1]))
      by exact Hr.
    rewrite Hx. cbn [option_map].
    destruct r as [|[|r]]; [| |lia]; cbn [Nat.eqb].
    + exists (x ++ [0]). split; [reflexivity|].
      rewrite length_app, Lx, binary_value_snoc, Vx. cbn [List.length].
      repeat split; [lia| |lia].
      apply Forall_app. split; [exact Bx|].
      constructor; [left; reflexivity | constructor].
    + exists (x ++ [1]). split; [reflexivity|].
      rewrite length_app, Lx, binary_value_snoc, Vx. cbn [List.length].
      repeat split; [lia| |lia].
      apply Forall_app. split; [exact Bx|].
      constructor; [right; reflexivity | constructor].
Qed.

End Product.

(** ** The variable set *)

Section VariableSet.

Lemma code_inj (c d : ascii) : Str.code c = Str.code d -> c = d.
Proof.
  unfold Str.code. intros H.
  rewrite <- (ascii_nat_embedding c), <- (ascii_nat_embedding d), H.
  reflexivity.
Qed.

Lemma insert_desc_In (c x : ascii) (l : list ascii) :
  In x (insert_desc c l) <-> x = c \/ In x l.
Proof.
  induction l as [|d l IH]; simpl.
  - intuition.
  - destruct (Nat.leb (Str.code d) (Str.code c)); simpl; [intuition|].
    rewrite IH. intuition.
Qed.

Lemma insert_desc_descending (c : ascii) (l : list ascii) :
  ~ In c l -> descending l -> descending (insert_desc c l).
Proof.
  unfold descending. intros Hc Hl.
  induction Hl as [|d l Hl IH Hd]; simpl.
  - repeat constructor.
  - destruct (Nat.leb (Str.code d) (Str.code c)) eqn:E.
    + apply Nat.leb_le in E.
      assert (Hlt : (Str.code d < Str.code c)%nat).
      { destruct (Nat.eq_dec (Str.code d) (Str.code c)) as [Eq|]; [|lia].
        exfalso. apply Hc. left. apply code_inj, Eq. }
      constructor; [constructor; assumption|].
      constructor; [exact Hlt|].
      rewrite Forall_forall in *. intros x Hx. specialize (Hd x Hx). lia.
    + apply Nat.leb_gt in E.
      constructor.
      * apply IH. intros H. apply Hc. right. exact H.
      * rewrite Forall_forall in *. intros x Hx.
        apply insert_desc_In in Hx. destruct Hx as [->|Hx]; [exact E|].
        apply Hd, Hx.
Qed.

Lemma sorted_reverse_In (x : ascii) (l : list ascii) :
  In x (sorted_reverse l) <-> In x l.
Proof.
  induction l as [|c l IH]; simpl; [tauto|].
  rewrite insert_desc_In, IH. intuition.
Qed.

Lemma sorted_reverse_descending (l : list ascii) :
  NoDup l -> descending (sorted_reverse l).
Proof.
  induction 1 as [|c l Hc Hl IH]; simpl.
  - constructor.
  - apply insert_desc_descending; [|exact IH].
    rewrite sorted_reverse_In. exact Hc.
Qed.

(** The variable set: the alphabetic characters of the text, each once,
    in descending order. *)
Lemma extract_input_symbols_spec (fct_str : pystr) :
  exists chars,
    extract_input_symbols fct_str = map (fun c => [c]) chars
    /\ descending chars
    /\ (forall c, In c chars <-> In c fct_str /\ Str.isalpha c = true).
Proof.
  exists (sorted_reverse (nodup ascii_dec (filter Str.isalpha fct_str))).
  split; [reflexivity|]. split.
  - apply sorted_reverse_descending, NoDup_nodup.
  - intros c. rewrite sorted_reverse_In, nodup_In, filter_In. tauto.
Qed.

End VariableSet.

(** ** The truth table *)

Section TruthTable.

Variable input_symbols : list pystr.

Lemma table_loop_rows (inps : list (list Z)) :
  forall circuit table circuit' table',
    table_loop input_symbols inps circuit table = OK (circuit', table') ->
    erase circuit' = erase circuit
    /\ exists rows,
        table' = table ++ rows
        /\ Forall2 (row_of circuit input_symbols) inps rows.
Proof.
  induction inps as [|inp inps IH]; intros c t c' t' H.
  - injection H as <- <-. split; [reflexivity|].
    exists []. rewrite app_nil_r. split; [reflexivity | constructor].
  - cbn [table_loop] in H.
    destruct (update c _) as [c1|] eqn:U; [|discriminate H].
    cbn [bind] in H. apply IH in H. destruct H as (E & rows & -> & F).
    pose proof (update_shape _ _ _ U) as E1.
    split; [congruence|].
    exists ((inp, normalize_bool (output c1)) :: rows). split.
    + rewrite <- app_assoc. reflexivity.
    + constructor.
      * exists c1. split; [exact U | reflexivity].
      * eapply Forall2_impl; [|exact F].
        intros a b (g' & Hg & ->). exists g'. split; [|reflexivity].
        rewrite <- Hg. symmetry. apply update_erase. exact E1.
Qed.

Lemma row_of_inputs (circuit : Gate) (inps : list (list Z)) (rows : Table) :
  Forall2 (row_of circuit input_symbols) inps rows -> map fst rows = inps.
Proof.
  induction 1 as [|inp row inps rows (g' & _ & ->) _ IH]; simpl;
    [reflexivity | f_equal; exact IH].
Qed.

End TruthTable.

Lemma generate_truth_table_rows (circuit circuit' : Gate) :
  generate_truth_table circuit = OK circuit' ->
  erase circuit' = erase (set_truth_table circuit (truth_table circuit'))
  /\ Forall2 (row_of circuit (extract_input_symbols (expression circuit)))
       (product [0; 1] (List.length (extract_input_symbols (expression circuit))))
       (truth_table circuit').
Proof.
  unfold generate_truth_table. intros H.
  destruct (table_loop _ _ circuit []) as [[c t]|] eqn:L; [|discriminate H].
  cbn [bind] in H. injection H as <-.
  apply table_loop_rows in L. destruct L as (E & rows & -> & F).
  cbn [app] in *. split; [|exact F].
  destruct c, circuit. cbn [erase] in E. injection E as -> -> -> E1 E2.
  cbn [set_truth_table erase truth_table expression output operator inp_1 inp_2].
  rewrite E1, E2. reflexivity.
Qed.

(** C2: the table that [generate_truth_table] stores has 2^N rows for the
    N symbols of the variable set, which are the alphabetic characters of
    the expression in descending order.  Row [i] holds N bits that spell
    [i] in binary, the first bit (the first symbol) the most significant,
    and the output of the circuit under the assignment that pairs the
    symbols with these bits in order. *)
Theorem truth_table_canonical (circuit circuit' : Gate) :
  generate_truth_table circuit = OK circuit' ->
  let input_symbols := extract_input_symbols (expression circuit) in
  let n := List.length input_symbols in
  List.length (truth_table circuit') = (2 ^ n)%nat
  /\ map fst (truth_table circuit') = product [0; 1] n
  /\ (forall i, (i < 2 ^ n)%nat ->
        exists inp out,
          nth_error (truth_table circuit') i = Some (inp, out)
          /\ List.length inp = n
          /\ Forall is_bit inp
          /\ binary_value inp = Z.of_nat i
          /\ row_of circuit input_symbols inp (inp, out))
  /\ (exists chars,
        input_symbols = map (fun c => [c]) chars
        /\ descending chars
        /\ (forall c, In c chars
                      <-> In c (expression circuit) /\ Str.isalpha c = true)).
Proof.
  intros H input_symbols n.
  apply generate_truth_table_rows in H. destruct H as [_ F].
  fold input_symbols in F. fold n in F.
  pose proof (row_of_inputs _ _ _ _ F) as M.
  assert (L : List.length (truth_table circuit') = (2 ^ n)%nat).
  { rewrite <- (length_map fst), M. apply product_length. }
  split; [exact L|]. split; [exact M|]. split.
  - intros i Hi.
    destruct (product_nth n i Hi) as (inp & Hn & Li & Bi & Vi).
    destruct (nth_error (truth_table circuit') i) as [row|] eqn:R.
    2:{ apply nth_error_None in R. lia. }
    assert (Hrow : row_of circuit input_symbols inp row).
    { clear - F Hn R. revert i Hn R.
      induction F as [|a b la lb Hab _ IH]; intros [|i] Hn R;
        try discriminate.
      - injection Hn as ->. injection R as ->. exact Hab.
      - eapply IH; eassumption. }
    destruct Hrow as (g' & Hg & ->).
    exists inp, (normalize_bool (output g')).
    repeat split; auto. exists g'. split; [exact Hg | reflexivity].
  - apply extract_input_symbols_spec.
Qed.

(** ** The minterm builder *)

Section Minterms.

Lemma comprehension_ext {A B : Type} (f g : A -> result B) (l : list A) :
  (forall a, In a l -> f a = g a) -> comprehension f l = comprehension g l.
Proof.
  induction l as [|a l IH]; intros H; [reflexivity|].
  cbn [comprehension]. rewrite (H a (or_introl eq_refl)), IH; [reflexivity|].
  intros x Hx. apply H. right. exact Hx.
Qed.

Lemma comprehension_map {A B C : Type} (f : B -> result C) (g : A -> B)
  (l : list A) :
  comprehension f (map g l) = comprehension (fun a => f (g a)) l.
Proof.
  induction l as [|a l IH]; [reflexivity|].
  cbn [map comprehension]. rewrite IH. reflexivity.
Qed.

Lemma is_bitb_cases (z : Z) : is_bitb z = true -> z = 0 \/ z = 1.
Proof. unfold is_bitb. lia. Qed.

(** The list comprehension of a row pairs the symbols with the bits. *)
Lemma minterm_row_spec (inp : list Z) :
  forall input_symbols,
    (List.length inp <= List.length input_symbols)%nat ->
    forallb is_bitb inp = true ->
    minterm_row input_symbols inp
    = OK (map (fun sb => spec_literal (fst sb) (snd sb))
              (combine input_symbols inp)).
Proof.
  unfold minterm_row.
  induction inp as [|bit inp IH]; intros syms L B.
  - destruct syms; reflexivity.
  - destruct syms as [|sym syms]; [simpl in L; lia|].
    cbn [List.length] in *. cbn [forallb] in B.
    apply andb_true_iff in B. destruct B as [Hb B].
    rewrite <- cons_seq, <- seq_shift.
    cbn [comprehension list_index nth_error bind combine map fst snd].
    rewrite comprehension_map.
    rewrite (comprehension_ext _
               (fun i => b <- list_index inp i ;;
                         sym <- list_index syms i ;;
                         OK (if negb (b =? 0) then sym else sym ++ "'")))
      by (intros; reflexivity).
    rewrite (IH syms) by (auto; lia). cbn [bind].
    unfold spec_literal.
    destruct (is_bitb_cases _ Hb) as [-> | ->]; reflexivity.
Qed.

Lemma join_empty_concat (l : list pystr) : Str.join "" l = List.concat l.
Proof.
  induction l as [|x [|y l] IH]; [reflexivity | |].
  - simpl. rewrite app_nil_r. reflexivity.
  - change (Str.join "" (x :: y :: l)) with (x ++ Str.join "" (y :: l)).
    rewrite IH. reflexivity.
Qed.

Lemma minterm_loop_spec (input_symbols : list pystr) (table : Table) :
  bit_table (List.length input_symbols) table = true ->
  forall min_terms,
    minterm_loop input_symbols table min_terms
    = OK (min_terms
            ++ map (fun line => spec_term input_symbols (fst line))
                 (filter (fun line => snd line =? 1) table)).
Proof.
  induction table as [|line table IH]; intros B acc.
  - cbn. rewrite app_nil_r. reflexivity.
  - cbn [bit_table forallb] in B. apply andb_true_iff in B.
    destruct B as [Hl B]. unfold bit_row in Hl.
    apply andb_true_iff in Hl. destruct Hl as [Hl Ho].
    apply andb_true_iff in Hl. destruct Hl as [Hn Hi].
    apply Nat.leb_le in Hn.
    cbn [minterm_loop filter].
    destruct (is_bitb_cases _ Ho) as [E|E]; rewrite E; cbn [Z.eqb negb].
    + apply IH, B.
    + rewrite minterm_row_spec by assumption. cbn [bind].
      rewrite (IH B), join_empty_concat. cbn [map].
      rewrite <- app_assoc. reflexivity.
Qed.

Lemma build_minterms_spec (input_symbols : list pystr) (table : Table) :
  bit_table (List.length input_symbols) table = true ->
  build_minterms table (Some input_symbols)
  = OK (spec_minterms input_symbols table).
Proof.
  intros B. unfold build_minterms. cbn [bind].
  rewrite minterm_loop_spec by exact B. reflexivity.
Qed.

Lemma no_true_row (input_symbols : list pystr) (table : Table) :
  has_true_row table = false -> spec_minterms input_symbols table = [].
Proof.
  intros H. unfold spec_minterms.
  replace (filter (fun line => snd line =? 1) table) with (@nil (list Z * Z));
    [reflexivity|].
  symmetry. induction table as [|line table IH]; [reflexivity|].
  cbn [has_true_row existsb] in H. apply orb_false_iff in H.
  destruct H as [H1 H2]. cbn [filter]. rewrite H1. apply IH, H2.
Qed.

Lemma erase_expression (a b : Gate) :
  erase a = erase b -> expression a = expression b.
Proof. destruct a, b. cbn [erase]. intros E. injection E. auto. Qed.

End Minterms.

(** C3: on a table of bits whose rows are no longer than the list of
    symbols, [build_minterms] returns the string of the specification: a
    term for every row whose output is 1, in reversed row order, joined by
    [" + "]; without such a row it returns the empty string.
    [sum_of_min_terms] puts ["F = "] in front of it, for a circuit that
    holds the table or that gets it from [generate_truth_table]. *)
Theorem minterms_follow_rows (table : Table) (input_symbols : list pystr) :
  bit_table (List.length input_symbols) table = true ->
  build_minterms table (Some input_symbols)
  = OK (spec_minterms input_symbols table)
  /\ (has_true_row table = false ->
      build_minterms table (Some input_symbols) = OK [])
  /\ (forall circuit,
        extract_input_symbols (expression circuit) = input_symbols ->
        (truth_table circuit = table /\ table <> [])
        \/ (truth_table circuit = []
            /\ exists circuit',
                generate_truth_table circuit = OK circuit'
                /\ truth_table circuit' = table) ->
        sum_of_min_terms circuit
        = OK ("F = " ++ spec_minterms input_symbols table)
        /\ (has_true_row table = false ->
            sum_of_min_terms circuit = OK ("F = " : pystr))).
Proof.
  intros B. pose proof (build_minterms_spec _ _ B) as E.
  split; [exact E|]. split.
  - intros H. rewrite E, no_true_row by exact H. reflexivity.
  - intros circuit Hs Hc.
    assert (S : sum_of_min_terms circuit
                = OK ("F = " ++ spec_minterms input_symbols table)).
    { unfold sum_of_min_terms.
      destruct Hc as [[Ht Hne] | [Ht (c' & Hg & Ht')]].
      - destruct (truth_table circuit) as [|r t] eqn:Et; [congruence|].
        cbn [List.length Nat.eqb bind]. rewrite Hs, Et, Ht, E. reflexivity.
      - rewrite Ht. cbn [List.length Nat.eqb]. rewrite Hg. cbn [bind].
        apply generate_truth_table_rows in Hg. destruct Hg as [Eg _].
        apply erase_expression in Eg. cbn [set_truth_table expression] in Eg.
        rewrite Eg, Hs, Ht', E. reflexivity. }
    split; [exact S|].
    intros H. rewrite S, no_true_row by exact H. reflexivity.
Qed.

(** ** The table loader *)

Section Loader.

Lemma check_loop_fail (table : Table) (inps : list (list Z)) :
  forall i k row canon,
    (forall j, (j < k)%nat ->
               nth_error (map fst table) (i + j) = nth_error inps j) ->
    nth_error table (i + k) = Some row ->
    nth_error inps k = Some canon ->
    fst row <> canon ->
    check_loop table inps i = Err (InconsistentRow (Z.of_nat (i + k) + 1)).
Proof.
  induction inps as [|inp inps IH]; intros i k row canon Hj Hr Hc Hne.
  - destruct k; discriminate Hc.
  - cbn [check_loop]. unfold list_index. destruct k as [|k].
    + rewrite Nat.add_0_r in *. rewrite Hr. cbn [bind].
      injection Hc as <-.
      destruct (list_eq_dec Z.eq_dec (fst row) inp); [contradiction|].
      reflexivity.
    + pose proof (Hj 0%nat ltac:(lia)) as H0.
      rewrite Nat.add_0_r, nth_error_map in H0. cbn [nth_error] in H0.
      destruct (nth_error table i) as [r0|]; [|discriminate H0].
      injection H0 as H0. cbn [bind].
      destruct (list_eq_dec Z.eq_dec (fst r0) inp); [|contradiction].
      replace (i + S k)%nat with (S i + k)%nat in * by lia.
      apply (IH (S i) k row canon); auto.
      intros j Hlt. specialize (Hj (S j) ltac:(lia)).
      replace (i + S j)%nat with (S i + j)%nat in Hj by lia. exact Hj.
Qed.

Lemma check_loop_pass (table : Table) (inps : list (list Z)) :
  forall i,
    (forall j, (j < List.length inps)%nat ->
               nth_error (map fst table) (i + j) = nth_error inps j) ->
    check_loop table inps i = OK tt.
Proof.
  induction inps as [|inp inps IH]; intros i Hj; [reflexivity|].
  cbn [check_loop]. unfold list_index.
  pose proof (Hj 0%nat ltac:(simpl; lia)) as H0.
  rewrite Nat.add_0_r, nth_error_map in H0. cbn [nth_error] in H0.
  destruct (nth_error table i) as [r0|]; [|discriminate H0].
  injection H0 as H0. cbn [bind].
  destruct (list_eq_dec Z.eq_dec (fst r0) inp); [|contradiction].
  apply IH. intros j Hlt. specialize (Hj (S j) ltac:(simpl; lia)).
  replace (i + S j)%nat with (S i + j)%nat in Hj by lia. exact Hj.
Qed.

Lemma two_power (n : nat) : Z.of_nat (2 ^ n) = 2 ^ Z.of_nat n.
Proof. rewrite Nat2Z.inj_pow. reflexivity. Qed.

End Loader.

(** C7: with N the number of inputs on the first line, the loader fails
    with IncompleteTable when the file has fewer than 2^N lines and with
    OverdefinedTable when it has more.  With exactly 2^N lines that all
    parse, it fails with InconsistentRow at the 1-based number of the
    first line whose inputs differ from the tuple of the canonical
    enumeration at that index, and returns the parsed table when no line
    differs. *)
Theorem loader_checks (lines : list pystr) (line_0 : pystr)
  (inp : list Z) (out : Z) :
  nth_error lines 0 = Some line_0 ->
  parse_line line_0 = OK (inp, out) ->
  let n := List.length inp in
  ((List.length lines < 2 ^ n)%nat ->
   read_table_from_lines lines = Err IncompleteTable)
  /\ ((2 ^ n < List.length lines)%nat ->
      read_table_from_lines lines = Err OverdefinedTable)
  /\ (forall table,
        comprehension parse_line lines = OK table ->
        List.length lines = (2 ^ n)%nat ->
        (map fst table = product [0; 1] n ->
         read_table_from_lines lines = OK table)
        /\ (forall i row canon,
              (forall j, (j < i)%nat ->
                         nth_error (map fst table) j
                         = nth_error (product [0; 1] n) j) ->
              nth_error table i = Some row ->
              nth_error (product [0; 1] n) i = Some canon ->
              fst row <> canon ->
              read_table_from_lines lines
              = Err (InconsistentRow (Z.of_nat i + 1)))).
Proof.
  intros H0 Hp n.
  assert (U : read_table_from_lines lines
              = if Z.of_nat (List.length lines) <? 2 ^ Z.of_nat n
                then Err IncompleteTable
                else if Z.of_nat (List.length lines) >? 2 ^ Z.of_nat n
                     then Err OverdefinedTable
                     else
                       rest <- comprehension parse_line (skipn 1 lines) ;;
                       let table := [(inp, out)] ++ rest in
                       _ <- check_table table n ;;
                       OK table).
  { unfold read_table_from_lines, list_index. rewrite H0. cbn [bind].
    rewrite Hp. reflexivity. }
  rewrite U. rewrite <- two_power.
  split; [|split].
  - intros Hlt.
    destruct (Z.ltb_spec (Z.of_nat (List.length lines)) (Z.of_nat (2 ^ n)));
      [reflexivity | lia].
  - intros Hgt.
    destruct (Z.ltb_spec (Z.of_nat (List.length lines)) (Z.of_nat (2 ^ n)));
      [lia|].
    destruct (Z.gtb_spec (Z.of_nat (List.length lines)) (Z.of_nat (2 ^ n)));
      [reflexivity | lia].
  - intros table Hc Hlen.
    destruct (Z.ltb_spec (Z.of_nat (List.length lines)) (Z.of_nat (2 ^ n)));
      [lia|].
    destruct (Z.gtb_spec (Z.of_nat (List.length lines)) (Z.of_nat (2 ^ n)));
      [lia|].
    destruct lines as [|l0 rest]; [discriminate H0|].
    injection H0 as ->. cbn [comprehension] in Hc. rewrite Hp in Hc.
    cbn [bind skipn] in *.
    destruct (comprehension parse_line rest) as [rows|]; [|discriminate Hc].
    cbn [bind] in *. injection Hc as <-. cbn [app].
    unfold check_table. split.
    + intros Hm. rewrite check_loop_pass; [reflexivity|].
      intros j _. rewrite Hm. reflexivity.
    + intros i row canon Hj Hr Hcn Hne.
      rewrite (check_loop_fail _ _ 0 i row canon); auto.
Qed.

(** ** Texts the normalizer leaves unchanged *)

Section FixedTexts.

Lemma and_inserted_after_cons (r : pystr) :
  forall p c,
    and_inserted_after p (c :: r) = and_before p c ++ and_inserted (c :: r).
Proof.
  induction r as [|d r IH]; intros p c; [reflexivity|].
  change (and_inserted_after p (c :: d :: r))
    with (and_before p c ++ c :: and_inserted_after (Some c) (d :: r)).
  rewrite IH.
  change (and_inserted (c :: d :: r))
    with (if implies_and c d then c :: "*"%char :: and_inserted (d :: r)
          else c :: and_inserted (d :: r)).
  cbn [and_before]. destruct (implies_and c d); reflexivity.
Qed.

Lemma and_inserted_after_none (s : pystr) :
  and_inserted s = and_inserted_after None s.
Proof.
  destruct s as [|c r]; [reflexivity|].
  rewrite and_inserted_after_cons. reflexivity.
Qed.

Lemma and_inserted_after_app (a : pystr) :
  forall p b,
    and_inserted_after p (a ++ b)
    = and_inserted_after p a ++ and_inserted_after (last_or p a) b.
Proof.
  induction a as [|c a IH]; intros p b; [reflexivity|].
  assert (L : last_or p (c :: a) = last_or (Some c) a).
  { unfold last_or. cbn [rev]. destruct (rev a) as [|x l]; reflexivity. }
  cbn [app and_inserted_after]. rewrite IH, L, <- app_assoc. reflexivity.
Qed.

Lemma implies_and_star_r (c : ascii) : implies_and c "*" = false.
Proof. unfold implies_and. cbn. rewrite !andb_false_r. reflexivity. Qed.

Lemma implies_and_star_l (c : ascii) : implies_and "*" c = false.
Proof. reflexivity. Qed.

(** Inserting the markers twice inserts nothing new. *)
Lemma and_inserted_after_idem (s : pystr) :
  forall p,
    and_inserted_after p (and_inserted_after p s) = and_inserted_after p s.
Proof.
  induction s as [|c r IH]; intros p; [reflexivity|].
  cbn [and_inserted_after]. rewrite and_inserted_after_app.
  assert (E : and_inserted_after (last_or p (and_before p c))
                (c :: and_inserted_after (Some c) r)
              = c :: and_inserted_after (Some c) r).
  { cbn [and_inserted_after]. rewrite IH.
    replace (and_before (last_or p (and_before p c)) c) with (@nil ascii);
      [reflexivity|].
    destruct p as [x|]; [|reflexivity]. cbn [and_before].
    destruct (implies_and x c) eqn:Hx; cbn; [reflexivity|].
    rewrite Hx. reflexivity. }
  rewrite E. f_equal.
  destruct p as [x|]; [|reflexivity]. cbn [and_before].
  destruct (implies_and x c); [|reflexivity].
  cbn [and_inserted_after and_before]. rewrite implies_and_star_r. reflexivity.
Qed.

Lemma and_inserted_idem (s : pystr) :
  and_inserted (and_inserted s) = and_inserted s.
Proof. rewrite !and_inserted_after_none. apply and_inserted_after_idem. Qed.

Lemma lstrip_fixed (p : ascii -> bool) (s : pystr) :
  begins_with (fun c => negb (p c)) s -> Str.lstrip p s = s.
Proof.
  intros (a & m & -> & H). apply negb_true_iff in H. simpl. rewrite H.
  reflexivity.
Qed.

Lemma rstrip_fixed (p : ascii -> bool) (s : pystr) :
  ends_with (fun c => negb (p c)) s -> Str.rstrip p s = s.
Proof.
  intros (m & b & -> & H). apply negb_true_iff in H.
  unfold Str.rstrip. rewrite rev_app_distr. simpl. rewrite H.
  simpl. rewrite rev_involutive. reflexivity.
Qed.

Lemma strip_pred_fixed (p : ascii -> bool) (s : pystr) :
  begins_with (fun c => negb (p c)) s ->
  ends_with (fun c => negb (p c)) s ->
  Str.strip_pred p s = s.
Proof.
  intros B E. unfold Str.strip_pred. rewrite lstrip_fixed by exact B.
  apply rstrip_fixed, E.
Qed.

Lemma begins_with_weaken (q q' : ascii -> bool) (s : pystr) :
  (forall c, q c = true -> q' c = true) -> begins_with q s -> begins_with q' s.
Proof. intros H (a & m & -> & Ha). exists a, m. auto. Qed.

Lemma ends_with_weaken (q q' : ascii -> bool) (s : pystr) :
  (forall c, q c = true -> q' c = true) -> ends_with q s -> ends_with q' s.
Proof. intros H (m & b & -> & Hb). exists m, b. auto. Qed.

Lemma scrub_fixed (s : pystr) : forallb plain s = true -> scrub s = s.
Proof.
  unfold scrub, Str.upper, Str.remove_char, Str.replace_char.
  induction s as [|c s IH]; [reflexivity|].
  cbn [forallb]. intros H. apply andb_true_iff in H. destruct H as [Hc Hs].
  specialize (IH Hs). unfold plain in Hc.
  repeat (apply andb_true_iff in Hc; destruct Hc as [Hc ?]).
  repeat match goal with H : negb _ = true |- _ => apply negb_true_iff in H end.
  cbn [map]. unfold Str.upper_char at 1. rewrite Hc.
  cbn [filter]. rewrite H1. cbn [negb filter]. rewrite H0. cbn [negb map].
  rewrite H, IH. reflexivity.
Qed.

Lemma scrub_app (a b : pystr) : scrub (a ++ b) = scrub a ++ scrub b.
Proof.
  unfold scrub, Str.upper, Str.remove_char, Str.replace_char.
  rewrite map_app, !filter_app, map_app. reflexivity.
Qed.

(** A text of plain characters with no marker to insert, that begins and
    ends with neither a blank nor a marker, is its own normal form. *)
Lemma normalize_fixed (s : pystr) :
  forallb plain s = true ->
  begins_with edge s -> ends_with edge s ->
  and_inserted s = s ->
  normalize_bool_fct_str (Str.strip s) = s.
Proof.
  intros P B E A.
  assert (W : forall q, (forall c, edge c = true -> negb (q c) = true) ->
                        Str.strip_pred q s = s).
  { intros q H. apply strip_pred_fixed.
    - eapply begins_with_weaken; [|exact B]. exact H.
    - eapply ends_with_weaken; [|exact E]. exact H. }
  rewrite normalize_unfold. unfold Str.strip. rewrite W.
  2:{ unfold edge. intros c H.
      repeat (apply andb_true_iff in H; destruct H as [H ?]). exact H. }
  unfold clean. fold (scrub s). rewrite scrub_fixed by exact P.
  unfold Str.strip_char. rewrite W.
  2:{ unfold edge. intros c H.
      repeat (apply andb_true_iff in H; destruct H as [H ?]). assumption. }
  rewrite W.
  2:{ unfold edge. intros c H.
      repeat (apply andb_true_iff in H; destruct H as [H ?]). assumption. }
  exact A.
Qed.

End FixedTexts.

(** ** The text of a sum of products *)

Section Joins.

Lemma join_cons2 (sep x y : pystr) (r : list pystr) :
  Str.join sep (x :: y :: r) = x ++ sep ++ Str.join sep (y :: r).
Proof. reflexivity. Qed.

Lemma join_concat (sep x : pystr) (r : list pystr) :
  Str.join sep (x :: r) = x ++ List.concat (map (fun y => sep ++ y) r).
Proof.
  revert x. induction r as [|y r IH]; intros x.
  - simpl. rewrite app_nil_r. reflexivity.
  - rewrite join_cons2, IH. cbn [map List.concat].
    rewrite <- app_assoc. reflexivity.
Qed.

Lemma forallb_join (q : ascii -> bool) (sep : pystr) (l : list pystr) :
  forallb q sep = true ->
  Forall (fun x => forallb q x = true) l ->
  forallb q (Str.join sep l) = true.
Proof.
  intros Hs H. induction H as [|x l Hx Hl IH]; [reflexivity|].
  destruct l as [|y l]; [exact Hx|].
  rewrite join_cons2, !forallb_app, Hx, Hs. cbn [andb]. exact IH.
Qed.

Lemma forallb_concat (q : ascii -> bool) (l : list pystr) :
  Forall (fun x => forallb q x = true) l ->
  forallb q (List.concat l) = true.
Proof.
  induction 1 as [|x l Hx Hl IH]; [reflexivity|].
  cbn [List.concat]. rewrite forallb_app, Hx, IH. reflexivity.
Qed.

Lemma begins_with_app (q : ascii -> bool) (a b : pystr) :
  begins_with q a -> begins_with q (a ++ b).
Proof. intros (x & m & -> & H). exists x, (m ++ b). auto. Qed.

Lemma ends_with_app (q : ascii -> bool) (a b : pystr) :
  ends_with q b -> ends_with q (a ++ b).
Proof.
  intros (m & x & -> & H). exists (a ++ m), x. rewrite app_assoc. auto.
Qed.

Lemma begins_with_join (q : ascii -> bool) (sep x : pystr) (r : list pystr) :
  begins_with q x -> begins_with q (Str.join sep (x :: r)).
Proof. intros H. rewrite join_concat. apply begins_with_app, H. Qed.

Lemma ends_with_join (q : ascii -> bool) (sep : pystr) (l : list pystr) :
  l <> [] -> Forall (ends_with q) l -> ends_with q (Str.join sep l).
Proof.
  intros Hne H. induction H as [|x l Hx Hl IH]; [contradiction|].
  destruct l as [|y l]; [exact Hx|].
  rewrite join_cons2. apply ends_with_app, ends_with_app, IH. discriminate.
Qed.

Lemma ends_with_concat (q : ascii -> bool) (l : list pystr) :
  l <> [] -> Forall (ends_with q) l -> ends_with q (List.concat l).
Proof.
  intros Hne H. induction H as [|x l Hx Hl IH]; [contradiction|].
  cbn [List.concat]. destruct l as [|y l].
  - simpl. rewrite app_nil_r. exact Hx.
  - apply ends_with_app, IH. discriminate.
Qed.

End Joins.

Section SumTexts.

Lemma literal_char_plain (c : ascii) : sum_char c = true -> plain c = true.
Proof.
  destruct c as [[] [] [] [] [] [] [] []]; vm_compute; congruence.
Qed.

Lemma literal_char_edge (c : ascii) : literal_char c = true -> edge c = true.
Proof.
  destruct c as [[] [] [] [] [] [] [] []]; vm_compute; congruence.
Qed.

Lemma literal_char_sum (c : ascii) : literal_char c = true -> sum_char c = true.
Proof. unfold sum_char. intros ->. reflexivity. Qed.

Lemma upper_literal_char (c : ascii) :
  Str.is_upper c = true -> literal_char c = true.
Proof. unfold literal_char. intros ->. reflexivity. Qed.

Lemma forallb_weaken {A : Type} (q q' : A -> bool) (l : list A) :
  (forall c, q c = true -> q' c = true) ->
  forallb q l = true -> forallb q' l = true.
Proof.
  intros H. rewrite !forallb_forall. auto.
Qed.

Lemma valid_term_cons (l : literal) (t : list literal) :
  valid_term (l :: t) = true ->
  Str.is_upper (fst l) = true /\ forallb valid_literal t = true.
Proof.
  unfold valid_term. cbn. intros H. apply andb_true_iff in H. exact H.
Qed.

Lemma valid_term_tail (l l' : literal) (t : list literal) :
  valid_term (l :: l' :: t) = true -> valid_term (l' :: t) = true.
Proof.
  intros H. apply valid_term_cons in H. destruct H as [_ H].
  unfold valid_term. cbn [List.length Nat.eqb negb andb]. exact H.
Qed.

Lemma valid_term_single (l : literal) (t : list literal) :
  valid_term (l :: t) = true -> valid_term [l] = true.
Proof.
  intros H. apply valid_term_cons in H. destruct H as [H _].
  unfold valid_term, valid_literal. cbn. rewrite H. reflexivity.
Qed.

Lemma valid_sum_cons (t : list literal) (ts : list (list literal)) :
  valid_sum (t :: ts) = true ->
  valid_term t = true /\ forallb valid_term ts = true.
Proof.
  unfold valid_sum. cbn. intros H. apply andb_true_iff in H. exact H.
Qed.

Lemma valid_sum_tail (t t' : list literal) (ts : list (list literal)) :
  valid_sum (t :: t' :: ts) = true -> valid_sum (t' :: ts) = true.
Proof.
  intros H. apply valid_sum_cons in H. destruct H as [_ H].
  unfold valid_sum. cbn [List.length Nat.eqb negb andb]. exact H.
Qed.

Lemma valid_sum_of_term (t : list literal) :
  valid_term t = true -> valid_sum [t] = true.
Proof.
  intros H. unfold valid_sum. cbn [List.length Nat.eqb negb forallb andb].
  rewrite H. reflexivity.
Qed.

Lemma valid_sum_single (t : list literal) (ts : list (list literal)) :
  valid_sum (t :: ts) = true -> valid_sum [t] = true.
Proof.
  intros H. apply valid_sum_cons in H. destruct H as [H _].
  unfold valid_sum. cbn. rewrite H. reflexivity.
Qed.

Lemma literal_text_chars (l : literal) :
  valid_literal l = true -> forallb literal_char (literal_text l) = true.
Proof.
  destruct l as [c []]; unfold valid_literal, literal_text; cbn;
    intros H; rewrite (upper_literal_char c H); reflexivity.
Qed.

Lemma literal_text_begins (l : literal) :
  valid_literal l = true -> begins_with literal_char (literal_text l).
Proof.
  destruct l as [c b]. unfold valid_literal. cbn [fst]. intros H.
  exists c, (if b then [] else ["'"%char]). split.
  - destruct b; reflexivity.
  - apply upper_literal_char, H.
Qed.

Lemma literal_text_ends (l : literal) :
  valid_literal l = true -> ends_with literal_char (literal_text l).
Proof.
  destruct l as [c []]; unfold valid_literal; cbn [fst]; intros H.
  - exists [], c. split; [reflexivity | apply upper_literal_char, H].
  - exists [c], "'"%char. split; reflexivity.
Qed.

Lemma Forall_map_valid {A : Type} (P : A -> Prop) (f : literal -> A)
  (t : list literal) :
  (forall l, valid_literal l = true -> P (f l)) ->
  forallb valid_literal t = true -> Forall P (map f t).
Proof.
  intros H Ht. rewrite forallb_forall in Ht.
  apply Forall_forall. intros x Hx. apply in_map_iff in Hx.
  destruct Hx as (l & <- & Hl). auto.
Qed.

Lemma term_text_chars (t : list literal) :
  forallb valid_literal t = true -> forallb sum_char (term_text t) = true.
Proof.
  intros H. apply forallb_join; [reflexivity|].
  apply Forall_map_valid; [|exact H].
  intros l Hl. eapply forallb_weaken; [|apply literal_text_chars, Hl].
  apply literal_char_sum.
Qed.

Lemma term_text_begins (t : list literal) :
  valid_term t = true -> begins_with literal_char (term_text t).
Proof.
  destruct t as [|l t]; [discriminate|]. intros H.
  apply valid_term_cons in H. destruct H as [H _].
  apply begins_with_join, literal_text_begins, H.
Qed.

Lemma term_text_ends (t : list literal) :
  valid_term t = true -> ends_with literal_char (term_text t).
Proof.
  destruct t as [|l t]; [discriminate|]. intros H.
  unfold valid_term in H. apply andb_true_iff in H. destruct H as [_ H].
  apply ends_with_join; [discriminate|].
  apply Forall_map_valid; [|exact H]. apply literal_text_ends.
Qed.

Lemma raw_term_text_chars (t : list literal) :
  forallb valid_literal t = true ->
  forallb literal_char (raw_term_text t) = true.
Proof.
  intros H. apply forallb_concat. apply Forall_map_valid; [|exact H].
  apply literal_text_chars.
Qed.

Lemma raw_term_text_begins (t : list literal) :
  valid_term t = true -> begins_with literal_char (raw_term_text t).
Proof.
  destruct t as [|l t]; [discriminate|]. intros H.
  apply valid_term_cons in H. destruct H as [H _].
  apply begins_with_app, literal_text_begins, H.
Qed.

Lemma raw_term_text_ends (t : list literal) :
  valid_term t = true -> ends_with literal_char (raw_term_text t).
Proof.
  destruct t as [|l t]; [discriminate|]. intros H.
  unfold valid_term in H. apply andb_true_iff in H. destruct H as [_ H].
  apply ends_with_concat; [discriminate|].
  apply Forall_map_valid; [|exact H]. apply literal_text_ends.
Qed.

Lemma Forall_map_valid_term {A : Type} (P : A -> Prop)
  (f : list literal -> A) (ts : list (list literal)) :
  (forall t, valid_term t = true -> P (f t)) ->
  forallb valid_term ts = true -> Forall P (map f ts).
Proof.
  intros H Ht. rewrite forallb_forall in Ht.
  apply Forall_forall. intros x Hx. apply in_map_iff in Hx.
  destruct Hx as (l & <- & Hl). auto.
Qed.

Lemma valid_term_literals (t : list literal) :
  valid_term t = true -> forallb valid_literal t = true.
Proof. unfold valid_term. intros H. apply andb_true_iff in H. apply H. Qed.

Lemma sum_text_chars (ts : list (list literal)) :
  forallb valid_term ts = true -> forallb sum_char (sum_text ts) = true.
Proof.
  intros H. apply forallb_join; [reflexivity|].
  apply Forall_map_valid_term; [|exact H].
  intros t Ht. apply term_text_chars, valid_term_literals, Ht.
Qed.

Lemma sum_text_begins (ts : list (list literal)) :
  valid_sum ts = true -> begins_with literal_char (sum_text ts).
Proof.
  destruct ts as [|t ts]; [discriminate|]. intros H.
  apply valid_sum_cons in H. destruct H as [H _].
  apply begins_with_join, term_text_begins, H.
Qed.

Lemma sum_text_ends (ts : list (list literal)) :
  valid_sum ts = true -> ends_with literal_char (sum_text ts).
Proof.
  destruct ts as [|t ts]; [discriminate|]. intros H.
  unfold valid_sum in H. apply andb_true_iff in H. destruct H as [_ H].
  apply ends_with_join; [discriminate|].
  apply Forall_map_valid_term; [|exact H]. apply term_text_ends.
Qed.

End SumTexts.

Section SumNormalForm.

Lemma implies_and_literal (x c : ascii) :
  literal_char x = true -> Str.is_upper c = true -> implies_and x c = true.
Proof.
  unfold literal_char, implies_and, Str.isalpha. intros Hx Hc.
  rewrite Hc. apply orb_true_iff in Hx. destruct Hx as [-> | ->];
    cbn; rewrite ?orb_true_r; reflexivity.
Qed.

Lemma implies_and_quote (x : ascii) : implies_and x "'" = false.
Proof. unfold implies_and. cbn. rewrite !andb_false_r. reflexivity. Qed.

Lemma implies_and_plus_r (x : ascii) : implies_and x "+" = false.
Proof. unfold implies_and. cbn. rewrite !andb_false_r. reflexivity. Qed.

Lemma implies_and_plus_l (c : ascii) : implies_and "+" c = false.
Proof. reflexivity. Qed.

Lemma and_before_quiet (p : option ascii) (c : ascii) :
  quiet p -> and_before p c = [].
Proof. intros [-> | ->]; reflexivity. Qed.

Lemma and_before_loud (p : option ascii) (c : ascii) :
  loud p -> Str.is_upper c = true -> and_before p c = ["*"%char].
Proof.
  intros (x & -> & Hx) Hc. cbn. rewrite implies_and_literal by assumption.
  reflexivity.
Qed.

Lemma literal_inserted (p : option ascii) (l : literal) :
  and_inserted_after p (literal_text l)
  = and_before p (fst l) ++ literal_text l.
Proof.
  destruct l as [c []]; cbn; [reflexivity|].
  rewrite implies_and_quote. reflexivity.
Qed.

Lemma literal_last_loud (p : option ascii) (l : literal) :
  valid_literal l = true -> loud (last_or p (literal_text l)).
Proof.
  destruct l as [c []]; unfold valid_literal; cbn; intros H.
  - exists c. split; [reflexivity | apply upper_literal_char, H].
  - exists "'"%char. split; reflexivity.
Qed.

Lemma raw_term_inserted_loud (t : list literal) :
  forall p, loud p -> forallb valid_literal t = true ->
    and_inserted_after p (raw_term_text t)
    = List.concat (map (fun y => "*" ++ y) (map literal_text t)).
Proof.
  induction t as [|l t IH]; intros p Hp Ht; [reflexivity|].
  cbn [forallb] in Ht. apply andb_true_iff in Ht. destruct Ht as [Hl Ht].
  unfold raw_term_text in *. cbn [map List.concat].
  rewrite and_inserted_after_app, literal_inserted.
  rewrite and_before_loud by assumption.
  rewrite IH; [|apply literal_last_loud, Hl | exact Ht].
  rewrite <- app_assoc. reflexivity.
Qed.

Lemma last_or_some (p : option ascii) (s : pystr) :
  s <> [] -> exists x, last_or p s = Some x.
Proof.
  intros H. unfold last_or. destruct (rev s) as [|x l] eqn:E.
  - apply (f_equal (@rev ascii)) in E. rewrite rev_involutive in E.
    contradiction.
  - eauto.
Qed.

Lemma raw_term_inserted_quiet (t : list literal) (p : option ascii) :
  quiet p -> valid_term t = true ->
  and_inserted_after p (raw_term_text t) = term_text t.
Proof.
  intros Hp Ht. destruct t as [|l t]; [discriminate|].
  apply valid_term_cons in Ht. destruct Ht as [Hl Ht].
  unfold term_text. cbn [map]. rewrite join_concat.
  unfold raw_term_text. cbn [map List.concat].
  rewrite and_inserted_after_app, literal_inserted.
  rewrite and_before_quiet by exact Hp. cbn [app]. f_equal.
  apply raw_term_inserted_loud; [|exact Ht]. apply literal_last_loud, Hl.
Qed.

Lemma raw_term_text_nonempty (t : list literal) :
  valid_term t = true -> raw_term_text t <> [].
Proof.
  intros H. destruct (raw_term_text_begins t H) as (a & m & -> & _).
  discriminate.
Qed.

Lemma flat_sum_inserted (ts : list (list literal)) :
  forall p, quiet p -> valid_sum ts = true ->
    and_inserted_after p (flat_sum_text ts) = sum_text ts.
Proof.
  induction ts as [|t ts IH]; intros p Hp H; [discriminate|].
  destruct ts as [|t' ts].
  - apply valid_sum_cons in H. destruct H as [H _].
    apply raw_term_inserted_quiet; assumption.
  - pose proof (valid_sum_tail _ _ _ H) as H'.
    apply valid_sum_cons in H. destruct H as [Ht _].
    unfold flat_sum_text, sum_text in *. cbn [map] in *.
    rewrite !join_cons2.
    rewrite and_inserted_after_app, raw_term_inserted_quiet by assumption.
    f_equal.
    destruct (last_or_some p (raw_term_text t) (raw_term_text_nonempty t Ht))
      as [x ->].
    change (" + " : pystr) with (("+"%char :: [])).
    cbn [app list_ascii_of_string and_inserted_after and_before].
    rewrite implies_and_plus_r. cbn [app]. f_equal.
    apply IH; [right; reflexivity | exact H'].
Qed.

Lemma scrub_raw_sum (ts : list (list literal)) :
  forallb valid_term ts = true -> scrub (raw_sum_text ts) = flat_sum_text ts.
Proof.
  assert (F : forall t, valid_term t = true ->
                        scrub (raw_term_text t) = raw_term_text t).
  { intros t Ht. apply scrub_fixed.
    eapply forallb_weaken; [|apply raw_term_text_chars, valid_term_literals, Ht].
    intros c Hc. apply literal_char_plain, literal_char_sum, Hc. }
  induction ts as [|t ts IH]; intros H; [reflexivity|].
  cbn [forallb] in H. apply andb_true_iff in H. destruct H as [Ht H].
  destruct ts as [|t' ts]; [apply F, Ht|].
  unfold raw_sum_text, flat_sum_text in *. cbn [map] in *.
  rewrite !join_cons2, !scrub_app, F, IH by assumption. reflexivity.
Qed.

Lemma flat_sum_text_edges (sep : pystr) (ts : list (list literal)) :
  valid_sum ts = true ->
  begins_with edge (Str.join sep (map raw_term_text ts))
  /\ ends_with edge (Str.join sep (map raw_term_text ts)).
Proof.
  intros H. destruct ts as [|t ts]; [discriminate|].
  pose proof H as H'. apply valid_sum_cons in H'. destruct H' as [Ht _].
  unfold valid_sum in H. apply andb_true_iff in H. destruct H as [_ H].
  split.
  - eapply begins_with_weaken; [apply literal_char_edge|].
    apply begins_with_join, raw_term_text_begins, Ht.
  - eapply ends_with_weaken; [apply literal_char_edge|].
    apply ends_with_join; [discriminate|].
    apply Forall_map_valid_term; [|exact H]. apply raw_term_text_ends.
Qed.

Lemma strip_edges (q : ascii -> bool) (s : pystr) :
  (forall c, edge c = true -> negb (q c) = true) ->
  begins_with edge s -> ends_with edge s -> Str.strip_pred q s = s.
Proof.
  intros H B E. apply strip_pred_fixed.
  - eapply begins_with_weaken; [|exact B]. exact H.
  - eapply ends_with_weaken; [|exact E]. exact H.
Qed.

Lemma edge_not_space (c : ascii) : edge c = true -> negb (Str.isspace c) = true.
Proof.
  unfold edge. intros H.
  repeat (apply andb_true_iff in H; destruct H as [H ?]). exact H.
Qed.

Lemma edge_not_star (c : ascii) :
  edge c = true -> negb (Ascii.eqb c "*") = true.
Proof.
  unfold edge. intros H.
  repeat (apply andb_true_iff in H; destruct H as [H ?]). assumption.
Qed.

Lemma edge_not_plus (c : ascii) :
  edge c = true -> negb (Ascii.eqb c "+") = true.
Proof.
  unfold edge. intros H.
  repeat (apply andb_true_iff in H; destruct H as [H ?]). assumption.
Qed.

(** The builder's text of a sum is normalized to the sum with explicit
    AND markers and without blanks. *)
Lemma normalize_raw_sum (ts : list (list literal)) :
  valid_sum ts = true ->
  normalize_bool_fct_str (Str.strip (raw_sum_text ts)) = sum_text ts.
Proof.
  intros H.
  destruct (flat_sum_text_edges " + " ts H) as [B0 E0].
  destruct (flat_sum_text_edges "+" ts H) as [B1 E1].
  rewrite normalize_unfold. unfold Str.strip.
  fold (raw_sum_text ts) in B0, E0. fold (flat_sum_text ts) in B1, E1.
  rewrite (strip_edges _ _ edge_not_space B0 E0).
  unfold clean. fold (scrub (raw_sum_text ts)).
  rewrite scrub_raw_sum.
  2:{ unfold valid_sum in H. apply andb_true_iff in H. apply H. }
  unfold Str.strip_char.
  rewrite (strip_edges _ _ edge_not_star B1 E1).
  rewrite (strip_edges _ _ edge_not_plus B1 E1).
  rewrite and_inserted_after_none.
  apply flat_sum_inserted; [left; reflexivity | exact H].
Qed.

(** A normalized sum is its own normal form. *)
Lemma normalize_sum_text (ts : list (list literal)) :
  valid_sum ts = true ->
  normalize_bool_fct_str (Str.strip (sum_text ts)) = sum_text ts.
Proof.
  intros H. apply normalize_fixed.
  - eapply forallb_weaken; [apply literal_char_plain|].
    apply sum_text_chars. unfold valid_sum in H.
    apply andb_true_iff in H. apply H.
  - eapply begins_with_weaken; [apply literal_char_edge|].
    apply sum_text_begins, H.
  - eapply ends_with_weaken; [apply literal_char_edge|].
    apply sum_text_ends, H.
  - rewrite <- (flat_sum_inserted ts None (or_introl eq_refl) H).
    rewrite <- and_inserted_after_none. apply and_inserted_idem.
Qed.

End SumNormalForm.

(** ** The constructor on a sum of products *)

Section ParseSum.

Lemma count_none (q : ascii -> bool) (c : ascii) (s : pystr) :
  forallb q s = true -> q c = false -> Str.count c s = 0.
Proof.
  intros H Hc. unfold Str.count.
  replace (filter (fun x => Ascii.eqb x c) s) with (@nil ascii); [reflexivity|].
  symmetry. induction s as [|x s IH]; [reflexivity|].
  cbn [forallb] in H. apply andb_true_iff in H. destruct H as [Hx H].
  cbn [filter]. destruct (Ascii.eqb_spec x c) as [->|_]; [congruence|].
  apply IH, H.
Qed.

Lemma count_some (c : ascii) (s : pystr) :
  In c s -> (Str.count c s =? 0) = false.
Proof.
  intros H. unfold Str.count. apply Z.eqb_neq.
  assert (In c (filter (fun x => Ascii.eqb x c) s))
    by (apply filter_In; split; [exact H | apply Ascii.eqb_refl]).
  destruct (filter _ s); [contradiction | cbn [List.length]; lia].
Qed.

Lemma split1_app (q : ascii -> bool) (c : ascii) (a b : pystr) :
  forallb q a = true -> q c = false ->
  Str.split1 c (a ++ c :: b) = (a, b).
Proof.
  intros H Hc. induction a as [|x a IH]; cbn [app Str.split1].
  - rewrite Ascii.eqb_refl. reflexivity.
  - cbn [forallb] in H. apply andb_true_iff in H. destruct H as [Hx H].
    destruct (Ascii.eqb_spec x c) as [->|_]; [congruence|].
    rewrite (IH H). reflexivity.
Qed.

(** One call of the constructor on a text without parentheses. *)
Lemma Gate_init_flat (fuel : nat) (e X m : pystr) (a : ascii) :
  normalize_bool_fct_str (Str.strip e) = X ->
  X = a :: m ->
  is_operator_symbol a = false ->
  Str.count "(" X = 0 ->
  Gate_init (S fuel) e
  = if negb (Str.count "+" X =? 0) then
      inp_1 <- Gate_init fuel (fst (Str.split1 "+" X)) ;;
      inp_2 <- Gate_init fuel (snd (Str.split1 "+" X)) ;;
      OK (new_gate X OR (Some inp_1) (Some inp_2))
    else if negb (Str.count "*" X =? 0) then
      inp_1 <- Gate_init fuel (fst (Str.split1 "*" X)) ;;
      inp_2 <- Gate_init fuel (snd (Str.split1 "*" X)) ;;
      OK (new_gate X AND (Some inp_1) (Some inp_2))
    else if negb (Str.count "'" X + Str.count "!" X =? 0) then
      inp_1 <- Gate_init fuel [a] ;;
      OK (new_gate X
            (if negb ((Str.count "'" X + Str.count "!" X) mod 2 =? 0)
             then NOT else UNITY)
            (Some inp_1) None)
    else OK (new_gate X INPUT None None).
Proof.
  intros HX Ha Hop Hpar. cbn [Gate_init]. rewrite HX, Hpar.
  assert (I : Str.index X 0 = OK a) by (rewrite Ha; reflexivity).
  rewrite I. cbn [bind]. rewrite Hop. reflexivity.
Qed.

Lemma literal_char_cases (c : ascii) :
  literal_char c = true ->
  is_operator_symbol c = true -> c = "'"%char.
Proof.
  destruct c as [[] [] [] [] [] [] [] []]; vm_compute; congruence.
Qed.

Lemma upper_not_operator (c : ascii) :
  Str.is_upper c = true -> is_operator_symbol c = false.
Proof.
  destruct c as [[] [] [] [] [] [] [] []]; vm_compute; congruence.
Qed.

Lemma upper_not_quote (c : ascii) :
  Str.is_upper c = true -> Ascii.eqb c "'" = false.
Proof.
  destruct c as [[] [] [] [] [] [] [] []]; vm_compute; congruence.
Qed.

Lemma term_text_term_chars (t : list literal) :
  forallb valid_literal t = true -> forallb term_char (term_text t) = true.
Proof.
  intros H. apply forallb_join; [reflexivity|].
  apply Forall_map_valid; [|exact H].
  intros l Hl. eapply forallb_weaken; [|apply literal_text_chars, Hl].
  unfold term_char. intros c ->. reflexivity.
Qed.

Lemma sum_text_single (t : list literal) : sum_text [t] = term_text t.
Proof. reflexivity. Qed.

Lemma term_text_single (l : literal) : term_text [l] = literal_text l.
Proof. reflexivity. Qed.

Lemma sum_text_begins_upper (ts : list (list literal)) :
  valid_sum ts = true ->
  exists a m, sum_text ts = a :: m /\ Str.is_upper a = true.
Proof.
  intros H. destruct ts as [|[|[c b] t] ts].
  - discriminate H.
  - apply valid_sum_cons in H. destruct H as [H _]. discriminate H.
  - apply valid_sum_cons in H. destruct H as [H _].
    apply valid_term_cons in H. destruct H as [H _]. cbn [fst] in H.
    unfold sum_text, term_text. cbn [map]. rewrite !join_concat.
    exists c. destruct b; cbn; eauto.
Qed.

Lemma no_parenthesis (s : pystr) :
  forallb sum_char s = true -> Str.count "(" s = 0.
Proof. intros H. apply (count_none sum_char); [exact H | reflexivity]. Qed.

(** The constructor builds the tree of the sum from its normalized text,
    with any fuel above the length of the text. *)
Lemma Gate_init_sum (fuel : nat) :
  forall ts,
    valid_sum ts = true ->
    (List.length (sum_text ts) < fuel)%nat ->
    Gate_init fuel (sum_text ts) = OK (sum_gate ts).
Proof.
  induction fuel as [|fuel IH]; intros ts H L; [lia|].
  destruct (sum_text_begins_upper ts H) as (a & m & Ea & Ua).
  assert (Hv : forallb valid_term ts = true).
  { unfold valid_sum in H. apply andb_true_iff in H. apply H. }
  rewrite (Gate_init_flat fuel _ (sum_text ts) m a
             (normalize_sum_text ts H) Ea (upper_not_operator a Ua)
             (no_parenthesis _ (sum_text_chars ts Hv))).
  destruct ts as [|t [|t' ts]]; [discriminate| |].
  - (* one term *)
    apply valid_sum_cons in H. destruct H as [Ht _].
    pose proof (valid_term_literals t Ht) as Hl.
    rewrite sum_text_single in *.
    rewrite (count_none term_char "+" _ (term_text_term_chars t Hl) eq_refl).
    cbn [Z.eqb negb].
    destruct t as [|l [|l' t]]; [discriminate| |].
    + (* one literal *)
      rewrite term_text_single in *.
      pose proof (proj1 (valid_term_cons _ _ Ht)) as Hl1.
      rewrite (count_none literal_char "*" _ (literal_text_chars l Hl1) eq_refl).
      rewrite (count_none literal_char "!" _ (literal_text_chars l Hl1) eq_refl).
      cbn [Z.eqb negb]. rewrite Z.add_0_r.
      destruct l as [c []]; cbn [literal_text fst snd] in *.
      * injection Ea as <- <-.
        rewrite (count_none Str.is_upper "'" [c]);
          [reflexivity | cbn; rewrite Ua; reflexivity | reflexivity].
      * injection Ea as <- <-.
        replace (Str.count "'" [c; "'"%char]) with 1.
        2:{ unfold Str.count. cbn [filter].
            rewrite (upper_not_quote c Ua). reflexivity. }
        cbn [Z.eqb negb Z.modulo Z.div_eucl Z.pos_div_eucl Z.ltb Z.compare
             Z.leb Z.sub Z.add Z.opp Z.pos_sub snd fst].
        change [c] with (sum_text [[(c, true)]]).
        rewrite IH; [reflexivity | |cbn in *; lia].
        unfold valid_sum, valid_term, valid_literal. cbn. rewrite Ua.
        reflexivity.
    + (* several literals *)
      pose proof (valid_term_single _ _ Ht) as H1.
      pose proof (valid_term_tail _ _ _ Ht) as H2.
      assert (E : term_text (l :: l' :: t)
                  = literal_text l ++ "*"%char :: term_text (l' :: t))
        by reflexivity.
      rewrite E in *.
      rewrite count_some by (apply in_or_app; right; left; reflexivity).
      cbn [negb].
      rewrite (split1_app literal_char "*" _ _
                 (literal_text_chars l (proj1 (valid_term_cons _ _ Ht)))
                 eq_refl).
      cbn [fst snd].
      rewrite length_app in L. cbn [List.length] in L.
      assert (G1 : Gate_init fuel (literal_text l) = OK (literal_gate l)).
      { apply (IH [[l]]).
        - apply valid_sum_of_term, H1.
        - rewrite sum_text_single, term_text_single. lia. }
      assert (G2 : Gate_init fuel (term_text (l' :: t))
                   = OK (term_gate (l' :: t))).
      { apply (IH [l' :: t]).
        - apply valid_sum_of_term, H2.
        - rewrite sum_text_single. lia. }
      rewrite G1, G2. reflexivity.
  - (* several terms *)
    pose proof (valid_sum_single _ _ H) as H1.
    pose proof (valid_sum_tail _ _ _ H) as H2.
    assert (E : sum_text (t :: t' :: ts)
                = term_text t ++ "+"%char :: sum_text (t' :: ts))
      by reflexivity.
    rewrite E in *.
    rewrite count_some by (apply in_or_app; right; left; reflexivity).
    cbn [negb].
    apply valid_sum_cons in H. destruct H as [Ht _].
    rewrite (split1_app term_char "+" _ _
               (term_text_term_chars t (valid_term_literals t Ht)) eq_refl).
    cbn [fst snd].
    rewrite length_app in L. cbn [List.length] in L.
    assert (G1 : Gate_init fuel (term_text t) = OK (term_gate t)).
    { apply (IH [t]); [exact H1 | rewrite sum_text_single; lia]. }
    assert (G2 : Gate_init fuel (sum_text (t' :: ts))
                 = OK (sum_gate (t' :: ts))).
    { apply IH; [exact H2 | lia]. }
    rewrite G1, G2. reflexivity.
Qed.

End ParseSum.

(** ** The evaluator on a sum of products *)

Section EvalSum.

Variable inputs : dict.

Lemma bitlike_normalize (v : pyval) :
  bitlike v -> normalize_bool v = Z.b2z (truthy v).
Proof.
  intros [-> | [-> | [b ->]]]; [reflexivity | reflexivity |].
  destruct b; reflexivity.
Qed.

Lemma update_literal_gate (l : literal) (v : pyval) :
  dict_get inputs [fst l] = OK v -> bitlike v ->
  exists g',
    update (literal_gate l) inputs = OK g'
    /\ bitlike (output g')
    /\ truthy (output g') = literal_true inputs l.
Proof.
  intros Hv Bv. unfold literal_true. rewrite Hv.
  destruct l as [c []]; cbn [fst snd] in *;
    unfold literal_gate, input_gate, new_gate; cbn [snd fst];
    rewrite !update_unfold; cbn [bind]; rewrite Hv; cbn [bind output_of output].
  - eexists. split; [reflexivity|]. cbn [output]. split; [exact Bv|].
    destruct (truthy v); reflexivity.
  - eexists. split; [reflexivity|]. cbn [output truthy]. split.
    + right. right. eauto.
    + destruct (truthy v); reflexivity.
Qed.

Lemma update_term_gate (t : list literal) :
  t <> [] -> binds inputs t ->
  exists g',
    update (term_gate t) inputs = OK g'
    /\ bitlike (output g')
    /\ truthy (output g') = term_true inputs t.
Proof.
  induction t as [|l t IH]; intros Hne B; [contradiction|].
  inversion B as [|? ? (v & Hv & Bv) Bt]; subst.
  destruct (update_literal_gate l v Hv Bv) as (a & Ua & Ba & Ta).
  destruct t as [|l' t].
  - exists a. cbn [term_gate term_true forallb]. rewrite andb_true_r. auto.
  - destruct (IH ltac:(discriminate) Bt) as (b & Ub & Bb & Tb).
    change (term_gate (l :: l' :: t))
      with (new_gate (term_text (l :: l' :: t)) AND
              (Some (literal_gate l)) (Some (term_gate (l' :: t)))).
    unfold new_gate. rewrite update_unfold, Ua, Ub.
    cbn [bind output_of].
    change (term_true inputs (l :: l' :: t))
      with (literal_true inputs l && term_true inputs (l' :: t))%bool.
    rewrite <- Ta, <- Tb.
    destruct (truthy (output a)) eqn:E; cbn [bind andb];
      eexists; (split; [reflexivity|]); cbn [output]; auto.
Qed.

Lemma update_sum_gate (ts : list (list literal)) :
  ts <> [] -> Forall (fun t => t <> [] /\ binds inputs t) ts ->
  exists g',
    update (sum_gate ts) inputs = OK g'
    /\ bitlike (output g')
    /\ truthy (output g') = sum_true inputs ts.
Proof.
  induction ts as [|t ts IH]; intros Hne B; [contradiction|].
  inversion B as [|? ? [Ht Bt] Bts]; subst.
  destruct (update_term_gate t Ht Bt) as (a & Ua & Ba & Ta).
  destruct ts as [|t' ts].
  - exists a. cbn [sum_gate sum_true existsb]. rewrite orb_false_r. auto.
  - destruct (IH ltac:(discriminate) Bts) as (b & Ub & Bb & Tb).
    change (sum_gate (t :: t' :: ts))
      with (new_gate (sum_text (t :: t' :: ts)) OR
              (Some (term_gate t)) (Some (sum_gate (t' :: ts)))).
    unfold new_gate. rewrite update_unfold, Ua, Ub.
    cbn [bind output_of].
    change (sum_true inputs (t :: t' :: ts))
      with (term_true inputs t || sum_true inputs (t' :: ts))%bool.
    rewrite <- Ta, <- Tb.
    destruct (truthy (output a)) eqn:E; cbn [bind orb];
      eexists; (split; [reflexivity|]); cbn [output]; auto.
Qed.

(** Bits in, bits out. *)
Lemma update_bitlike (g : Gate) :
  (forall k v, dict_get inputs k = OK v -> bitlike v) ->
  forall g', update g inputs = OK g' -> bitlike (output g').
Proof.
  intros Hd.
  induction g as [tbl expr out op i1 i2 IH1 IH2] using Gate_induction.
  intros g' H. rewrite update_unfold in H.
  assert (B1 : forall r,
             match i1 with
             | Some g => g' <- update g inputs ;; OK (Some g')
             | None => OK None
             end = OK r ->
             forall v, output_of r = OK v -> bitlike v).
  { intros r Hr v Hvr. destruct i1 as [a|].
    - destruct (update a inputs) as [a'|] eqn:Ha; [|discriminate Hr].
      injection Hr as <-. injection Hvr as <-. eapply IH1; eauto.
    - injection Hr as <-. discriminate Hvr. }
  assert (B2 : forall r,
             match i2 with
             | Some g => g' <- update g inputs ;; OK (Some g')
             | None => OK None
             end = OK r ->
             forall v, output_of r = OK v -> bitlike v).
  { intros r Hr v Hvr. destruct i2 as [a|].
    - destruct (update a inputs) as [a'|] eqn:Ha; [|discriminate Hr].
      injection Hr as <-. injection Hvr as <-. eapply IH2; eauto.
    - injection Hr as <-. discriminate Hvr. }
  destruct (match i1 with Some _ => _ | None => _ end) as [r1|];
    [|discriminate H].
  destruct (match i2 with Some _ => _ | None => _ end) as [r2|];
    [|discriminate H].
  specialize (B1 r1 eq_refl). specialize (B2 r2 eq_refl).
  cbn [bind] in H.
  destruct op; cbn [bind] in H.
  - destruct (output_of r1) as [a|] eqn:O1; [|discriminate H]. cbn [bind] in H.
    destruct (truthy a).
    + destruct (output_of r2) as [b|] eqn:O2; [|discriminate H].
      injection H as <-. cbn [output]. auto.
    + injection H as <-. cbn [output]. auto.
  - destruct (output_of r1) as [a|] eqn:O1; [|discriminate H]. cbn [bind] in H.
    destruct (truthy a).
    + injection H as <-. cbn [output]. auto.
    + destruct (output_of r2) as [b|] eqn:O2; [|discriminate H].
      injection H as <-. cbn [output]. auto.
  - destruct (output_of r1) as [a|] eqn:O1; [|discriminate H]. cbn [bind] in H.
    injection H as <-. cbn [output]. right. right. eauto.
  - destruct (output_of r1) as [a|] eqn:O1; [|discriminate H]. cbn [bind] in H.
    injection H as <-. cbn [output]. auto.
  - destruct (dict_get inputs expr) as [v|] eqn:G; [|discriminate H].
    injection H as <-. cbn [output]. eauto.
Qed.

End EvalSum.

(** Under the empty assignment no tree evaluates: a tree with no input
    variable has an operator without its input. *)
Lemma update_empty (g : Gate) : exists e, update g [] = Err e.
Proof.
  induction g as [tbl expr out op i1 i2 IH1 IH2] using Gate_induction.
  rewrite update_unfold.
  destruct i1 as [a|].
  - destruct (IH1 a eq_refl) as [e ->]. cbn [bind]. eauto.
  - cbn [bind]. destruct i2 as [b|].
    + destruct (IH2 b eq_refl) as [e ->]. cbn [bind]. eauto.
    + cbn [bind]. destruct op; cbn; eauto.
Qed.

(** ** Assignments and rows *)

Section Assignments.

Lemma find_unique {A : Type} (f : A -> bool) (x : A) (l : list A) :
  In x l -> f x = true ->
  (forall y, In y l -> f y = true -> y = x) ->
  find f l = Some x.
Proof.
  induction l as [|a l IH]; intros Hin Hx Hu; [contradiction|].
  cbn [find]. destruct (f a) eqn:Fa.
  - f_equal. apply Hu; [left; reflexivity | exact Fa].
  - destruct Hin as [->|Hin]; [congruence|].
    apply IH; auto. intros y Hy. apply Hu. right. exact Hy.
Qed.

Lemma str_eqb_eq (s t : pystr) : Str.eqb s t = true -> s = t.
Proof. unfold Str.eqb. destruct (list_eq_dec ascii_dec s t); congruence. Qed.

Lemma str_eqb_refl (s : pystr) : Str.eqb s s = true.
Proof. unfold Str.eqb. destruct (list_eq_dec ascii_dec s s); congruence. Qed.

Lemma combine_unique {A B : Type} (l : list A) :
  NoDup l ->
  forall (m : list B) a x y,
    In (a, x) (combine l m) -> In (a, y) (combine l m) -> x = y.
Proof.
  induction 1 as [|c l Hc Hl IH]; intros m a x y Hx Hy; [contradiction|].
  destruct m as [|b m]; [contradiction|].
  cbn [combine] in *. destruct Hx as [Ex|Hx], Hy as [Ey|Hy].
  - congruence.
  - injection Ex as -> ->. apply in_combine_l in Hy. contradiction.
  - injection Ey as -> ->. apply in_combine_l in Hx. contradiction.
  - eapply IH; eassumption.
Qed.

Lemma combine_symbols (chars : list ascii) (inp : list Z) :
  combine (symbols_of chars) (map PInt inp)
  = map (fun cb => ([fst cb], PInt (snd cb))) (combine chars inp).
Proof.
  revert inp. induction chars as [|c chars IH]; intros [|b inp];
    try reflexivity.
  cbn [symbols_of map combine fst snd]. f_equal. apply IH.
Qed.

(** The assignment of a row gives every variable its bit of the row. *)
Lemma dict_zip_get (chars : list ascii) (inp : list Z) (c : ascii) (b : Z) :
  NoDup chars ->
  In (c, b) (combine chars inp) ->
  dict_get (dict_zip (symbols_of chars) (map PInt inp)) [c] = OK (PInt b).
Proof.
  intros Hn Hin. unfold dict_get, dict_zip. rewrite combine_symbols.
  rewrite (find_unique _ ([c], PInt b)); [reflexivity| | |].
  - rewrite <- in_rev. apply in_map_iff.
    exists (c, b). split; [reflexivity | exact Hin].
  - apply str_eqb_refl.
  - intros [k v] Hy E. rewrite <- in_rev in Hy.
    apply in_map_iff in Hy. destruct Hy as ([c' b'] & Ey & Hy).
    cbn [fst snd] in *. injection Ey as <- <-.
    apply str_eqb_eq in E. injection E as ->.
    rewrite (combine_unique chars Hn inp c b b' Hin Hy). reflexivity.
Qed.

Lemma spec_term_literals (chars : list ascii) (inp : list Z) :
  spec_term (symbols_of chars) inp = raw_term_text (literals chars inp).
Proof.
  unfold spec_term, raw_term_text, literals.
  revert inp. induction chars as [|c chars IH]; intros [|b inp];
    try reflexivity.
  cbn [symbols_of map combine List.concat fst snd]. rewrite <- IH.
  unfold spec_literal, literal_text. cbn [fst snd].
  destruct (b =? 1); reflexivity.
Qed.

Lemma literals_length (chars : list ascii) (inp : list Z) :
  List.length inp = List.length chars ->
  List.length (literals chars inp) = List.length chars.
Proof.
  intros H. unfold literals. rewrite length_map, length_combine. lia.
Qed.

Lemma bits_agree (x y : Z) :
  is_bitb x = true -> is_bitb y = true ->
  Bool.eqb (negb (y =? 0)) (x =? 1) = (x =? y).
Proof.
  intros Hx Hy.
  destruct (is_bitb_cases _ Hx) as [-> | ->],
           (is_bitb_cases _ Hy) as [-> | ->]; reflexivity.
Qed.

(** The term of the row [r] is true under the assignment of the row
    [inp], and under no other. *)
Lemma term_true_iff (inputs : dict) (chars : list ascii) :
  forall r inp,
    List.length r = List.length chars ->
    List.length inp = List.length chars ->
    forallb is_bitb r = true -> forallb is_bitb inp = true ->
    (forall c b, In (c, b) (combine chars inp) ->
                 dict_get inputs [c] = OK (PInt b)) ->
    (term_true inputs (literals chars r) = true <-> r = inp).
Proof.
  induction chars as [|c chars IH]; intros [|x r] [|y inp] Lr Li Br Bi Hd;
    try discriminate; [split; reflexivity|].
  cbn [List.length forallb] in *.
  apply andb_true_iff in Br. destruct Br as [Bx Br].
  apply andb_true_iff in Bi. destruct Bi as [By Bi].
  unfold term_true, literals in *. cbn [combine map forallb fst snd].
  unfold literal_true at 1. cbn [fst snd].
  rewrite (Hd c y (or_introl eq_refl)). cbn [truthy].
  rewrite bits_agree by assumption.
  rewrite andb_true_iff, (IH r inp); try lia; auto.
  - rewrite Z.eqb_eq. split; [intros [-> ->]; reflexivity|].
    intros E. injection E. auto.
  - intros c' b' H. apply Hd. right. exact H.
Qed.

Lemma product_In (n : nat) (inp : list Z) :
  In inp (product [0; 1] n) ->
  List.length inp = n /\ forallb is_bitb inp = true.
Proof.
  revert inp. induction n as [|n IH]; intros inp H.
  - destruct H as [<-|[]]. split; reflexivity.
  - cbn [product] in H. apply in_flat_map in H. destruct H as (x & Hx & H).
    destruct (IH x Hx) as [L B].
    cbn [map In] in H. destruct H as [<- | [<- | []]];
      rewrite length_app, forallb_app, L, B; cbn; split; (lia || reflexivity).
Qed.

Lemma product_NoDup (n : nat) : NoDup (product [0; 1] n).
Proof.
  apply NoDup_nth_error. intros i j Hi E.
  rewrite product_length in Hi.
  destruct (product_nth n i Hi) as (x & Hx & _ & _ & Vx).
  rewrite Hx in E. symmetry in E.
  assert (Hj : (j < 2 ^ n)%nat).
  { rewrite <- product_length. apply nth_error_Some. congruence. }
  destruct (product_nth n j Hj) as (y & Hy & _ & _ & Vy).
  rewrite Hy in E. injection E as <-. lia.
Qed.

End Assignments.

(** ** The variable set of a sum of products *)

Section SumVariables.

Lemma descending_NoDup (l : list ascii) : descending l -> NoDup l.
Proof.
  induction 1 as [|a l Hl IH Ha]; constructor; [|exact IH].
  intros Hin. rewrite Forall_forall in Ha. specialize (Ha a Hin). lia.
Qed.

Lemma descending_unique (l1 : list ascii) :
  forall l2,
    descending l1 -> descending l2 ->
    (forall x, In x l1 <-> In x l2) -> l1 = l2.
Proof.
  induction l1 as [|a l1 IH]; intros [|b l2] H1 H2 H.
  - reflexivity.
  - exfalso. apply (H b). left. reflexivity.
  - exfalso. apply (H a). left. reflexivity.
  - inversion H1 as [|? ? D1 F1]; subst. inversion H2 as [|? ? D2 F2]; subst.
    rewrite Forall_forall in F1, F2.
    assert (E : a = b).
    { destruct (proj1 (H a) (or_introl eq_refl)) as [E|Ha]; [auto|].
      destruct (proj2 (H b) (or_introl eq_refl)) as [E|Hb]; [auto|].
      specialize (F1 b Hb). specialize (F2 a Ha). lia. }
    subst b. f_equal. apply IH; auto.
    intros x. split; intros Hx.
    + destruct (proj1 (H x) (or_intror Hx)) as [E|Hx2]; [|exact Hx2].
      subst x. specialize (F1 a Hx). lia.
    + destruct (proj2 (H x) (or_intror Hx)) as [E|Hx1]; [|exact Hx1].
      subst x. specialize (F2 a Hx). lia.
Qed.

(** The variable set is determined by the alphabetic characters of the
    text. *)
Lemma extract_input_symbols_unique (s : pystr) (chars : list ascii) :
  descending chars ->
  (forall c, In c chars <-> In c s /\ Str.isalpha c = true) ->
  extract_input_symbols s = symbols_of chars.
Proof.
  intros D M.
  destruct (extract_input_symbols_spec s) as (chars' & -> & D' & M').
  unfold symbols_of. f_equal. apply descending_unique; auto.
  intros x. rewrite M, M'. tauto.
Qed.

Lemma In_join (sep : pystr) (l : list pystr) (x : ascii) :
  In x (Str.join sep l) -> In x sep \/ exists y, In y l /\ In x y.
Proof.
  induction l as [|a l IH]; [contradiction|].
  destruct l as [|b l].
  - intros H. right. exists a. split; [left; reflexivity | exact H].
  - rewrite join_cons2. intros H.
    apply in_app_or in H. destruct H as [H|H].
    + right. exists a. split; [left; reflexivity | exact H].
    + apply in_app_or in H. destruct H as [H|H]; [left; exact H|].
      destruct (IH H) as [Hs | (y & Hy & Hx)]; [left; exact Hs|].
      right. exists y. split; [right; exact Hy | exact Hx].
Qed.

Lemma join_In (sep : pystr) (l : list pystr) (y : pystr) (x : ascii) :
  In y l -> In x y -> In x (Str.join sep l).
Proof.
  intros Hy Hx. induction l as [|a l IH]; [contradiction|].
  destruct l as [|b l].
  - destruct Hy as [->|[]]. exact Hx.
  - rewrite join_cons2. apply in_or_app.
    destruct Hy as [->|Hy]; [left; exact Hx|].
    right. apply in_or_app. right. apply IH, Hy.
Qed.

Lemma literal_text_In (l : literal) (c : ascii) :
  In c (literal_text l) -> c = fst l \/ c = "'"%char.
Proof.
  destruct l as [x []]; cbn; intuition.
Qed.

Lemma literal_text_fst (l : literal) : In (fst l) (literal_text l).
Proof. destruct l as [x []]; left; reflexivity. Qed.

Lemma upper_isalpha (c : ascii) : Str.is_upper c = true -> Str.isalpha c = true.
Proof. unfold Str.isalpha. intros ->. reflexivity. Qed.

(** The alphabetic characters of a sum whose terms all range over
    [chars] are the characters [chars]. *)
Lemma sum_text_variables (chars : list ascii) (ts : list (list literal)) :
  ts <> [] ->
  Forall (fun t => map fst t = chars) ts ->
  forallb Str.is_upper chars = true ->
  forall c, In c chars <-> In c (sum_text ts) /\ Str.isalpha c = true.
Proof.
  intros Hne Ht Hu c. rewrite forallb_forall in Hu. split.
  - intros Hc. split; [|apply upper_isalpha, Hu, Hc].
    destruct ts as [|t ts]; [contradiction|].
    inversion Ht as [|? ? Et _]; subst.
    apply in_map_iff in Hc. destruct Hc as (l & <- & Hl).
    apply (join_In _ _ (term_text t)); [left; reflexivity|].
    apply (join_In _ _ (literal_text l)).
    + apply in_map, Hl.
    + apply literal_text_fst.
  - intros [Hin Ha].
    apply In_join in Hin. destruct Hin as [Hs | (y & Hy & Hin)].
    { destruct Hs as [<-|[]]. discriminate Ha. }
    apply in_map_iff in Hy. destruct Hy as (t & <- & Hts).
    rewrite Forall_forall in Ht. rewrite <- (Ht t Hts).
    apply In_join in Hin. destruct Hin as [Hs | (y & Hy & Hin)].
    { destruct Hs as [<-|[]]. discriminate Ha. }
    apply in_map_iff in Hy. destruct Hy as (l & <- & Hl).
    apply literal_text_In in Hin. destruct Hin as [-> | ->].
    + apply in_map, Hl.
    + discriminate Ha.
Qed.

Lemma literals_fst (chars : list ascii) (inp : list Z) :
  List.length inp = List.length chars ->
  map fst (literals chars inp) = chars.
Proof.
  unfold literals. revert inp.
  induction chars as [|c chars IH]; intros [|b inp] H; try discriminate;
    [reflexivity|].
  cbn [combine map fst]. f_equal. apply IH. simpl in H. lia.
Qed.

End SumVariables.

(** ** The text the constructor stores *)

Section StoredText.

Lemma lstrip_Forall (P : ascii -> Prop) (p : ascii -> bool) (s : pystr) :
  Forall P s -> Forall P (Str.lstrip p s).
Proof.
  induction 1 as [|c s Hc Hs IH]; cbn [Str.lstrip]; [constructor|].
  destruct (p c); [exact IH | constructor; assumption].
Qed.

Lemma strip_pred_Forall (P : ascii -> Prop) (p : ascii -> bool) (s : pystr) :
  Forall P s -> Forall P (Str.strip_pred p s).
Proof.
  intros H. unfold Str.strip_pred, Str.rstrip.
  apply Forall_rev, lstrip_Forall, Forall_rev, lstrip_Forall, H.
Qed.

Lemma and_inserted_Forall (P : ascii -> Prop) (s : pystr) :
  P "*"%char -> Forall P s -> Forall P (and_inserted s).
Proof.
  intros Hstar. induction 1 as [|c s Hc Hs IH]; [constructor|].
  destruct s as [|d s]; [repeat constructor; exact Hc|].
  change (and_inserted (c :: d :: s))
    with (if implies_and c d then c :: "*"%char :: and_inserted (d :: s)
          else c :: and_inserted (d :: s)).
  destruct (implies_and c d); repeat constructor; assumption.
Qed.

Lemma upper_char_not_lower (c : ascii) :
  Str.is_lower (Str.upper_char c) = false.
Proof.
  destruct c as [[] [] [] [] [] [] [] []]; vm_compute; reflexivity.
Qed.

(** The normalizer returns no lowercase letter. *)
Lemma normalize_not_lower (s : pystr) :
  Forall (fun c => Str.is_lower c = false) (normalize_bool_fct_str s).
Proof.
  rewrite normalize_unfold.
  apply and_inserted_Forall; [reflexivity|].
  unfold clean, Str.strip_char.
  apply strip_pred_Forall, strip_pred_Forall.
  unfold Str.replace_char, Str.remove_char, Str.upper.
  apply Forall_forall. intros x Hx.
  apply in_map_iff in Hx. destruct Hx as (y & <- & Hy).
  apply filter_In in Hy. destruct Hy as [Hy _].
  apply filter_In in Hy. destruct Hy as [Hy _].
  apply in_map_iff in Hy. destruct Hy as (z & <- & _).
  destruct (Ascii.eqb (Str.upper_char z) "!"); [reflexivity|].
  apply upper_char_not_lower.
Qed.

Lemma Gate_init_expression (fuel : nat) (e : pystr) (g : Gate) :
  Gate_init fuel e = OK g ->
  expression g = normalize_bool_fct_str (Str.strip e).
Proof.
  destruct fuel as [|fuel]; [discriminate|].
  cbn [Gate_init]. generalize (normalize_bool_fct_str (Str.strip e)) as X.
  intros X H.
  repeat match type of H with
         | OK _ = OK _ => injection H as <-; reflexivity
         | Err _ = OK _ => discriminate H
         | bind ?r _ = OK _ =>
             let E := fresh "E" in
             destruct r eqn:E; cbn [bind] in H; [|discriminate H]
         | (let '(_, _) := ?p in _) = OK _ => destruct p
         | (if ?b then _ else _) = OK _ => destruct b
         | (match ?x with [] => _ | _ :: _ => _ end) = _ => destruct x
         end.
Qed.

End StoredText.

(** ** From the rows back to the table *)

Section RoundTripLemmas.

Lemma Gate_init_truth_table (fuel : nat) (e : pystr) (g : Gate) :
  Gate_init fuel e = OK g -> truth_table g = [].
Proof.
  destruct fuel as [|fuel]; [discriminate|].
  cbn [Gate_init]. generalize (normalize_bool_fct_str (Str.strip e)) as X.
  intros X H.
  repeat match type of H with
         | OK _ = OK _ => injection H as <-; reflexivity
         | Err _ = OK _ => discriminate H
         | bind ?r _ = OK _ =>
             let E := fresh "E" in
             destruct r eqn:E; cbn [bind] in H; [|discriminate H]
         | (let '(_, _) := ?p in _) = OK _ => destruct p
         | (if ?b then _ else _) = OK _ => destruct b
         | (match ?x with [] => _ | _ :: _ => _ end) = _ => destruct x
         end.
Qed.

Lemma Gate_init_normal (fuel : nat) (e1 e2 : pystr) :
  normalize_bool_fct_str (Str.strip e1) = normalize_bool_fct_str (Str.strip e2) ->
  Gate_init fuel e1 = Gate_init fuel e2.
Proof.
  intros H. destruct fuel as [|fuel]; [reflexivity|].
  cbn [Gate_init]. rewrite H. reflexivity.
Qed.

(** The constructor on the text the builder writes for a sum. *)
Lemma Gate_new_sum (ts : list (list literal)) :
  valid_sum ts = true ->
  Gate_new (raw_sum_text ts) = OK (sum_gate ts)
  /\ expression (sum_gate ts) = sum_text ts.
Proof.
  intros H.
  assert (G : Gate_init (S (List.length (sum_text ts))) (sum_text ts)
              = OK (sum_gate ts)) by (apply Gate_init_sum; [exact H | lia]).
  split.
  - unfold Gate_new. rewrite normalize_raw_sum by exact H.
    rewrite <- G. apply Gate_init_normal.
    rewrite normalize_raw_sum, normalize_sum_text by exact H. reflexivity.
  - apply Gate_init_expression in G.
    rewrite G. apply normalize_sum_text, H.
Qed.

Lemma table_loop_complete (input_symbols : list pystr) (circuit : Gate)
  (inps : list (list Z)) (rows : Table) :
  Forall2 (row_of circuit input_symbols) inps rows ->
  forall c0 table,
    erase c0 = erase circuit ->
    exists c',
      table_loop input_symbols inps c0 table = OK (c', table ++ rows).
Proof.
  induction 1 as [|inp row inps rows (g' & Hg & ->) _ IH]; intros c0 t E.
  - exists c0. rewrite app_nil_r. reflexivity.
  - cbn [table_loop]. rewrite (update_erase _ c0 circuit E), Hg.
    cbn [bind].
    destruct (IH g' (t ++ [(inp, normalize_bool (output g'))])) as [c' Hc'].
    { apply (update_shape _ _ _ Hg). }
    exists c'. rewrite Hc', <- app_assoc. reflexivity.
Qed.

Lemma generate_truth_table_complete (circuit : Gate) (rows : Table) :
  Forall2 (row_of circuit (extract_input_symbols (expression circuit)))
    (product [0; 1] (List.length (extract_input_symbols (expression circuit))))
    rows ->
  exists circuit',
    generate_truth_table circuit = OK circuit'
    /\ truth_table circuit' = rows.
Proof.
  intros H. unfold generate_truth_table.
  destruct (table_loop_complete _ _ _ _ H circuit [] eq_refl) as [c' ->].
  cbn [bind app]. eexists. split; reflexivity.
Qed.

(** A circuit that evaluates has a variable. *)
Lemma generate_truth_table_variables (circuit circuit' : Gate) :
  generate_truth_table circuit = OK circuit' ->
  extract_input_symbols (expression circuit) <> [].
Proof.
  unfold generate_truth_table. intros H E. rewrite E in H.
  cbn [List.length product table_loop map dict_zip combine rev] in H.
  destruct (update_empty circuit) as [e He]. rewrite He in H.
  discriminate H.
Qed.

Lemma dict_zip_values (keys : list pystr) (values : list pyval)
  (k : pystr) (v : pyval) :
  dict_get (dict_zip keys values) k = OK v -> In v values.
Proof.
  unfold dict_get, dict_zip.
  destruct (find _ _) as [[k' v']|] eqn:F; [|discriminate].
  intros H. injection H as <-. apply find_some in F. destruct F as [F _].
  rewrite <- in_rev in F. apply in_combine_r in F. exact F.
Qed.

Lemma bits_bitlike (inp : list Z) (v : pyval) :
  forallb is_bitb inp = true -> In v (map PInt inp) -> bitlike v.
Proof.
  intros B H. apply in_map_iff in H. destruct H as (z & <- & Hz).
  rewrite forallb_forall in B.
  destruct (is_bitb_cases z (B z Hz)) as [-> | ->];
    [left | right; left]; reflexivity.
Qed.

Lemma map_fst_unique {A B : Type} (l : list (A * B)) (a : A) (x y : B) :
  NoDup (map fst l) -> In (a, x) l -> In (a, y) l -> x = y.
Proof.
  induction l as [|[a' b'] l IH]; intros Hn Hx Hy; [contradiction|].
  cbn [map fst] in Hn. inversion Hn as [|? ? Hnot Hn']; subst.
  destruct Hx as [Ex|Hx], Hy as [Ey|Hy].
  - congruence.
  - injection Ex as -> ->. exfalso. apply Hnot.
    apply (in_map fst) in Hy. exact Hy.
  - injection Ey as -> ->. exfalso. apply Hnot.
    apply (in_map fst) in Hx. exact Hx.
  - apply IH; assumption.
Qed.

Lemma Forall2_impl_In {A B : Type} (P Q : A -> B -> Prop)
  (l1 : list A) (l2 : list B) :
  Forall2 P l1 l2 ->
  (forall a b, In a l1 -> In b l2 -> P a b -> Q a b) ->
  Forall2 Q l1 l2.
Proof.
  induction 1 as [|a b l1 l2 Hab _ IH]; intros H; constructor.
  - apply H; [left; reflexivity | left; reflexivity | exact Hab].
  - apply IH. intros x y Hx Hy. apply H; right; assumption.
Qed.

Lemma in_combine_of_length {A B : Type} (l : list A) :
  forall (m : list B) a,
    List.length m = List.length l -> In a l -> exists b, In (a, b) (combine l m).
Proof.
  induction l as [|x l IH]; intros [|y m] a L H; try contradiction;
    try discriminate.
  destruct H as [->|H].
  - exists y. left. reflexivity.
  - destruct (IH m a ltac:(simpl in L; lia) H) as [b Hb].
    exists b. right. exact Hb.
Qed.

End RoundTripLemmas.

(** ** The round trip through the minterm string *)

Lemma row_of_In (circuit : Gate) (input_symbols : list pystr)
  (inps : list (list Z)) (rows : Table) (row : list Z * Z) :
  Forall2 (row_of circuit input_symbols) inps rows ->
  In row rows ->
  row_of circuit input_symbols (fst row) row.
Proof.
  induction 1 as [|inp r inps rows Hr _ IH]; intros H; [contradiction|].
  destruct H as [<-|H]; [|apply IH, H].
  destruct Hr as (g' & Hg & ->). exists g'. split; [exact Hg | reflexivity].
Qed.

Section RoundTrip.

Variable g : Gate.
Variable chars : list ascii.
Variable table : Table.

Hypothesis Hdesc : descending chars.
Hypothesis Hupper : forallb Str.is_upper chars = true.
Hypothesis Hne : chars <> [].
Hypothesis Hrows :
  Forall2 (row_of g (symbols_of chars))
    (product [0; 1] (List.length chars)) table.
Hypothesis Htrue : has_true_row table = true.

Lemma table_inputs : map fst table = product [0; 1] (List.length chars).
Proof. apply (row_of_inputs _ _ _ _ Hrows). Qed.

Lemma table_row (row : list Z * Z) :
  In row table ->
  In (fst row) (product [0; 1] (List.length chars))
  /\ row_of g (symbols_of chars) (fst row) row.
Proof.
  intros H. split.
  - rewrite <- table_inputs. apply in_map, H.
  - apply (row_of_In _ _ _ _ _ Hrows H).
Qed.

Lemma assignment_bitlike (inp : list Z) (k : pystr) (v : pyval) :
  forallb is_bitb inp = true ->
  dict_get (dict_zip (symbols_of chars) (map PInt inp)) k = OK v ->
  bitlike v.
Proof.
  intros B H. apply dict_zip_values in H. apply (bits_bitlike inp v B H).
Qed.

Lemma table_bits : bit_table (List.length (symbols_of chars)) table = true.
Proof.
  unfold bit_table. apply forallb_forall. intros row Hrow.
  destruct (table_row row Hrow) as [Hin (g' & Hg & Er)].
  destruct (product_In _ _ Hin) as [L B].
  unfold bit_row, symbols_of. rewrite length_map, L, Nat.leb_refl, B.
  cbn [andb]. rewrite Er. cbn [snd].
  assert (Bo : bitlike (output g')).
  { eapply update_bitlike; [|exact Hg].
    intros k v. apply assignment_bitlike, B. }
  rewrite (bitlike_normalize _ Bo). destruct (truthy (output g')); reflexivity.
Qed.

Lemma minterm_sum_text :
  spec_minterms (symbols_of chars) table = raw_sum_text (minterm_sum chars table).
Proof.
  unfold spec_minterms, raw_sum_text, minterm_sum.
  rewrite <- map_rev, <- map_rev, map_map. f_equal.
  apply map_ext. intros row. apply spec_term_literals.
Qed.

Lemma minterm_sum_In (t : list literal) :
  In t (minterm_sum chars table) <->
  exists inp, t = literals chars inp /\ In (inp, 1) table.
Proof.
  unfold minterm_sum. rewrite <- in_rev, in_map_iff. split.
  - intros ([inp o] & <- & H). apply filter_In in H. destruct H as [H E].
    cbn [snd fst] in *. apply Z.eqb_eq in E. subst o. eauto.
  - intros (inp & -> & H). exists (inp, 1). split; [reflexivity|].
    apply filter_In. split; [exact H | reflexivity].
Qed.

Lemma true_row_length (inp : list Z) (o : Z) :
  In (inp, o) table ->
  List.length inp = List.length chars /\ forallb is_bitb inp = true.
Proof.
  intros H. destruct (table_row _ H) as [Hin _]. apply (product_In _ _ Hin).
Qed.

Lemma chars_nonempty : (0 < List.length chars)%nat.
Proof. destruct chars; [contradiction | simpl; lia]. Qed.

Lemma minterm_sum_valid : valid_sum (minterm_sum chars table) = true.
Proof.
  unfold valid_sum. apply andb_true_iff. split.
  - unfold minterm_sum. rewrite length_rev, length_map.
    unfold has_true_row in Htrue. apply existsb_exists in Htrue.
    destruct Htrue as (row & Hin & E).
    assert (In row (filter (fun line => snd line =? 1) table))
      by (apply filter_In; auto).
    destruct (filter _ table); [contradiction | reflexivity].
  - apply forallb_forall. intros t Ht.
    apply minterm_sum_In in Ht. destruct Ht as (inp & -> & Hin).
    destruct (true_row_length _ _ Hin) as [L _].
    unfold valid_term. rewrite literals_length by exact L.
    assert (Hc : negb (Nat.eqb (List.length chars) 0) = true)
      by (destruct chars; [contradiction | reflexivity]).
    rewrite Hc. cbn [andb].
    apply forallb_forall. intros l Hl. unfold valid_literal.
    pose proof Hupper as Hu. rewrite forallb_forall in Hu. apply Hu.
    rewrite <- (literals_fst chars inp L). apply in_map, Hl.
Qed.

Lemma minterm_sum_variables :
  Forall (fun t => map fst t = chars) (minterm_sum chars table).
Proof.
  apply Forall_forall. intros t Ht.
  apply minterm_sum_In in Ht. destruct Ht as (inp & -> & Hin).
  apply literals_fst. apply (true_row_length _ _ Hin).
Qed.

Lemma minterm_sum_nonempty : minterm_sum chars table <> [].
Proof.
  pose proof minterm_sum_valid as H. unfold valid_sum in H.
  destruct (minterm_sum chars table); [discriminate | discriminate].
Qed.

Section Row.

Variable inp : list Z.
Hypothesis Hinp : In inp (product [0; 1] (List.length chars)).

Let inputs : dict := dict_zip (symbols_of chars) (map PInt inp).

Lemma row_lookup (c : ascii) (b : Z) :
  In (c, b) (combine chars inp) -> dict_get inputs [c] = OK (PInt b).
Proof. apply dict_zip_get, descending_NoDup, Hdesc. Qed.

Lemma row_binds (t : list literal) :
  In t (minterm_sum chars table) -> t <> [] /\ binds inputs t.
Proof.
  intros Ht. split.
  - pose proof minterm_sum_valid as H. unfold valid_sum in H.
    apply andb_true_iff in H. destruct H as [_ H].
    rewrite forallb_forall in H. specialize (H t Ht).
    destruct t; [discriminate | discriminate].
  - pose proof minterm_sum_variables as H. rewrite Forall_forall in H.
    specialize (H t Ht). unfold binds. apply Forall_forall. intros l Hl.
    destruct (product_In _ _ Hinp) as [L B].
    destruct (in_combine_of_length chars inp (fst l) L) as [b Hb].
    { rewrite <- H. apply in_map, Hl. }
    exists (PInt b). split; [apply row_lookup, Hb|].
    apply (bits_bitlike inp); [exact B|].
    apply in_map. apply in_combine_r in Hb. exact Hb.
Qed.

Lemma row_sum_true :
  sum_true inputs (minterm_sum chars table) = true <-> In (inp, 1) table.
Proof.
  destruct (product_In _ _ Hinp) as [L B].
  unfold sum_true. rewrite existsb_exists. split.
  - intros (t & Ht & T). apply minterm_sum_In in Ht.
    destruct Ht as (r & -> & Hr).
    destruct (true_row_length _ _ Hr) as [Lr Br].
    apply (term_true_iff inputs chars r inp Lr L Br B row_lookup) in T.
    subst r. exact Hr.
  - intros H. exists (literals chars inp). split.
    + apply minterm_sum_In. eauto.
    + apply (term_true_iff inputs chars inp inp L L B B row_lookup).
      reflexivity.
Qed.

Lemma row_of_sum (row : list Z * Z) :
  In row table ->
  row_of g (symbols_of chars) inp row ->
  row_of (sum_gate (minterm_sum chars table)) (symbols_of chars) inp row.
Proof.
  intros Hrow (g' & Hg & Er).
  destruct (product_In _ _ Hinp) as [L B].
  assert (Bo : bitlike (output g')).
  { eapply update_bitlike; [|exact Hg].
    intros k v. apply assignment_bitlike, B. }
  destruct (update_sum_gate inputs (minterm_sum chars table)
              minterm_sum_nonempty) as (g2 & U2 & B2 & T2).
  { apply Forall_forall. intros t Ht. apply row_binds, Ht. }
  exists g2. split; [exact U2|]. rewrite Er. f_equal.
  rewrite (bitlike_normalize _ Bo), (bitlike_normalize _ B2), T2.
  f_equal.
  destruct (sum_true inputs (minterm_sum chars table)) eqn:S.
  - apply row_sum_true in S.
    assert (E : normalize_bool (output g') = 1).
    { apply (map_fst_unique table inp); [|rewrite <- Er; exact Hrow | exact S].
      rewrite table_inputs. apply product_NoDup. }
    rewrite (bitlike_normalize _ Bo) in E.
    destruct (truthy (output g')); [reflexivity | discriminate E].
  - destruct (truthy (output g')) eqn:T; [|reflexivity].
    assert (In (inp, 1) table) as H.
    { rewrite Er, (bitlike_normalize _ Bo), T in Hrow. exact Hrow. }
    apply row_sum_true in H. congruence.
Qed.

End Row.

Lemma rows_of_sum :
  Forall2 (row_of (sum_gate (minterm_sum chars table)) (symbols_of chars))
    (product [0; 1] (List.length chars)) table.
Proof.
  apply (Forall2_impl_In _ _ _ _ Hrows).
  intros inp row Hinp Hrow. apply row_of_sum; assumption.
Qed.

Lemma sum_gate_symbols :
  extract_input_symbols (expression (sum_gate (minterm_sum chars table)))
  = symbols_of chars.
Proof.
  rewrite (proj2 (Gate_new_sum _ minterm_sum_valid)).
  apply extract_input_symbols_unique; [exact Hdesc|].
  apply sum_text_variables;
    [apply minterm_sum_nonempty | apply minterm_sum_variables | exact Hupper].
Qed.

Lemma round_trip_rows :
  exists g2 g2',
    Gate_new (spec_minterms (symbols_of chars) table) = OK g2
    /\ generate_truth_table g2 = OK g2'
    /\ truth_table g2' = table.
Proof.
  exists (sum_gate (minterm_sum chars table)).
  destruct (generate_truth_table_complete
              (sum_gate (minterm_sum chars table)) table) as (g2' & G & T).
  { rewrite sum_gate_symbols. unfold symbols_of at 2. rewrite length_map.
    apply rows_of_sum. }
  exists g2'. split; [|split; assumption].
  rewrite minterm_sum_text. apply Gate_new_sum, minterm_sum_valid.
Qed.

End RoundTrip.

Lemma sum_of_min_terms_generated (circuit circuit' : Gate) (body : pystr) :
  truth_table circuit = [] ->
  generate_truth_table circuit = OK circuit' ->
  build_minterms (truth_table circuit')
    (Some (extract_input_symbols (expression circuit))) = OK body ->
  sum_of_min_terms circuit = OK ("F = " ++ body).
Proof.
  intros Ht Hg Hb. unfold sum_of_min_terms. rewrite Ht.
  cbn [List.length Nat.eqb]. rewrite Hg. cbn [bind].
  apply generate_truth_table_rows in Hg. destruct Hg as [Eg _].
  apply erase_expression in Eg. cbn [set_truth_table expression] in Eg.
  rewrite Eg, Hb. reflexivity.
Qed.

Lemma stored_variables_upper (e : pystr) (g : Gate) (chars : list ascii) :
  Gate_new e = OK g ->
  (forall c, In c chars -> In c (expression g) /\ Str.isalpha c = true) ->
  forallb Str.is_upper chars = true.
Proof.
  intros Hg M. apply forallb_forall. intros c Hc.
  destruct (M c Hc) as [Hin Ha].
  apply Gate_init_expression in Hg. rewrite Hg in Hin.
  pose proof (normalize_not_lower (Str.strip e)) as N.
  rewrite Forall_forall in N. specialize (N c Hin).
  unfold Str.isalpha in Ha. rewrite N, orb_false_r in Ha. exact Ha.
Qed.

(** ** The theorems at concrete inputs *)

Lemma update_follows_operators_witness :
  well_formed example_and_not = true
  /\ match update example_and_not example_inputs with
     | OK g' =>
         erase g' = erase example_and_not
         /\ outputs_follow example_inputs g'
         /\ missing example_inputs example_and_not = []
     | Err e =>
         exists k rest,
           missing example_inputs example_and_not = k :: rest
           /\ e = KeyError k
     end
  /\ match update example_and_not example_inputs_short with
     | OK g' =>
         erase g' = erase example_and_not
         /\ outputs_follow example_inputs_short g'
         /\ missing example_inputs_short example_and_not = []
     | Err e =>
         exists k rest,
           missing example_inputs_short example_and_not = k :: rest
           /\ e = KeyError k
     end.
Proof.
  split; [reflexivity|]. split.
  - apply (update_follows_operators example_and_not example_inputs).
    reflexivity.
  - apply (update_follows_operators example_and_not example_inputs_short).
    reflexivity.
Defined.

Lemma truth_table_canonical_witness :
  generate_truth_table example_circuit = OK example_generated
  /\ truth_table example_generated = example_table
  /\ let input_symbols := extract_input_symbols (expression example_circuit) in
     let n := List.length input_symbols in
     List.length (truth_table example_generated) = (2 ^ n)%nat
     /\ map fst (truth_table example_generated) = product [0; 1] n
     /\ (forall i, (i < 2 ^ n)%nat ->
           exists inp out,
             nth_error (truth_table example_generated) i = Some (inp, out)
             /\ List.length inp = n
             /\ Forall is_bit inp
             /\ binary_value inp = Z.of_nat i
             /\ row_of example_circuit input_symbols inp (inp, out))
     /\ (exists chars,
           input_symbols = map (fun c => [c]) chars
           /\ descending chars
           /\ (forall c, In c chars
                         <-> In c (expression example_circuit)
                             /\ Str.isalpha c = true)).
Proof.
  split; [vm_compute; reflexivity|]. split; [vm_compute; reflexivity|].
  apply (truth_table_canonical example_circuit example_generated).
  vm_compute. reflexivity.
Defined.

Lemma minterms_follow_rows_witness :
  bit_table 2 example_table = true
  /\ build_minterms example_table (Some ["B" : pystr; "A" : pystr])
     = OK (spec_minterms ["B" : pystr; "A" : pystr] example_table)
  /\ spec_minterms ["B" : pystr; "A" : pystr] example_table
     = ("BA + BA' + B'A" : pystr)
  /\ build_minterms [([0], 0); ([1], 0)] (Some ["A" : pystr]) = OK [].
Proof.
  split; [reflexivity|]. split; [|split; [reflexivity|]].
  - apply (minterms_follow_rows example_table ["B" : pystr; "A" : pystr]).
    reflexivity.
  - apply (minterms_follow_rows [([0], 0); ([1], 0)] ["A" : pystr]);
      reflexivity.
Defined.

Lemma loader_checks_witness :
  read_table_from_lines example_file_short = Err IncompleteTable
  /\ read_table_from_lines example_file_long = Err OverdefinedTable
  /\ read_table_from_lines example_file_disorder = Err (InconsistentRow 2)
  /\ read_table_from_lines example_file
     = OK [([0; 0], 1); ([0; 1], 0); ([1; 0], 0); ([1; 1], 1)].
Proof.
  split; [|split; [|split]].
  - apply (proj1 (loader_checks example_file_short (file_line "0 0 1")
                    [0; 0] 1 eq_refl eq_refl)).
    cbn. lia.
  - apply (proj1 (proj2 (loader_checks example_file_long (file_line "0 0 1")
                           [0; 0] 1 eq_refl eq_refl))).
    cbn. lia.
  - apply (proj2 (proj2 (proj2 (loader_checks example_file_disorder
                                  (file_line "0 0 1") [0; 0] 1
                                  eq_refl eq_refl))
                   [([0; 0], 1); ([1; 0], 0); ([0; 1], 0); ([1; 1], 1)]
                   eq_refl eq_refl)
             1%nat ([1; 0], 0) [0; 1]).
    + intros [|j] Hj; [reflexivity | lia].
    + reflexivity.
    + reflexivity.
    + discriminate.
  - apply (proj1 (proj2 (proj2 (loader_checks example_file
                                  (file_line "0 0 1") [0; 0] 1
                                  eq_refl eq_refl))
                   [([0; 0], 1); ([0; 1], 0); ([1; 0], 0); ([1; 1], 1)]
                   eq_refl eq_refl)).
    reflexivity.
Defined.

(** ** The constructor terminates *)

Section Termination.

Lemma calm_tail (c : ascii) (r : pystr) : calm (c :: r) = true -> calm r = true.
Proof.
  destruct r as [|d r]; [reflexivity|]. cbn [calm]. intros H.
  apply andb_true_iff in H. apply H.
Qed.

Lemma calm_app (a b : pystr) :
  calm (a ++ b) = true -> calm a = true /\ calm b = true.
Proof.
  induction a as [|c a IH]; intros H; [split; [reflexivity | exact H]|].
  destruct (IH (calm_tail _ _ H)) as [Ha Hb]. split; [|exact Hb].
  destruct a as [|d a]; [reflexivity|].
  cbn [app calm] in H |- *. apply andb_true_iff in H. destruct H as [H _].
  rewrite H. exact Ha.
Qed.

Lemma calm_fixed (s : pystr) : calm s = true -> and_inserted s = s.
Proof.
  induction s as [|c r IH]; intros H; [reflexivity|].
  destruct r as [|d r]; [reflexivity|].
  pose proof (calm_tail _ _ H) as Hr. cbn [calm] in H.
  apply andb_true_iff in H. destruct H as [H _]. apply negb_true_iff in H.
  change (and_inserted (c :: d :: r))
    with (if implies_and c d then c :: "*"%char :: and_inserted (d :: r)
          else c :: and_inserted (d :: r)).
  rewrite H, (IH Hr). reflexivity.
Qed.

Lemma calm_inserted (s : pystr) :
  forall p,
    calm (and_inserted_after p s) = true
    /\ (forall x, p = Some x ->
                  match and_inserted_after p s with
                  | [] => True
                  | y :: _ => implies_and x y = false
                  end).
Proof.
  induction s as [|c r IH]; intros p.
  { split; [reflexivity | intros x _; exact I]. }
  destruct (IH (Some c)) as [Hc Hh]. specialize (Hh c eq_refl).
  assert (C : calm (c :: and_inserted_after (Some c) r) = true).
  { destruct (and_inserted_after (Some c) r) as [|y t]; [reflexivity|].
    cbn [calm] in *. rewrite Hh. exact Hc. }
  cbn [and_inserted_after].
  destruct p as [x|]; cbn [and_before]; [|split; [exact C | discriminate]].
  destruct (implies_and x c) eqn:E; cbn [app].
  - split.
    + change (calm ("*"%char :: c :: and_inserted_after (Some c) r))
        with (negb (implies_and "*" c)
              && calm (c :: and_inserted_after (Some c) r))%bool.
      rewrite implies_and_star_l. exact C.
    + intros x' Hx. injection Hx as <-. apply implies_and_star_r.
  - split; [exact C|]. intros x' Hx. injection Hx as <-. exact E.
Qed.

Lemma segment_refl (s : pystr) : segment s s.
Proof. exists [], []. rewrite app_nil_r. reflexivity. Qed.

Lemma segment_trans (a b c : pystr) : segment a b -> segment b c -> segment a c.
Proof.
  intros (x & y & ->) (u & v & ->). exists (u ++ x), (y ++ v).
  rewrite <- !app_assoc. reflexivity.
Qed.

Lemma segment_length (sub s : pystr) :
  segment sub s -> (List.length sub <= List.length s)%nat.
Proof. intros (a & b & ->). rewrite !length_app. lia. Qed.

Lemma segment_firstn (k : nat) (s : pystr) : segment (firstn k s) s.
Proof. exists [], (skipn k s). cbn [app]. symmetry. apply firstn_skipn. Qed.

Lemma segment_skipn (k : nat) (s : pystr) : segment (skipn k s) s.
Proof.
  exists (firstn k s), []. rewrite app_nil_r. symmetry. apply firstn_skipn.
Qed.

Lemma segment_lstrip (p : ascii -> bool) (s : pystr) : segment (Str.lstrip p s) s.
Proof.
  induction s as [|c s IH]; [apply segment_refl|].
  cbn [Str.lstrip]. destruct (p c); [|apply segment_refl].
  eapply segment_trans; [exact IH|]. apply (segment_skipn 1 (c :: s)).
Qed.

Lemma segment_rev (a b : pystr) : segment a b -> segment (rev a) (rev b).
Proof.
  intros (x & y & ->). exists (rev y), (rev x).
  rewrite !rev_app_distr, <- app_assoc. reflexivity.
Qed.

Lemma segment_strip (p : ascii -> bool) (s : pystr) :
  segment (Str.strip_pred p s) s.
Proof.
  unfold Str.strip_pred, Str.rstrip.
  eapply segment_trans; [|apply (segment_lstrip p s)].
  rewrite <- (rev_involutive (Str.lstrip p s)) at 2.
  apply segment_rev, segment_lstrip.
Qed.

Lemma settled_segment (sub s : pystr) :
  segment sub s -> settled s = true -> settled sub = true.
Proof.
  intros (a & b & ->) H. unfold settled in *.
  apply andb_true_iff in H. destruct H as [P C].
  rewrite !forallb_app in P.
  apply andb_true_iff in P. destruct P as [_ P].
  apply andb_true_iff in P. destruct P as [P _].
  apply calm_app in C. destruct C as [_ C].
  apply calm_app in C. destruct C as [C _].
  rewrite P, C. reflexivity.
Qed.

Lemma scrub_plain (s : pystr) : forallb plain (scrub s) = true.
Proof.
  unfold scrub, Str.replace_char, Str.remove_char, Str.upper.
  apply forallb_forall. intros x Hx.
  apply in_map_iff in Hx. destruct Hx as (y & <- & Hy).
  apply filter_In in Hy. destruct Hy as [Hy Hb].
  apply filter_In in Hy. destruct Hy as [Hy Hs].
  apply in_map_iff in Hy. destruct Hy as (z & <- & _).
  unfold plain. destruct (Ascii.eqb (Str.upper_char z) "!") eqn:E;
    [reflexivity|].
  rewrite upper_char_not_lower, Hs, Hb, E. reflexivity.
Qed.

Lemma forallb_segment (q : ascii -> bool) (sub s : pystr) :
  segment sub s -> forallb q s = true -> forallb q sub = true.
Proof.
  intros (a & b & ->) H. rewrite !forallb_app in H.
  apply andb_true_iff in H. destruct H as [_ H].
  apply andb_true_iff in H. apply H.
Qed.

Lemma and_inserted_plain (s : pystr) :
  forallb plain s = true -> forallb plain (and_inserted s) = true.
Proof.
  intros H. apply forallb_forall. apply Forall_forall.
  apply and_inserted_Forall; [reflexivity|].
  apply Forall_forall. apply forallb_forall. exact H.
Qed.

(** The normalizer returns a settled text. *)
Lemma normalize_settled (s : pystr) :
  settled (normalize_bool_fct_str s) = true.
Proof.
  rewrite normalize_unfold. unfold settled. apply andb_true_iff. split.
  - apply and_inserted_plain. unfold clean. fold (scrub s).
    unfold Str.strip_char.
    eapply forallb_segment; [apply segment_strip|].
    eapply forallb_segment; [apply segment_strip|].
    apply scrub_plain.
  - rewrite and_inserted_after_none. apply calm_inserted.
Qed.

(** Normalizing a settled text again does not make it longer. *)
Lemma settled_normalize_length (s : pystr) :
  settled s = true ->
  (List.length (normalize_bool_fct_str (Str.strip s)) <= List.length s)%nat.
Proof.
  intros H. rewrite normalize_unfold.
  pose proof (segment_strip Str.isspace s) as S1. fold (Str.strip s) in S1.
  pose proof (settled_segment _ _ S1 H) as H1.
  unfold clean. fold (scrub (Str.strip s)).
  assert (P1 : forallb plain (Str.strip s) = true).
  { unfold settled in H1. apply andb_true_iff in H1. apply H1. }
  rewrite (scrub_fixed _ P1). unfold Str.strip_char.
  set (s2 := Str.strip_pred _ (Str.strip_pred _ (Str.strip s))).
  assert (S2 : segment s2 (Str.strip s)).
  { eapply segment_trans; apply segment_strip. }
  pose proof (settled_segment _ _ S2 H1) as H2.
  unfold settled in H2. apply andb_true_iff in H2. destruct H2 as [_ C2].
  rewrite (calm_fixed _ C2).
  apply segment_length. eapply segment_trans; eassumption.
Qed.

Lemma no_fuel_error_bind {A B : Type} (r : result A) (k : A -> result B) :
  no_fuel_error r ->
  (forall a, r = OK a -> no_fuel_error (k a)) ->
  no_fuel_error (bind r k).
Proof.
  unfold no_fuel_error. intros Hr Hk. destruct r as [a|e]; cbn [bind].
  - apply Hk. reflexivity.
  - intros H. apply Hr. injection H as ->. reflexivity.
Qed.

Lemma index_no_fuel_error (s : pystr) (i : Z) : no_fuel_error (Str.index s i).
Proof.
  unfold no_fuel_error, Str.index.
  destruct (_ <? 0); [discriminate|].
  destruct (nth_error _ _); discriminate.
Qed.

Lemma parse_outer_no_fuel_error (expr : pystr) :
  forall i i_open i_close count,
    no_fuel_error (parse_outer_loop expr i i_open i_close count).
Proof.
  unfold no_fuel_error.
  induction expr as [|sym rest IH]; intros i io ic n; cbn [parse_outer_loop];
    [discriminate|].
  destruct (Ascii.eqb sym ")"); [|apply IH].
  destruct (_ =? 0); [discriminate|].
  destruct (_ =? -1); [discriminate | apply IH].
Qed.

Lemma split_point_no_fuel_error (s : pystr) (i_open i_close : Z) :
  no_fuel_error (split_point s i_open i_close).
Proof.
  unfold split_point. apply no_fuel_error_bind;
    [apply index_no_fuel_error | discriminate].
Qed.

Lemma index_clip (s : pystr) (i : Z) (c : ascii) :
  Str.index s i = OK c -> nth_error s (Str.clip s i) = Some c.
Proof.
  unfold Str.index, Str.clip.
  set (j := if i <? 0 then i + Str.len s else i).
  destruct (Z.ltb_spec j 0) as [|Hj]; [discriminate|].
  destruct (nth_error s (Z.to_nat j)) as [x|] eqn:E; [|discriminate].
  intros H. injection H as <-.
  assert (L : (Z.to_nat j < List.length s)%nat)
    by (apply nth_error_Some; congruence).
  unfold Str.len. replace (Z.min (Z.max j 0) (Z.of_nat (List.length s)))
    with j by lia.
  exact E.
Qed.

Lemma split1_spec (c : ascii) (s : pystr) :
  In c s -> s = fst (Str.split1 c s) ++ c :: snd (Str.split1 c s).
Proof.
  induction s as [|x s IH]; intros H; [contradiction|].
  cbn [Str.split1]. destruct (Ascii.eqb_spec x c) as [->|N]; [reflexivity|].
  destruct H as [H|H]; [contradiction|].
  specialize (IH H). destruct (Str.split1 c s) as [a b].
  cbn [fst snd] in *. rewrite IH at 1. reflexivity.
Qed.

Lemma count_In (c : ascii) (s : pystr) :
  (Str.count c s =? 0) = false -> In c s.
Proof.
  unfold Str.count. intros H. apply Z.eqb_neq in H.
  destruct (filter (fun x => Ascii.eqb x c) s) as [|y l] eqn:E;
    [contradiction H; reflexivity|].
  assert (Hy : In y (filter (fun x => Ascii.eqb x c) s))
    by (rewrite E; left; reflexivity).
  apply filter_In in Hy. destruct Hy as [Hy Ey].
  apply Ascii.eqb_eq in Ey. subst y. exact Hy.
Qed.

Lemma split1_smaller (c : ascii) (s : pystr) :
  (Str.count c s =? 0) = false ->
  smaller (fst (Str.split1 c s)) s /\ smaller (snd (Str.split1 c s)) s.
Proof.
  intros H. pose proof (split1_spec c s (count_In c s H)) as E.
  set (a := fst (Str.split1 c s)) in *. set (b := snd (Str.split1 c s)) in *.
  pose proof (f_equal (@List.length ascii) E) as L.
  rewrite length_app in L. cbn [List.length] in L.
  split; split.
  - exists [], (c :: b). exact E.
  - lia.
  - exists (a ++ [c]), []. rewrite app_nil_r, <- app_assoc. exact E.
  - lia.
Qed.

Lemma slice_smaller (c0 : ascii) (m : pystr) (b : Z) :
  smaller (Str.slice (c0 :: m) 1 b) (c0 :: m).
Proof.
  unfold Str.slice.
  assert (C : Str.clip (c0 :: m) 1 = 1%nat).
  { unfold Str.clip, Str.len. cbn [Z.ltb Z.compare List.length]. lia. }
  rewrite C. cbn [skipn]. split.
  - eapply segment_trans; [apply segment_firstn|].
    apply (segment_skipn 1 (c0 :: m)).
  - pose proof (segment_length _ _ (segment_firstn
                  (Str.clip (c0 :: m) b - 1) m)).
    cbn [List.length]. lia.
Qed.

Lemma head_smaller (c0 : ascii) (m : pystr) :
  is_operator_symbol c0 = false ->
  (Str.count "'" (c0 :: m) + Str.count "!" (c0 :: m) =? 0) = false ->
  smaller [c0] (c0 :: m).
Proof.
  intros Hc H. split; [apply (segment_firstn 1 (c0 :: m))|].
  destruct m as [|d m]; [|cbn [List.length]; lia].
  exfalso. unfold is_operator_symbol in Hc.
  repeat (apply orb_false_iff in Hc; destruct Hc as [Hc ?]).
  unfold Str.count in H. cbn [filter] in H. rewrite Hc, H0 in H.
  discriminate H.
Qed.

Lemma split_smaller (c0 c : ascii) (m : pystr) (k : Z) :
  is_operator_symbol c0 = false ->
  Str.index (c0 :: m) k = OK c ->
  (if Ascii.eqb c "*" then OK AND
   else if Ascii.eqb c "+" then OK OR else Err UnknownOperator)
  <> Err UnknownOperator ->
  smaller (Str.slice_to (c0 :: m) k) (c0 :: m)
  /\ smaller (Str.slice_from (c0 :: m) k) (c0 :: m).
Proof.
  intros Hc Hi Hop. apply index_clip in Hi.
  assert (L : (Str.clip (c0 :: m) k < List.length (c0 :: m))%nat)
    by (apply nth_error_Some; congruence).
  assert (P : (0 < Str.clip (c0 :: m) k)%nat).
  { destruct (Str.clip (c0 :: m) k) as [|j]; [|lia].
    exfalso. injection Hi as <-. apply Hop.
    unfold is_operator_symbol in Hc.
    repeat (apply orb_false_iff in Hc; destruct Hc as [Hc ?]).
    rewrite H0, H1. reflexivity. }
  unfold Str.slice_to, Str.slice_from. split; split.
  - apply segment_firstn.
  - rewrite length_firstn. lia.
  - apply segment_skipn.
  - rewrite length_skipn. lia.
Qed.

(** With fuel above the length of the normalized text, the constructor
    does not run out of fuel. *)
Lemma Gate_init_enough (fuel : nat) :
  forall e,
    (List.length (normalize_bool_fct_str (Str.strip e)) < fuel)%nat ->
    no_fuel_error (Gate_init fuel e).
Proof.
  induction fuel as [|fuel IH]; intros e L; [lia|].
  cbn [Gate_init].
  pose proof (normalize_settled (Str.strip e)) as HS.
  revert L HS. generalize (normalize_bool_fct_str (Str.strip e)) as X.
  intros X L HS.
  assert (Call : forall sub, smaller sub X -> no_fuel_error (Gate_init fuel sub)).
  { intros sub [Sg Ls]. apply IH.
    pose proof (settled_normalize_length sub (settled_segment _ _ Sg HS)).
    lia. }
  apply no_fuel_error_bind; [apply index_no_fuel_error|].
  intros c0 E0.
  assert (EX : exists m, X = c0 :: m).
  { destruct X as [|x m]; [discriminate E0|].
    injection E0 as ->. eauto. }
  destruct EX as [m ->].
  destruct (is_operator_symbol c0) eqn:Hop; [discriminate|].
  destruct (negb (Str.count "(" (c0 :: m) =? 0)).
  { destruct (negb (_ =? _)); [discriminate|].
    apply no_fuel_error_bind; [apply parse_outer_no_fuel_error|].
    intros [i_open i_close] _.
    destruct (_ && _)%bool.
    { apply no_fuel_error_bind; [apply Call, slice_smaller | discriminate]. }
    destruct (_ && _)%bool.
    { apply no_fuel_error_bind; [apply Call, slice_smaller | discriminate]. }
    apply no_fuel_error_bind; [apply split_point_no_fuel_error|].
    intros split_at _.
    apply no_fuel_error_bind; [apply index_no_fuel_error|].
    intros c Ec.
    destruct (if Ascii.eqb c "*" then OK AND
              else if Ascii.eqb c "+" then OK OR else Err UnknownOperator)
      as [op|err] eqn:Eop.
    2:{ cbn [bind]. destruct (Ascii.eqb c "*"); [discriminate|].
        destruct (Ascii.eqb c "+"); [discriminate|].
        injection Eop as <-. discriminate. }
    destruct (split_smaller c0 c m (split_at + 1) Hop Ec) as [S1 S2].
    { destruct (Ascii.eqb c "*"); [discriminate|].
      destruct (Ascii.eqb c "+"); discriminate. }
    cbn [bind].
    apply no_fuel_error_bind.
    { destruct (Str.slice_to _ _) eqn:E1; [discriminate|].
      apply no_fuel_error_bind; [apply Call; exact S1 | discriminate]. }
    intros inp_1 _.
    apply no_fuel_error_bind; [|discriminate].
    destruct (Str.slice_from _ _) eqn:E2; [discriminate|].
    apply no_fuel_error_bind; [apply Call; exact S2 | discriminate]. }
  destruct (Str.count "+" (c0 :: m) =? 0) eqn:Eplus; cbn [negb].
  2:{ destruct (split1_smaller "+" _ Eplus) as [S1 S2].
      apply no_fuel_error_bind; [apply Call, S1|]. intros inp_1 _.
      apply no_fuel_error_bind; [apply Call, S2 | discriminate]. }
  destruct (Str.count "*" (c0 :: m) =? 0) eqn:Estar; cbn [negb].
  2:{ destruct (split1_smaller "*" _ Estar) as [S1 S2].
      apply no_fuel_error_bind; [apply Call, S1|]. intros inp_1 _.
      apply no_fuel_error_bind; [apply Call, S2 | discriminate]. }
  destruct (Str.count "'" (c0 :: m) + Str.count "!" (c0 :: m) =? 0) eqn:Enot;
    cbn [negb]; [unfold no_fuel_error; discriminate|].
  cbn [Str.index Z.ltb Z.compare Z.to_nat nth_error bind].
  apply no_fuel_error_bind; [|discriminate].
  apply Call, head_smaller; assumption.
Qed.

(** [Gate(expression)] returns a gate or raises one of the Python
    exceptions: the recursion bound of [Gate_new] is never reached. *)
Theorem Gate_new_terminates (e : pystr) : Gate_new e <> Err OutOfFuel.
Proof. apply Gate_init_enough. lia. Qed.

End Termination.

(** ** The constructor builds trees of the data model *)

Section WellFormed.

Lemma split_nonempty (c0 c : ascii) (m : pystr) (k : Z) :
  is_operator_symbol c0 = false ->
  Str.index (c0 :: m) k = OK c ->
  (Ascii.eqb c "*" || Ascii.eqb c "+")%bool = true ->
  Str.slice_to (c0 :: m) k <> [] /\ Str.slice_from (c0 :: m) k <> [].
Proof.
  intros Hc Hi Hop.
  destruct (split_smaller c0 c m k Hc Hi) as [[_ L1] [_ L2]].
  { apply orb_true_iff in Hop. destruct Hop as [-> | H]; [discriminate|].
    destruct (Ascii.eqb c "*"); [discriminate|]. rewrite H. discriminate. }
  unfold Str.slice_to, Str.slice_from in *.
  rewrite length_firstn in L1. rewrite length_skipn in L2.
  split; intros E; apply (f_equal (@List.length ascii)) in E;
    [rewrite length_firstn in E | rewrite length_skipn in E];
    cbn [List.length] in *; lia.
Qed.

Ltac bind_ok H :=
  match type of H with
  | bind ?r _ = OK _ =>
      let E := fresh "E" in
      destruct r eqn:E; cbn [bind] in H; [|discriminate H]
  end.

(** Every tree the constructor returns has two inputs at an AND or OR,
    one at a NOT or pass-through, none at an input variable: the branch
    that could leave an input empty raises before it does. *)
Lemma Gate_init_well_formed (fuel : nat) :
  forall e g, Gate_init fuel e = OK g -> well_formed g = true.
Proof.
  induction fuel as [|fuel IH]; intros e g H; [discriminate H|].
  cbn [Gate_init] in H.
  revert H. generalize (normalize_bool_fct_str (Str.strip e)) as X.
  intros X H.
  bind_ok H. rename a into c0.
  assert (EX : exists m, X = c0 :: m).
  { destruct X as [|x m]; [discriminate E|]. injection E as ->. eauto. }
  destruct EX as [m ->].
  destruct (is_operator_symbol c0) eqn:Hop; [discriminate H|].
  destruct (negb (Str.count "(" (c0 :: m) =? 0)).
  { destruct (negb (_ =? _)); [discriminate H|].
    bind_ok H. destruct a as [i_open i_close].
    destruct (_ && _)%bool.
    { bind_ok H. injection H as <-. cbn. eauto. }
    destruct (_ && _)%bool.
    { bind_ok H. injection H as <-. cbn. eauto. }
    bind_ok H. rename a into split_at.
    bind_ok H. rename a into c.
    assert (Hc : (Ascii.eqb c "*" || Ascii.eqb c "+")%bool = true).
    { destruct (Ascii.eqb c "*"); [reflexivity|].
      destruct (Ascii.eqb c "+"); [reflexivity | discriminate H]. }
    destruct (split_nonempty c0 c m (split_at + 1) Hop E2 Hc) as [N1 N2].
    bind_ok H. rename a into op.
    assert (Hb : op = AND \/ op = OR).
    { destruct (Ascii.eqb c "*"); [injection E3 as <-; auto|].
      destruct (Ascii.eqb c "+"); [injection E3 as <-; auto | discriminate E3]. }
    destruct (Str.slice_to _ _) as [|x1 s1] eqn:S1; [contradiction|].
    destruct (Str.slice_from _ _) as [|x2 s2] eqn:S2; [contradiction|].
    bind_ok H. bind_ok H. cbn [bind] in H. injection H as <-.
    bind_ok E4. injection E4 as <-. bind_ok E5. injection E5 as <-.
    cbn [new_gate well_formed].
    rewrite (IH _ _ E4), (IH _ _ E6).
    destruct Hb; subst op; reflexivity. }
  destruct (negb (Str.count "+" (c0 :: m) =? 0)).
  { bind_ok H. bind_ok H. injection H as <-. cbn [new_gate well_formed].
    rewrite (IH _ _ E0), (IH _ _ E1). reflexivity. }
  destruct (negb (Str.count "*" (c0 :: m) =? 0)).
  { bind_ok H. bind_ok H. injection H as <-. cbn [new_gate well_formed].
    rewrite (IH _ _ E0), (IH _ _ E1). reflexivity. }
  destruct (negb (_ =? 0)).
  - bind_ok H. injection H as <-. cbn [new_gate well_formed].
    rewrite (IH _ _ E0). destruct (negb _); reflexivity.
  - injection H as <-. reflexivity.
Qed.

(** The same for [Gate(expression)]: no gate is built with a missing
    input. *)
Theorem Gate_new_well_formed (e : pystr) (g : Gate) :
  Gate_new e = OK g -> well_formed g = true.
Proof. apply Gate_init_well_formed. Qed.

End WellFormed.

(** ** When the table is generated *)

Section Generation.

Lemma missing_variables (inputs : dict) (g : Gate) :
  forall k, In k (missing inputs g) -> In k (variables g) /\
                                       dict_get inputs k = Err (KeyError k).
Proof.
  induction g as [tbl expr out op i1 i2 IH1 IH2] using Gate_induction.
  intros k H. cbn [missing variables] in *.
  apply in_app_or in H. destruct H as [H|H].
  { destruct i1 as [a|]; [|contradiction].
    destruct (IH1 a eq_refl k H) as [V D]. split; [|exact D].
    apply in_or_app. left. exact V. }
  apply in_app_or in H. destruct H as [H|H].
  { destruct i2 as [a|]; [|contradiction].
    destruct (IH2 a eq_refl k H) as [V D]. split; [|exact D].
    apply in_or_app. right. apply in_or_app. left. exact V. }
  destruct op; try contradiction.
  destruct (dict_get_cases inputs expr) as [[v Hv]|Hv]; rewrite Hv in H;
    [contradiction|].
  destruct H as [<-|[]]. split; [|exact Hv].
  apply in_or_app. right. apply in_or_app. right. left. reflexivity.
Qed.

Lemma Forall2_exists {A B : Type} (P : A -> B -> Prop) (l : list A) :
  (forall a, In a l -> exists b, P a b) -> exists l', Forall2 P l l'.
Proof.
  induction l as [|a l IH]; intros H; [exists []; constructor|].
  destruct (H a (or_introl eq_refl)) as [b Hb].
  destruct IH as [l' Hl']; [intros x Hx; apply H; right; exact Hx|].
  exists (b :: l'). constructor; assumption.
Qed.

(** On a tree of the data model whose input variables all belong to the
    variable set of its expression, every update succeeds and the table
    is generated. *)
Theorem generate_truth_table_returns (circuit : Gate) :
  well_formed circuit = true ->
  (forall k, In k (variables circuit) ->
             In k (extract_input_symbols (expression circuit))) ->
  exists circuit', generate_truth_table circuit = OK circuit'.
Proof.
  intros W V.
  destruct (extract_input_symbols_spec (expression circuit))
    as (chars & Es & D & _).
  rewrite Es in V. fold (symbols_of chars) in V, Es.
  destruct (Forall2_exists (row_of circuit (symbols_of chars))
              (product [0; 1] (List.length chars))) as [rows F].
  { intros inp Hinp. destruct (product_In _ _ Hinp) as [L B].
    pose proof (update_result (dict_zip (symbols_of chars) (map PInt inp))
                  circuit W) as U.
    unfold update_result_ok in U.
    destruct (update circuit _) as [g'|e] eqn:Eu.
    - exists (inp, normalize_bool (output g')). exists g'. auto.
    - exfalso. destruct U as (k & rest & Hm & _).
      destruct (missing_variables
                  (dict_zip (symbols_of chars) (map PInt inp)) circuit k)
        as [Hv Hd].
      { rewrite Hm. left. reflexivity. }
      specialize (V k Hv). apply in_map_iff in V.
      destruct V as (c & <- & Hc).
      destruct (in_combine_of_length chars inp c L Hc) as [b Hb].
      rewrite (dict_zip_get chars inp c b (descending_NoDup _ D) Hb) in Hd.
      discriminate Hd. }
  destruct (generate_truth_table_complete circuit rows) as (c' & G & _).
  { rewrite Es. unfold symbols_of at 2. rewrite length_map. exact F. }
  exists c'. exact G.
Qed.

End Generation.

(** * Further properties of the program *)

(** ** The recursion of the constructor *)

Section Recursion.

Lemma Gate_init_body (fuel : nat) (e : pystr) :
  Gate_init (S fuel) e = Gate_body (Gate_init fuel) e.
Proof. reflexivity. Qed.

Lemma bind_ext {A B : Type} (r : result A) (k1 k2 : A -> result B) :
  (forall a, r = OK a -> k1 a = k2 a) -> bind r k1 = bind r k2.
Proof. intros H. destruct r as [a|e]; [apply H; reflexivity | reflexivity]. Qed.

Lemma bind_ext2 {A B : Type} (r1 r2 : result A) (k1 k2 : A -> result B) :
  r1 = r2 -> (forall a, r1 = OK a -> k1 a = k2 a) -> bind r1 k1 = bind r2 k2.
Proof. intros <-. apply bind_ext. Qed.

(** The body calls [rec] on strictly shorter parts of the normalized
    text only. *)
Lemma Gate_body_ext (rec1 rec2 : pystr -> result Gate) (e : pystr) :
  (forall sub, smaller sub (normalize_bool_fct_str (Str.strip e)) ->
               rec1 sub = rec2 sub) ->
  Gate_body rec1 e = Gate_body rec2 e.
Proof.
  unfold Gate_body. generalize (normalize_bool_fct_str (Str.strip e)) as X.
  intros X Call.
  apply bind_ext. intros c0 E0.
  assert (EX : exists m, X = c0 :: m).
  { destruct X as [|x m]; [discriminate E0|]. injection E0 as ->. eauto. }
  destruct EX as [m ->].
  destruct (is_operator_symbol c0) eqn:Hop; [reflexivity|].
  destruct (negb (Str.count "(" (c0 :: m) =? 0)).
  { destruct (negb (_ =? _)); [reflexivity|].
    apply bind_ext. intros [i_open i_close] _.
    destruct (_ && _)%bool.
    { rewrite (Call _ (slice_smaller c0 m (-2))). reflexivity. }
    destruct (_ && _)%bool.
    { rewrite (Call _ (slice_smaller c0 m (-1))). reflexivity. }
    apply bind_ext. intros split_at _.
    apply bind_ext. intros c Ec.
    destruct (if Ascii.eqb c "*" then OK AND
              else if Ascii.eqb c "+" then OK OR else Err UnknownOperator)
      as [op|err] eqn:Eop; [|reflexivity].
    destruct (split_smaller c0 c m (split_at + 1) Hop Ec) as [S1 S2].
    { destruct (Ascii.eqb c "*"); [discriminate|].
      destruct (Ascii.eqb c "+"); discriminate. }
    cbn [bind]. rewrite (Call _ S1), (Call _ S2). reflexivity. }
  destruct (Str.count "+" (c0 :: m) =? 0) eqn:Eplus; cbn [negb].
  2:{ destruct (split1_smaller "+" _ Eplus) as [S1 S2].
      rewrite (Call _ S1), (Call _ S2). reflexivity. }
  destruct (Str.count "*" (c0 :: m) =? 0) eqn:Estar; cbn [negb].
  2:{ destruct (split1_smaller "*" _ Estar) as [S1 S2].
      rewrite (Call _ S1), (Call _ S2). reflexivity. }
  destruct (Str.count "'" (c0 :: m) + Str.count "!" (c0 :: m) =? 0) eqn:Enot;
    cbn [negb]; [reflexivity|].
  cbn [Str.index Z.ltb Z.compare Z.to_nat nth_error bind].
  rewrite (Call _ (head_smaller c0 m Hop Enot)). reflexivity.
Qed.

Lemma Gate_init_fuel (n : nat) :
  forall m e,
    (List.length (normalize_bool_fct_str (Str.strip e)) < n)%nat ->
    (n <= m)%nat ->
    Gate_init m e = Gate_init n e.
Proof.
  induction n as [|n IH]; intros m e L Hm; [lia|].
  destruct m as [|m]; [lia|].
  rewrite !Gate_init_body. apply Gate_body_ext.
  intros sub [Sg Ls]. apply IH; [|lia].
  pose proof (settled_normalize_length sub
                (settled_segment _ _ Sg (normalize_settled (Str.strip e)))).
  lia.
Qed.

End Recursion.

(** X1: the constructor terminates.  Each call recurses on strictly
    shorter parts of its normalized text only, so the depth of the
    recursion is bounded by the length of that text: with any bound above
    it the model returns the result of [Gate(expression)], which is a gate
    or a Python exception and never the out-of-fuel marker. *)
Theorem constructor_terminates (e : pystr) (fuel : nat) :
  Gate_new e <> Err OutOfFuel
  /\ Gate_init
       (S (List.length (normalize_bool_fct_str (Str.strip e))) + fuel) e
     = Gate_new e.
Proof.
  split.
  - apply Gate_init_enough. lia.
  - unfold Gate_new. apply Gate_init_fuel; lia.
Qed.

(** X2: the constructor leaves no input empty.  In the branch for a
    partial group the operand texts [expr_1] and [expr_2] are never empty
    when the gate is built (an empty one would need the operator at index
    0, which the leading-operator check has excluded), so every AND and OR
    gate it returns has two inputs, every NOT and pass-through one. *)
Theorem constructor_fills_inputs (e : pystr) (g : Gate) :
  Gate_new e = OK g -> well_formed g = true.
Proof. apply Gate_init_well_formed. Qed.

Lemma constructor_fills_inputs_witness :
  Gate_new "(A+B)'C" <> Err OutOfFuel
  /\ match Gate_new "(A+B)'C" with
     | OK g => well_formed g = true
     | Err _ => False
     end.
Proof.
  split; [vm_compute; discriminate|].
  destruct (Gate_new "(A+B)'C") as [g|x] eqn:E.
  - apply (constructor_fills_inputs "(A+B)'C" g E).
  - vm_compute in E. discriminate E.
Defined.

(** ** The normalizer *)

Section NormalizerFacts.

Lemma calm_nth (s : pystr) :
  calm s = true ->
  forall i c d,
    nth_error s i = Some c -> nth_error s (S i) = Some d ->
    implies_and c d = false.
Proof.
  induction s as [|x s IH]; intros C i c d Hc Hd; [destruct i; discriminate|].
  destruct s as [|y s]; [destruct i; discriminate|].
  cbn [calm] in C. apply andb_true_iff in C. destruct C as [C1 C2].
  destruct i as [|i].
  - injection Hc as <-. injection Hd as <-. apply negb_true_iff, C1.
  - apply (IH C2 i c d Hc Hd).
Qed.

Lemma plain_spec (c : ascii) :
  plain c = true ->
  Str.is_lower c = false /\ c <> " "%char /\ c <> "\"%char /\ c <> "!"%char.
Proof.
  unfold plain. intros H.
  repeat (apply andb_true_iff in H; destruct H as [H ?]).
  repeat match goal with
         | H : negb _ = true |- _ => apply negb_true_iff in H
         end.
  repeat split; try assumption; intros ->; discriminate.
Qed.

Lemma settled_renormalize (s : pystr) :
  settled s = true ->
  normalize_bool_fct_str (Str.strip s)
  = Str.strip_char "+" (Str.strip_char "*" (Str.strip s)).
Proof.
  intros H. rewrite normalize_unfold.
  pose proof (segment_strip Str.isspace s) as S1. fold (Str.strip s) in S1.
  pose proof (settled_segment _ _ S1 H) as H1.
  unfold clean. fold (scrub (Str.strip s)).
  assert (P1 : forallb plain (Str.strip s) = true).
  { unfold settled in H1. apply andb_true_iff in H1. apply H1. }
  rewrite (scrub_fixed _ P1). apply calm_fixed.
  assert (S2 : segment (Str.strip_char "+" (Str.strip_char "*" (Str.strip s)))
                 (Str.strip s)).
  { unfold Str.strip_char. eapply segment_trans; apply segment_strip. }
  pose proof (settled_segment _ _ S2 H1) as H2.
  unfold settled in H2. apply andb_true_iff in H2. apply H2.
Qed.

End NormalizerFacts.

(** X3: what a normalized text looks like.  Whatever the raw text, the
    result of [normalize_bool_fct_str] has no lowercase letter, no blank,
    no backslash and no [!], and no two neighbours in it imply an AND:
    where a letter or complement mark is followed by a letter or an
    opening parenthesis, or a closing parenthesis by a letter, the marker
    [*] stands between them. *)
Theorem normalized_text_shape (s : pystr) :
  Forall (fun c => Str.is_lower c = false /\ c <> " "%char
                   /\ c <> "\"%char /\ c <> "!"%char)
    (normalize_bool_fct_str s)
  /\ (forall i c d,
        nth_error (normalize_bool_fct_str s) i = Some c ->
        nth_error (normalize_bool_fct_str s) (S i) = Some d ->
        implies_and c d = false).
Proof.
  pose proof (normalize_settled s) as H. unfold settled in H.
  apply andb_true_iff in H. destruct H as [P C]. split.
  - apply Forall_forall. intros c Hc. apply plain_spec.
    rewrite forallb_forall in P. apply P, Hc.
  - apply calm_nth, C.
Qed.

(** X4: normalizing a normalized text again, as every recursive call of
    the constructor does with the part it is given, changes no character
    and inserts no marker: it only strips blanks and then the markers [*]
    and [+] from the two ends.  (It is not the identity: [+*A] is
    normalized to [*A], and [*A] to [A].) *)
Theorem renormalizing_only_strips (s : pystr) :
  let X := normalize_bool_fct_str s in
  normalize_bool_fct_str (Str.strip X)
  = Str.strip_char "+" (Str.strip_char "*" (Str.strip X))
  /\ (List.length (normalize_bool_fct_str (Str.strip X)) <= List.length X)%nat.
Proof.
  intros X. split.
  - apply settled_renormalize, normalize_settled.
  - apply settled_normalize_length, normalize_settled.
Qed.

(** X5: the two loops of the normalizer insert the markers where the
    first loop found them.  The positions are recorded on the cleaned
    text and the insertions made from the last to the first, each after
    its position; the result is the cleaned text read once from left to
    right with a [*] put between every two neighbours that pass the test
    ([and_inserted]).  No insertion shifts a position still to be used. *)
Theorem insertion_keeps_positions (s : pystr) :
  normalize_bool_fct_str s = and_inserted (clean s)
  /\ List.length (normalize_bool_fct_str s)
     = (List.length (clean s) + List.length (and_positions (clean s)))%nat
  /\ Str.remove_char "*" (normalize_bool_fct_str s)
     = Str.remove_char "*" (clean s).
Proof.
  split; [apply normalize_unfold|].
  unfold normalize_bool_fct_str. generalize (clean s) as t. clear s.
  intros t. rewrite normalize_insertion.
  induction t as [|c r IH]; [split; reflexivity|].
  destruct r as [|d r]; [split; reflexivity|].
  rewrite and_positions_cons, length_app, length_map.
  change (and_inserted (c :: d :: r))
    with (if implies_and c d then c :: "*"%char :: and_inserted (d :: r)
          else c :: and_inserted (d :: r)).
  destruct IH as [IH1 IH2].
  assert (F : forall x l,
             Str.remove_char "*" (x :: l)
             = (if negb (Ascii.eqb x "*") then [x] else [])
                 ++ Str.remove_char "*" l).
  { intros x l. unfold Str.remove_char. cbn [filter].
    destruct (negb (Ascii.eqb x "*")); reflexivity. }
  destruct (implies_and c d); split.
  - cbn [List.length] in *. lia.
  - rewrite (F c (d :: r)), <- IH2, (F c), (F "*"%char). reflexivity.
  - cbn [List.length] in *. lia.
  - rewrite (F c (d :: r)), <- IH2, (F c). reflexivity.
Qed.

(** ** The scan for the outermost parentheses *)

Lemma skipn_step (l : pystr) :
  forall (p : nat) (x : ascii) (r : pystr),
    skipn p l = x :: r ->
    nth_error l p = Some x
    /\ skipn (S p) l = r
    /\ firstn (S p) l = firstn p l ++ [x].
Proof.
  induction l as [|a l IH]; intros p x r H.
  - destruct p; discriminate H.
  - destruct p as [|p].
    + injection H as -> ->. repeat split.
    + destruct (IH p x r H) as (H1 & H2 & H3). repeat split; auto.
      change (firstn (S (S p)) (a :: l)) with (a :: firstn (S p) l).
      rewrite H3. reflexivity.
Qed.

Lemma count_snoc (c x : ascii) (l : pystr) :
  Str.count c (l ++ [x]) = Str.count c l + (if Ascii.eqb x c then 1 else 0).
Proof.
  unfold Str.count. rewrite filter_app, length_app. cbn [filter].
  destruct (Ascii.eqb x c); cbn [List.length]; lia.
Qed.

Lemma count_nonneg (c : ascii) (l : pystr) : 0 <= Str.count c l.
Proof. unfold Str.count. lia. Qed.

Lemma parse_outer_loop_result (expr rest : pystr) :
  forall p i_open n,
    skipn p expr = rest ->
    scan_state expr p i_open n ->
    outer_result expr
      (parse_outer_loop rest (Z.of_nat p) i_open (-1) n).
Proof.
  induction rest as [|sym rest IH]; intros p io n Hs [Hn Inv].
  - (* the loop ends without a break *)
    cbn [parse_outer_loop outer_result]. left. split; [reflexivity|].
    assert (Hp : firstn p expr = expr).
    { rewrite <- (firstn_skipn p expr) at 2. rewrite Hs, app_nil_r.
      reflexivity. }
    assert (Lp : (List.length expr <= p)%nat).
    { rewrite <- Hp at 1. apply firstn_le_length. }
    destruct Inv as [[-> Np] | (o & -> & Ho & Hopen & Nf & Hk)].
    + left. rewrite Hp in Np. auto.
    + right. exists o. split; [reflexivity|]. split; [exact Hopen|].
      split; [exact Nf|]. intros k Hlt. apply Hk. lia.
  - destruct (skipn_step expr p sym rest Hs) as (Hnth & Hs' & Hf).
    assert (Hd : paren_depth expr (S p)
                 = n + (if Ascii.eqb sym "(" then 1 else 0)
                     - (if Ascii.eqb sym ")" then 1 else 0)).
    { unfold paren_depth in *. rewrite Hf, !count_snoc. lia. }
    cbn [parse_outer_loop].
    replace (Z.of_nat p + 1) with (Z.of_nat (S p)) by lia.
    destruct Inv as [[-> [N1 N2]] | (o & -> & Ho & Hopen & Nf & Hk)].
    + (* no parenthesis so far *)
      assert (E0 : n = 0) by (unfold paren_depth in Hn; lia).
      clear Hn. subst n.
      destruct (Ascii.eqb_spec sym "(") as [->|Nopen].
      * cbn [andb Z.eqb Ascii.eqb Bool.eqb].
        apply IH; [exact Hs'|]. split; [cbn in Hd; lia|].
        right. exists p. split; [reflexivity|]. split; [lia|].
        split; [exact Hnth|]. split; [split; assumption|].
        intros k Hlt. assert (k = S p) by lia. subst k. cbn in Hd. lia.
      * cbn [andb]. destruct (Ascii.eqb_spec sym ")") as [->|Nclose].
        -- cbn [Z.sub Z.add Z.opp Z.eqb Z.pos_sub]. split; [reflexivity|].
           exists p. auto.
        -- apply IH; [exact Hs'|]. split; [lia|].
           left. split; [reflexivity|]. unfold no_paren.
           rewrite Hf, !count_snoc.
           destruct (Ascii.eqb_spec sym "("); [contradiction|].
           destruct (Ascii.eqb_spec sym ")"); [contradiction|]. lia.
    + (* after the first opening parenthesis *)
      assert (Hpos : 0 < n) by (rewrite Hn; apply Hk; lia).
      assert (Enz : (n =? 0) = false) by (apply Z.eqb_neq; lia).
      rewrite Enz, andb_false_r.
      assert (Next : forall n', n' = paren_depth expr (S p) -> 0 < n' ->
                                scan_state expr (S p) (Z.of_nat o) n').
      { intros n' En' Hn'. split; [exact En'|].
        right. exists o. split; [reflexivity|]. split; [lia|].
        split; [exact Hopen|]. split; [exact Nf|].
        intros k Hlt. destruct (Nat.eq_dec k (S p)) as [->|]; [lia|].
        apply Hk. lia. }
      destruct (Ascii.eqb_spec sym "(") as [->|Nopen].
      * cbn [Ascii.eqb Bool.eqb]. apply IH; [exact Hs'|].
        cbn in Hd. apply Next; lia.
      * destruct (Ascii.eqb_spec sym ")") as [->|Nclose].
        -- destruct (Z.eqb_spec (n - 1) 0) as [E0|N0].
           ++ cbn [outer_result]. right. exists o, p.
              split; [reflexivity|]. split; [reflexivity|]. split; [exact Ho|].
              split; [exact Hopen|]. split; [exact Hnth|]. split; [exact Nf|].
              split; [cbn in Hd; lia | exact Hk].
           ++ destruct (Z.eqb_spec (Z.of_nat o) (-1)); [lia|].
              apply IH; [exact Hs'|]. apply Next; lia.
        -- apply IH; [exact Hs'|]. apply Next; lia.
Qed.


(** X6: what [parse_outer_paranthesis] returns.  When it returns a
    closing index, [i_open] is the first parenthesis of the text, an
    opening one, and [i_close] is the closing parenthesis that matches
    it: the nesting depth is positive between them and back to zero at
    [i_close].  When it returns [i_close = -1], the text has no
    parenthesis or its first opening one is never closed.  It raises
    (Invalid Paranthesis) only for a closing parenthesis that comes
    before any opening one. *)
Theorem outer_parenthesis_scan (expr : pystr) :
  match parse_outer_paranthesis expr with
  | OK (i_open, i_close) =>
      (i_close = -1 /\ never_closed expr i_open)
      \/ outer_span expr i_open i_close
  | Err e => e = InvalidParenthesis /\ stray_close expr
  end.
Proof.
  apply (parse_outer_loop_result expr expr 0%nat (-1) 0); [reflexivity|].
  split; [reflexivity|]. left. split; [reflexivity | split; reflexivity].
Qed.

(** ** Texts without an opening parenthesis *)

Section NoOpening.

Lemma count_segment_zero (c : ascii) (a b : pystr) :
  segment a b -> Str.count c b = 0 -> Str.count c a = 0.
Proof.
  intros (x & y & ->) H. unfold Str.count in *.
  rewrite !filter_app, !length_app in H. lia.
Qed.

Lemma no_parenthesis_error_bind {A : Type} (r : result A)
  (k : A -> result Gate) (r' : result Gate) :
  (forall e, r = Err e -> r' = Err e) ->
  no_parenthesis_error r' ->
  (forall a, r = OK a -> no_parenthesis_error (k a)) ->
  no_parenthesis_error (bind r k).
Proof.
  intros He Hr Hk. destruct r as [a|e]; cbn [bind].
  - apply Hk. reflexivity.
  - rewrite <- (He e eq_refl). exact Hr.
Qed.

Lemma no_parenthesis_error_call (r : result Gate) (k : Gate -> result Gate) :
  no_parenthesis_error r ->
  (forall a, no_parenthesis_error (k a)) ->
  no_parenthesis_error (bind r k).
Proof.
  intros Hr Hk. apply (no_parenthesis_error_bind r k r); auto.
Qed.

Lemma no_parenthesis_error_OK (g : Gate) : no_parenthesis_error (OK g).
Proof. repeat split; discriminate. Qed.

Lemma Gate_init_no_opening (fuel : nat) :
  forall e,
    Str.count "(" (normalize_bool_fct_str (Str.strip e)) = 0 ->
    no_parenthesis_error (Gate_init fuel e).
Proof.
  induction fuel as [|fuel IH]; intros e H.
  { repeat split; discriminate. }
  cbn [Gate_init].
  pose proof (normalize_settled (Str.strip e)) as HS.
  revert H HS. generalize (normalize_bool_fct_str (Str.strip e)) as X.
  intros X H HS.
  assert (Call : forall sub, segment sub X ->
                             no_parenthesis_error (Gate_init fuel sub)).
  { intros sub Sg. apply IH.
    rewrite (settled_renormalize sub (settled_segment _ _ Sg HS)).
    apply (count_segment_zero _ _ sub).
    - unfold Str.strip_char, Str.strip.
      eapply segment_trans; [apply segment_strip|].
      eapply segment_trans; apply segment_strip.
    - apply (count_segment_zero _ _ X Sg H). }
  destruct (Str.index X 0) as [c0|x] eqn:E0; cbn [bind].
  2:{ unfold Str.index in E0. cbn [Z.ltb Z.compare Z.to_nat] in E0.
      destruct (nth_error X 0); [discriminate E0|].
      injection E0 as <-. repeat split; discriminate. }
  destruct (is_operator_symbol c0); [repeat split; discriminate|].
  rewrite H. cbn [Z.eqb negb].
  destruct (Str.count "+" X =? 0) eqn:Eplus; cbn [negb].
  2:{ pose proof (split1_spec "+" X (count_In _ _ Eplus)) as Ex.
      apply no_parenthesis_error_call.
      - apply Call. exists [], ("+"%char :: snd (Str.split1 "+" X)). exact Ex.
      - intros a. apply no_parenthesis_error_call.
        + apply Call. exists (fst (Str.split1 "+" X) ++ ["+"%char]), [].
          rewrite app_nil_r, <- app_assoc. exact Ex.
        + intros b. apply no_parenthesis_error_OK. }
  destruct (Str.count "*" X =? 0) eqn:Estar; cbn [negb].
  2:{ pose proof (split1_spec "*" X (count_In _ _ Estar)) as Ex.
      apply no_parenthesis_error_call.
      - apply Call. exists [], ("*"%char :: snd (Str.split1 "*" X)). exact Ex.
      - intros a. apply no_parenthesis_error_call.
        + apply Call. exists (fst (Str.split1 "*" X) ++ ["*"%char]), [].
          rewrite app_nil_r, <- app_assoc. exact Ex.
        + intros b. apply no_parenthesis_error_OK. }
  destruct (negb _); [|apply no_parenthesis_error_OK].
  apply no_parenthesis_error_call.
  - apply Call. destruct X as [|x m]; [discriminate E0|].
    injection E0 as ->. apply (segment_firstn 1 (c0 :: m)).
  - intros a. apply no_parenthesis_error_OK.
Qed.

End NoOpening.

(** X7: the parenthesis checks run only for a text with an opening
    parenthesis.  When the normalized text has none, no call of the
    constructor, at any depth, raises the unmatched-parenthesis, the
    invalid-parenthesis or the unknown-operator failure, however many
    closing parentheses the text holds: the text [A)] is accepted as the
    name of an input variable. *)
Theorem closing_parenthesis_unchecked (e : pystr) (fuel : nat) :
  Str.count "(" (normalize_bool_fct_str (Str.strip e)) = 0 ->
  no_parenthesis_error (Gate_init fuel e)
  /\ no_parenthesis_error (Gate_new e).
Proof.
  intros H. split; [|unfold Gate_new]; apply Gate_init_no_opening, H.
Qed.

Lemma closing_parenthesis_unchecked_witness :
  Str.count "(" (normalize_bool_fct_str (Str.strip "A)")) = 0
  /\ Str.count ")" (normalize_bool_fct_str (Str.strip "A)")) = 1
  /\ Gate_new "A)" = OK (new_gate "A)" INPUT None None)
  /\ no_parenthesis_error (Gate_init 5 "A)+B))")
  /\ no_parenthesis_error (Gate_new "A)+B))").
Proof.
  split; [reflexivity|]. split; [reflexivity|]. split; [reflexivity|].
  apply (closing_parenthesis_unchecked "A)+B))" 5). reflexivity.
Defined.

(** ** The evaluator, further *)

(** X8: an evaluation leaves nothing behind that a later one reads.
    [update] changes the cached outputs only, never the structure, the
    texts or the operators of the tree, and its result on a tree does not
    depend on the outputs cached there: evaluating an evaluated tree under
    another assignment gives what evaluating the fresh tree gives. *)
Theorem update_overwrites (g g1 : Gate) (inputs_1 inputs_2 : dict) :
  update g inputs_1 = OK g1 ->
  erase g1 = erase g
  /\ update g1 inputs_2 = update g inputs_2
  /\ update g1 inputs_1 = OK g1.
Proof.
  intros H. pose proof (update_shape _ _ _ H) as E.
  split; [exact E|]. split.
  - apply update_erase, E.
  - rewrite (update_erase inputs_1 g1 g E). exact H.
Qed.

Lemma update_overwrites_witness :
  match update example_and_not example_inputs with
  | OK g1 =>
      erase g1 = erase example_and_not
      /\ update g1 example_inputs_short
         = update example_and_not example_inputs_short
      /\ update g1 example_inputs = OK g1
  | Err _ => False
  end.
Proof.
  destruct (update example_and_not example_inputs) as [g1|x] eqn:E.
  - apply (update_overwrites example_and_not g1 example_inputs
             example_inputs_short E).
  - vm_compute in E. discriminate E.
Defined.

Lemma valid_sum_binds (inputs : dict) (ts : list (list literal)) :
  valid_sum ts = true ->
  Forall (binds inputs) ts ->
  ts <> [] /\ Forall (fun t => t <> [] /\ binds inputs t) ts.
Proof.
  intros V B. split; [destruct ts; [discriminate V | discriminate]|].
  unfold valid_sum in V. apply andb_true_iff in V. destruct V as [_ V].
  rewrite forallb_forall in V. rewrite Forall_forall in *.
  intros t Ht. split; [|apply B, Ht].
  specialize (V t Ht). destruct t; [discriminate V | discriminate].
Qed.

(** X10: an expression without a letter has no table.  When the
    expression of a circuit the constructor built has no alphabetic
    character, the single assignment is empty, no tree evaluates under
    it, and [generate_truth_table] and [sum_of_min_terms] raise a
    KeyError, both with the same key. *)
Theorem no_variable_no_table (e : pystr) (g : Gate) :
  Gate_new e = OK g ->
  extract_input_symbols (expression g) = [] ->
  exists k,
    generate_truth_table g = Err (KeyError k)
    /\ sum_of_min_terms g = Err (KeyError k).
Proof.
  intros Hg Hs.
  pose proof (update_result [] g (Gate_init_well_formed _ _ _ Hg)) as U.
  unfold update_result_ok in U.
  destruct (update_empty g) as [x Hx]. rewrite Hx in U.
  destruct U as (k & rest & _ & ->).
  assert (G : generate_truth_table g = Err (KeyError k)).
  { unfold generate_truth_table. rewrite Hs.
    cbn [List.length product table_loop map dict_zip combine rev].
    rewrite Hx. reflexivity. }
  exists k. split; [exact G|].
  unfold sum_of_min_terms. rewrite (Gate_init_truth_table _ _ _ Hg).
  cbn [List.length Nat.eqb]. rewrite G. reflexivity.
Qed.

Lemma no_variable_no_table_witness :
  Gate_new "1'" = OK (new_gate "1'" NOT (Some (new_gate "1" INPUT None None)) None)
  /\ exists k,
      generate_truth_table
        (new_gate "1'" NOT (Some (new_gate "1" INPUT None None)) None)
      = Err (KeyError k)
      /\ sum_of_min_terms
           (new_gate "1'" NOT (Some (new_gate "1" INPUT None None)) None)
         = Err (KeyError k).
Proof.
  split; [reflexivity|].
  apply (no_variable_no_table "1'"); reflexivity.
Defined.

(** ** The enumerator, further *)

Section Enumerator.

Lemma product_complete (n : nat) :
  forall inp,
    List.length inp = n -> forallb is_bitb inp = true ->
    In inp (product [0; 1] n).
Proof.
  induction n as [|n IH]; intros inp L B.
  - destruct inp; [left; reflexivity | discriminate L].
  - destruct (@exists_last _ inp) as (x & b & ->).
    { intros ->. discriminate L. }
    rewrite length_app in L. cbn [List.length] in L.
    rewrite forallb_app in B. apply andb_true_iff in B.
    destruct B as [Bx Bb].
    cbn [product]. apply in_flat_map. exists x. split.
    + apply IH; [lia | exact Bx].
    + cbn [forallb] in Bb. rewrite andb_true_r in Bb.
      destruct (is_bitb_cases b Bb) as [-> | ->]; cbn; auto.
Qed.

Lemma find_row (table : Table) (inp : list Z) :
  In inp (map fst table) ->
  exists row,
    find (fun line => if list_eq_dec Z.eq_dec (fst line) inp
                      then true else false) table = Some row
    /\ In row table /\ fst row = inp.
Proof.
  intros H. destruct (find _ table) as [row|] eqn:F.
  - apply find_some in F. destruct F as [Hin E]. exists row.
    split; [reflexivity|]. split; [exact Hin|].
    destruct (list_eq_dec Z.eq_dec (fst row) inp); [assumption | discriminate].
  - apply in_map_iff in H. destruct H as (r & E & Hr).
    pose proof (find_none _ _ F r Hr) as N. cbn beta in N.
    destruct (list_eq_dec Z.eq_dec (fst r) inp); [discriminate | contradiction].
Qed.

Lemma table_loop_error (input_symbols : list pystr) (inps : list (list Z)) :
  forall c t x,
    table_loop input_symbols inps c t = Err x ->
    exists inp,
      In inp inps
      /\ update c (dict_zip input_symbols (map PInt inp)) = Err x.
Proof.
  induction inps as [|inp inps IH]; intros c t x H; [discriminate H|].
  cbn [table_loop] in H.
  destruct (update c (dict_zip input_symbols (map PInt inp))) as [c1|e] eqn:U.
  - cbn [bind] in H. apply IH in H. destruct H as (inp' & Hin & H').
    exists inp'. split; [right; exact Hin|].
    rewrite <- H'. symmetry. apply update_erase.
    apply (update_shape _ _ _ U).
  - cbn [bind] in H. injection H as <-.
    exists inp. split; [left; reflexivity | exact U].
Qed.

Lemma variables_missing (inputs : dict) (g : Gate) :
  forall k,
    In k (variables g) -> dict_get inputs k = Err (KeyError k) ->
    In k (missing inputs g).
Proof.
  induction g as [tbl expr out op i1 i2 IH1 IH2] using Gate_induction.
  intros k H D. cbn [missing variables] in *.
  apply in_app_or in H. destruct H as [H|H].
  { destruct i1 as [a|]; [|contradiction].
    apply in_or_app. left. apply (IH1 a eq_refl k H D). }
  apply in_app_or in H. destruct H as [H|H].
  { destruct i2 as [a|]; [|contradiction].
    apply in_or_app. right. apply in_or_app. left.
    apply (IH2 a eq_refl k H D). }
  destruct op; try contradiction. destruct H as [<-|[]].
  apply in_or_app. right. apply in_or_app. right.
  rewrite D. left. reflexivity.
Qed.

Lemma dict_zip_key (keys : list pystr) (values : list pyval)
  (k : pystr) (v : pyval) :
  dict_get (dict_zip keys values) k = OK v -> In k keys.
Proof.
  unfold dict_get, dict_zip.
  destruct (find _ _) as [[k' v']|] eqn:F; [|discriminate].
  intros _. apply find_some in F. destruct F as [F E].
  rewrite <- in_rev in F. apply in_combine_l in F.
  cbn [fst] in E. apply str_eqb_eq in E. subst k'. exact F.
Qed.

Lemma generated_rows_bits (circuit : Gate) (rows : Table) :
  Forall2 (row_of circuit (extract_input_symbols (expression circuit)))
    (product [0; 1] (List.length (extract_input_symbols (expression circuit))))
    rows ->
  bit_table (List.length (extract_input_symbols (expression circuit))) rows
  = true.
Proof.
  destruct (extract_input_symbols_spec (expression circuit))
    as (chars & Es & _ & _).
  rewrite Es. fold (symbols_of chars). intros F.
  apply (table_bits circuit chars rows).
  unfold symbols_of in F at 2. rewrite length_map in F. exact F.
Qed.

End Enumerator.

(** X11: the stored table is a lookup table of the circuit.
    [generate_truth_table] changes nothing in the circuit but the table of
    the root and the cached outputs.  The table it stores passes
    [check_table], holds bits only, and for every tuple of N bits its row
    holds what the circuit evaluates to under the assignment of the tuple
    to the variable set. *)
Theorem generated_table_lookup (circuit circuit' : Gate) :
  generate_truth_table circuit = OK circuit' ->
  let input_symbols := extract_input_symbols (expression circuit) in
  let n := List.length input_symbols in
  erase circuit' = erase (set_truth_table circuit (truth_table circuit'))
  /\ check_table (truth_table circuit') n = OK tt
  /\ bit_table n (truth_table circuit') = true
  /\ forall inp,
      List.length inp = n -> forallb is_bitb inp = true ->
      exists g',
        update circuit (dict_zip input_symbols (map PInt inp)) = OK g'
        /\ table_lookup (truth_table circuit') inp
           = Some (normalize_bool (output g')).
Proof.
  intros H input_symbols n.
  apply generate_truth_table_rows in H. destruct H as [E F].
  fold input_symbols in F. fold n in F.
  pose proof (row_of_inputs _ _ _ _ F) as M.
  split; [exact E|]. split; [|split].
  - unfold check_table. apply check_loop_pass.
    intros j _. rewrite M. reflexivity.
  - apply generated_rows_bits, F.
  - intros inp L B.
    destruct (find_row (truth_table circuit') inp) as (row & Hf & Hin & Hr).
    { rewrite M. apply product_complete; assumption. }
    pose proof (row_of_In _ _ _ _ row F Hin) as (g' & Hg & Er).
    rewrite Hr in Hg. exists g'. split; [exact Hg|].
    unfold table_lookup. rewrite Hf, Er. reflexivity.
Qed.

Lemma generated_table_lookup_witness :
  generate_truth_table example_circuit = OK example_generated
  /\ table_lookup (truth_table example_generated) [1; 0] = Some 1
  /\ let input_symbols := extract_input_symbols (expression example_circuit) in
     let n := List.length input_symbols in
     erase example_generated
     = erase (set_truth_table example_circuit (truth_table example_generated))
     /\ check_table (truth_table example_generated) n = OK tt
     /\ bit_table n (truth_table example_generated) = true
     /\ forall inp,
         List.length inp = n -> forallb is_bitb inp = true ->
         exists g',
           update example_circuit (dict_zip input_symbols (map PInt inp))
           = OK g'
           /\ table_lookup (truth_table example_generated) inp
              = Some (normalize_bool (output g')).
Proof.
  split; [vm_compute; reflexivity|]. split; [vm_compute; reflexivity|].
  apply (generated_table_lookup example_circuit example_generated).
  vm_compute. reflexivity.
Defined.

(** X12: when the table is generated.  On a tree of the data model
    [generate_truth_table] returns exactly when the text of every input
    variable of the tree is one alphabetic character of the expression of
    the root; otherwise it raises the KeyError of such a text, which the
    variable set lacks: a digit, a name of two characters, a name with a
    parenthesis left in it. *)
Theorem generation_needs_letters (circuit : Gate) :
  well_formed circuit = true ->
  let input_symbols := extract_input_symbols (expression circuit) in
  ((exists circuit', generate_truth_table circuit = OK circuit')
   <-> (forall k, In k (variables circuit) -> In k input_symbols))
  /\ (forall x,
        generate_truth_table circuit = Err x ->
        exists k,
          x = KeyError k /\ In k (variables circuit) /\ ~ In k input_symbols).
Proof.
  intros W input_symbols. split; [split|].
  - intros [c' H] k Hk.
    apply generate_truth_table_rows in H. destruct H as [_ F].
    fold input_symbols in F.
    destruct (product_nth (List.length input_symbols) 0) as (inp & Hn & _).
    { apply Nat.neq_0_lt_0, Nat.pow_nonzero. discriminate. }
    destruct (product [0; 1] (List.length input_symbols)) as [|i0 inps];
      [discriminate Hn|].
    injection Hn as ->. inversion F as [|? row ? rows (g' & Hg & _) _]; subst.
    pose proof (update_result (dict_zip input_symbols (map PInt inp))
                  circuit W) as U.
    unfold update_result_ok in U. rewrite Hg in U. destruct U as (_ & _ & Hm).
    destruct (dict_get_cases (dict_zip input_symbols (map PInt inp)) k)
      as [[v Hv]|Hv].
    + apply (dict_zip_key _ _ _ _ Hv).
    + pose proof (variables_missing _ circuit k Hk Hv) as Hin.
      rewrite Hm in Hin. contradiction.
  - intros V. apply generate_truth_table_returns; assumption.
  - intros x H. unfold generate_truth_table in H. fold input_symbols in H.
    destruct (table_loop input_symbols _ circuit []) as [[c t]|e] eqn:L;
      [discriminate H|].
    cbn [bind] in H. injection H as <-.
    apply table_loop_error in L. destruct L as (inp & Hinp & U).
    pose proof (update_result (dict_zip input_symbols (map PInt inp))
                  circuit W) as R.
    unfold update_result_ok in R. rewrite U in R.
    destruct R as (k & rest & Hm & ->).
    destruct (missing_variables
                (dict_zip input_symbols (map PInt inp)) circuit k)
      as [Hv Hd].
    { rewrite Hm. left. reflexivity. }
    exists k. split; [reflexivity|]. split; [exact Hv|].
    intros Hk.
    destruct (extract_input_symbols_spec (expression circuit))
      as (chars & Es & D & _).
    fold input_symbols in Es. fold (symbols_of chars) in Es.
    rewrite Es in *. apply in_map_iff in Hk. destruct Hk as (c & <- & Hc).
    destruct (product_In _ _ Hinp) as [Li _].
    unfold symbols_of in Li. rewrite length_map in Li.
    destruct (in_combine_of_length chars inp c Li Hc) as [b Hb].
    rewrite (dict_zip_get chars inp c b (descending_NoDup _ D) Hb) in Hd.
    discriminate Hd.
Qed.

Lemma generation_needs_letters_witness :
  Gate_new "A1" = OK (new_gate "A1" INPUT None None)
  /\ generate_truth_table (new_gate "A1" INPUT None None)
     = Err (KeyError "A1")
  /\ well_formed (new_gate "A1" INPUT None None) = true
  /\ let circuit := new_gate "A1" INPUT None None in
     let input_symbols := extract_input_symbols (expression circuit) in
     ((exists circuit', generate_truth_table circuit = OK circuit')
      <-> (forall k, In k (variables circuit) -> In k input_symbols))
     /\ (forall x,
           generate_truth_table circuit = Err x ->
           exists k,
             x = KeyError k /\ In k (variables circuit)
             /\ ~ In k input_symbols).
Proof.
  split; [reflexivity|]. split; [reflexivity|]. split; [reflexivity|].
  apply (generation_needs_letters (new_gate "A1" INPUT None None)).
  reflexivity.
Defined.

(** ** The minterm builder, further *)

Section Builder.

Lemma minterm_row_result (inp : list Z) :
  forall input_symbols,
    minterm_row input_symbols inp
    = if Nat.leb (List.length inp) (List.length input_symbols)
      then OK (map (fun sb => truthy_literal (fst sb) (snd sb))
                 (combine input_symbols inp))
      else Err IndexError.
Proof.
  unfold minterm_row.
  induction inp as [|bit inp IH]; intros syms.
  - destruct syms; reflexivity.
  - destruct syms as [|sym syms]; [reflexivity|].
    cbn [List.length]. rewrite <- cons_seq, <- seq_shift.
    cbn [comprehension list_index nth_error bind combine map fst snd].
    rewrite comprehension_map.
    rewrite (comprehension_ext _
               (fun i => b <- list_index inp i ;;
                         sym <- list_index syms i ;;
                         OK (if negb (b =? 0) then sym else sym ++ "'")))
      by (intros; reflexivity).
    rewrite (IH syms). cbn [Nat.leb].
    destruct (Nat.leb (List.length inp) (List.length syms)); [|reflexivity].
    cbn [bind]. unfold truthy_literal.
    destruct (bit =? 0); reflexivity.
Qed.

Lemma minterm_loop_result (input_symbols : list pystr) (table : Table) :
  forall min_terms,
    minterm_loop input_symbols table min_terms
    = if fits input_symbols table
      then OK (min_terms
                 ++ map (fun line => truthy_term input_symbols (fst line))
                      (true_rows table))
      else Err IndexError.
Proof.
  unfold fits.
  induction table as [|line table IH]; intros acc.
  - cbn. rewrite app_nil_r. reflexivity.
  - cbn [minterm_loop true_rows filter].
    destruct (negb (snd line =? 0)).
    + rewrite minterm_row_result. cbn [forallb map].
      destruct (Nat.leb (List.length (fst line)) (List.length input_symbols));
        [|reflexivity].
      cbn [bind andb]. rewrite IH. fold (true_rows table).
      destruct (forallb _ (true_rows table)); [|reflexivity].
      rewrite join_empty_concat, <- app_assoc. reflexivity.
    + apply IH.
Qed.

Lemma build_minterms_result (table : Table) (input_symbols : list pystr) :
  build_minterms table (Some input_symbols)
  = if fits input_symbols table
    then OK (truthy_minterms input_symbols table)
    else Err IndexError.
Proof.
  unfold build_minterms. cbn [bind]. rewrite minterm_loop_result.
  destruct (fits input_symbols table); reflexivity.
Qed.

Lemma default_symbols_sorted (n : nat) :
  (n <= 26)%nat ->
  default_symbols n = extract_input_symbols (firstn n ascii_uppercase)
  /\ List.length (default_symbols n) = n.
Proof.
  intros H.
  do 27 (destruct n as [|n]; [split; vm_compute; reflexivity|]).
  lia.
Qed.

Lemma default_symbols_length (n : nat) :
  List.length (default_symbols n) = Nat.min n 26.
Proof.
  unfold default_symbols. rewrite length_rev, length_map, length_firstn.
  reflexivity.
Qed.

End Builder.

(** X13: what [build_minterms] returns on any table and any list of
    symbols.  A row counts when its output is not 0, and a variable is
    written bare when its bit is not 0; the rows whose output is 0 are not
    read at all.  The result is the IndexError exactly when a row that
    counts has more inputs than there are symbols, and otherwise the terms
    of the rows that count, the last row first, joined by [" + "]; a row
    shorter than the list of symbols uses the first symbols only. *)
Theorem build_minterms_any_table (table : Table) (input_symbols : list pystr) :
  build_minterms table (Some input_symbols)
  = (if fits input_symbols table
     then OK (truthy_minterms input_symbols table)
     else Err IndexError)
  /\ (bit_table (List.length input_symbols) table = true ->
      fits input_symbols table = true
      /\ truthy_minterms input_symbols table
         = spec_minterms input_symbols table).
Proof.
  split; [apply build_minterms_result|].
  intros B. pose proof (build_minterms_spec _ _ B) as E.
  rewrite build_minterms_result in E.
  destruct (fits input_symbols table); [|discriminate E].
  injection E as E. split; [reflexivity | exact E].
Qed.

(** ** The table loader, further *)

Section LoaderFacts.

Lemma comprehension_Forall2 {A B : Type} (f : A -> result B) (l : list A) :
  forall r, comprehension f l = OK r -> Forall2 (fun a b => f a = OK b) l r.
Proof.
  induction l as [|a l IH]; intros r H.
  - injection H as <-. constructor.
  - cbn [comprehension] in H.
    destruct (f a) as [b|] eqn:Fa; [|discriminate H]. cbn [bind] in H.
    destruct (comprehension f l) as [bs|]; [|discriminate H].
    cbn [bind] in H. injection H as <-.
    constructor; [exact Fa | apply IH; reflexivity].
Qed.

Lemma comprehension_error {A B : Type} (f : A -> result B) (a : list A) :
  forall r x b e,
    comprehension f a = OK r -> f x = Err e ->
    comprehension f (a ++ x :: b) = Err e.
Proof.
  induction a as [|y a IH]; intros r x b e H Hx.
  - cbn [app comprehension]. rewrite Hx. reflexivity.
  - cbn [app comprehension] in *.
    destruct (f y) as [v|]; [|discriminate H]. cbn [bind] in *.
    destruct (comprehension f a) as [bs|] eqn:C; [|discriminate H].
    rewrite (IH bs x b e eq_refl Hx). reflexivity.
Qed.

Lemma check_loop_sound (table : Table) (inps : list (list Z)) :
  forall i,
    check_loop table inps i = OK tt ->
    forall j, (j < List.length inps)%nat ->
              nth_error (map fst table) (i + j) = nth_error inps j.
Proof.
  induction inps as [|inp inps IH]; intros i H j Hj; [simpl in Hj; lia|].
  cbn [check_loop] in H. unfold list_index in H.
  destruct (nth_error table i) as [row|] eqn:R; [|discriminate H].
  cbn [bind] in H.
  destruct (list_eq_dec Z.eq_dec (fst row) inp) as [E|]; [|discriminate H].
  destruct j as [|j].
  - rewrite Nat.add_0_r, nth_error_map, R. cbn. f_equal. exact E.
  - replace (i + S j)%nat with (S i + j)%nat by lia.
    cbn [nth_error]. apply (IH (S i) H). simpl in Hj. lia.
Qed.

Lemma check_table_sound (table : Table) (n : nat) :
  List.length table = (2 ^ n)%nat ->
  check_table table n = OK tt ->
  map fst table = product [0; 1] n.
Proof.
  intros L H. apply nth_error_ext. intros j.
  destruct (Nat.lt_ge_cases j (2 ^ n)) as [Hj|Hj].
  - apply (check_loop_sound table _ 0 H j). rewrite product_length. exact Hj.
  - rewrite (proj2 (nth_error_None _ _)) by (rewrite length_map; lia).
    symmetry. apply nth_error_None. rewrite product_length. exact Hj.
Qed.

Lemma parse_line_tokens (line : pystr) (row : list Z * Z) :
  parse_line line = OK row ->
  List.length (split (Str.strip line)) = S (List.length (fst row)).
Proof.
  unfold parse_line. intros H.
  destruct (comprehension py_int (removelast (split (Str.strip line))))
    as [inp|] eqn:C; [|discriminate H].
  cbn [bind] in H.
  destruct (list_index (rev (split (Str.strip line))) 0) as [t|] eqn:I;
    [|discriminate H].
  cbn [bind] in H. destruct (py_int t); [|discriminate H].
  cbn [bind] in H. injection H as <-. cbn [fst].
  apply comprehension_Forall2, Forall2_length in C. rewrite <- C.
  destruct (@exists_last _ (split (Str.strip line))) as (l & x & ->).
  { intros E. rewrite E in I. discriminate I. }
  rewrite removelast_last, length_app. cbn [List.length]. lia.
Qed.

Lemma lstrip_all (p : ascii -> bool) (s : pystr) :
  forallb p s = true -> Str.lstrip p s = [].
Proof.
  induction s as [|c s IH]; [reflexivity|].
  cbn [forallb Str.lstrip]. intros H. apply andb_true_iff in H.
  destruct H as [-> H]. apply IH, H.
Qed.

Lemma split_loop_blank (s : pystr) :
  forallb Str.isspace s = true -> split_loop s [] = [].
Proof.
  induction s as [|c s IH]; [reflexivity|].
  cbn [forallb split_loop]. intros H. apply andb_true_iff in H.
  destruct H as [-> H]. apply IH, H.
Qed.

Lemma parse_line_blank (line : pystr) :
  forallb Str.isspace line = true -> parse_line line = Err IndexError.
Proof.
  intros H. unfold parse_line, Str.strip, Str.strip_pred, split.
  rewrite (lstrip_all _ _ H). reflexivity.
Qed.

Lemma read_table_unfold (l0 : pystr) (rest : list pystr)
  (inp : list Z) (out : Z) :
  parse_line l0 = OK (inp, out) ->
  read_table_from_lines (l0 :: rest)
  = if Z.of_nat (S (List.length rest)) <? 2 ^ Z.of_nat (List.length inp)
    then Err IncompleteTable
    else if Z.of_nat (S (List.length rest)) >? 2 ^ Z.of_nat (List.length inp)
         then Err OverdefinedTable
         else
           rows <- comprehension parse_line rest ;;
           _ <- check_table ((inp, out) :: rows) (List.length inp) ;;
           OK ((inp, out) :: rows).
Proof.
  intros Hp. unfold read_table_from_lines, list_index.
  cbn [nth_error bind]. rewrite Hp. reflexivity.
Qed.

Lemma read_table_sound (lines : list pystr) (table : Table) :
  read_table_from_lines lines = OK table ->
  exists n,
    List.length lines = (2 ^ n)%nat
    /\ map fst table = product [0; 1] n
    /\ Forall2 (fun line row => parse_line line = OK row) lines table.
Proof.
  intros H. destruct lines as [|l0 rest]; [discriminate H|].
  destruct (parse_line l0) as [[inp out]|] eqn:Hp.
  2:{ unfold read_table_from_lines, list_index in H.
      cbn [nth_error bind] in H. rewrite Hp in H. discriminate H. }
  rewrite (read_table_unfold _ _ _ _ Hp) in H.
  rewrite <- two_power in H.
  destruct (Z.ltb_spec (Z.of_nat (S (List.length rest)))
              (Z.of_nat (2 ^ List.length inp))) as [|L1]; [discriminate H|].
  destruct (Z.gtb_spec (Z.of_nat (S (List.length rest)))
              (Z.of_nat (2 ^ List.length inp))) as [|L2]; [discriminate H|].
  destruct (comprehension parse_line rest) as [rows|] eqn:C;
    [|discriminate H].
  cbn [bind] in H.
  destruct (check_table ((inp, out) :: rows) (List.length inp)) as [[]|] eqn:K;
    [|discriminate H].
  cbn [bind] in H. injection H as <-.
  apply comprehension_Forall2 in C.
  exists (List.length inp).
  assert (Ll : List.length (l0 :: rest) = (2 ^ List.length inp)%nat)
    by (cbn [List.length]; lia).
  split; [exact Ll|]. split.
  - apply check_table_sound; [|exact K].
    cbn [List.length] in *. rewrite <- (Forall2_length C). exact Ll.
  - constructor; [exact Hp | exact C].
Qed.

End LoaderFacts.

(** X14: whatever the loader returns is a complete table in canonical
    order.  When [read_table_from_file] returns a table, the file has 2^N
    lines for some N, line [i] of the file parsed gives row [i] of the
    table, every line has N+1 fields, and the inputs of the rows are the
    tuples of N bits in the order of the enumeration.  Nothing is
    concluded about the last field of a line, which the loader does not
    check: the file with the lines [0 7] and [1 0] is loaded with the
    output 7. *)
Theorem loaded_table_canonical (lines : list pystr) (table : Table) :
  read_table_from_lines lines = OK table ->
  exists n,
    List.length lines = (2 ^ n)%nat
    /\ List.length table = (2 ^ n)%nat
    /\ map fst table = product [0; 1] n
    /\ check_table table n = OK tt
    /\ Forall2 (fun line row =>
                  parse_line line = OK row
                  /\ List.length (split (Str.strip line)) = S n
                  /\ List.length (fst row) = n
                  /\ forallb is_bitb (fst row) = true)
         lines table.
Proof.
  intros H. destruct (read_table_sound lines table H) as (n & L & M & F).
  exists n. split; [exact L|].
  split; [rewrite <- (Forall2_length F); exact L|].
  split; [exact M|]. split.
  - unfold check_table. apply check_loop_pass.
    intros j _. rewrite M. reflexivity.
  - eapply Forall2_impl_In; [exact F|].
    intros line row _ Hrow Hp. cbn beta in Hp.
    destruct (product_In n (fst row)) as [Lr Br].
    { rewrite <- M. apply in_map, Hrow. }
    split; [exact Hp|]. split; [|split; assumption].
    rewrite (parse_line_tokens line row Hp), Lr. reflexivity.
Qed.

Lemma loaded_table_canonical_witness :
  read_table_from_lines example_file_wide = OK [([0], 7); ([1], 0)]
  /\ exists n,
      List.length example_file_wide = (2 ^ n)%nat
      /\ List.length [([0], 7); ([1], 0)] = (2 ^ n)%nat
      /\ map fst [([0], 7); ([1], 0)] = product [0; 1] n
      /\ check_table [([0], 7); ([1], 0)] n = OK tt
      /\ Forall2 (fun line row =>
                    parse_line line = OK row
                    /\ List.length (split (Str.strip line)) = S n
                    /\ List.length (fst row) = n
                    /\ forallb is_bitb (fst row) = true)
           example_file_wide [([0], 7); ([1], 0)].
Proof.
  split; [reflexivity|].
  apply (loaded_table_canonical example_file_wide [([0], 7); ([1], 0)]).
  reflexivity.
Defined.

(** X15: the sum of minterms of a loaded table.  The builder names the N
    columns of a table that comes from a file by the first N capital
    letters, the last column [A]: the order in which the variable set of
    an expression over these letters is listed.  For a table the loader
    returned with at most 26 columns the builder returns the terms of the
    rows whose output is not 0, and with more columns than letters it
    raises the IndexError as soon as one row counts. *)
Theorem loaded_table_minterms (lines : list pystr) (table : Table) :
  read_table_from_lines lines = OK table ->
  exists n,
    map fst table = product [0; 1] n
    /\ ((n <= 26)%nat ->
        build_minterms table None
        = OK (truthy_minterms (default_symbols n) table)
        /\ default_symbols n
           = extract_input_symbols (firstn n ascii_uppercase))
    /\ ((26 < n)%nat ->
        build_minterms table None
        = if match true_rows table with [] => true | _ => false end
          then OK [] else Err IndexError).
Proof.
  intros H. destruct (read_table_sound lines table H) as (n & L & M & F).
  exists n. split; [exact M|].
  assert (Hrow : forall row, In row table -> List.length (fst row) = n).
  { intros row Hin. apply (product_In n). rewrite <- M. apply in_map, Hin. }
  assert (U : build_minterms table None
              = build_minterms table (Some (default_symbols n))).
  { destruct table as [|row table].
    - exfalso. apply (f_equal (@List.length _)) in M.
      rewrite product_length in M. cbn in M.
      pose proof (Nat.pow_nonzero 2 n ltac:(discriminate)). lia.
    - unfold build_minterms, list_index. cbn [nth_error bind].
      rewrite (Hrow row (or_introl eq_refl)). reflexivity. }
  rewrite U, build_minterms_result. split.
  - intros Hn. destruct (default_symbols_sorted n Hn) as [Es Ls].
    split; [|exact Es].
    replace (fits (default_symbols n) table) with true; [reflexivity|].
    symmetry. unfold fits. apply forallb_forall. intros row Hin.
    apply filter_In in Hin. destruct Hin as [Hin _].
    rewrite (Hrow row Hin), Ls. apply Nat.leb_refl.
  - intros Hn. unfold fits, truthy_minterms.
    destruct (true_rows table) as [|row rows] eqn:T; [reflexivity|].
    assert (Hin : In row table).
    { assert (Hr : In row (true_rows table)) by (rewrite T; left; reflexivity).
      apply filter_In in Hr. apply Hr. }
    cbn [forallb]. rewrite (Hrow row Hin), default_symbols_length.
    replace (Nat.leb n (Nat.min n 26)) with false; [reflexivity|].
    symmetry. apply Nat.leb_gt. lia.
Qed.

Lemma loaded_table_minterms_witness :
  read_table_from_lines example_file
  = OK [([0; 0], 1); ([0; 1], 0); ([1; 0], 0); ([1; 1], 1)]
  /\ build_minterms [([0; 0], 1); ([0; 1], 0); ([1; 0], 0); ([1; 1], 1)] None
     = OK ("BA + B'A'" : pystr)
  /\ exists n,
      map fst [([0; 0], 1); ([0; 1], 0); ([1; 0], 0); ([1; 1], 1)]
      = product [0; 1] n
      /\ ((n <= 26)%nat ->
          build_minterms
            [([0; 0], 1); ([0; 1], 0); ([1; 0], 0); ([1; 1], 1)] None
          = OK (truthy_minterms (default_symbols n)
                  [([0; 0], 1); ([0; 1], 0); ([1; 0], 0); ([1; 1], 1)])
          /\ default_symbols n
             = extract_input_symbols (firstn n ascii_uppercase))
      /\ ((26 < n)%nat ->
          build_minterms
            [([0; 0], 1); ([0; 1], 0); ([1; 0], 0); ([1; 1], 1)] None
          = if match true_rows
                      [([0; 0], 1); ([0; 1], 0); ([1; 0], 0); ([1; 1], 1)]
                  with [] => true | _ => false end
            then OK [] else Err IndexError).
Proof.
  split; [reflexivity|]. split; [reflexivity|].
  apply (loaded_table_minterms example_file
           [([0; 0], 1); ([0; 1], 0); ([1; 0], 0); ([1; 1], 1)]).
  reflexivity.
Defined.

(** X16: a file without lines and a blank line.  The loader raises the
    IndexError on an empty file and on a file whose first line is blank;
    a blank line further down raises it too, when the number of lines is
    2^N and the lines before it parse: the count is checked before the
    other lines are read. *)
Theorem blank_line_index_error (blank : pystr) :
  forallb Str.isspace blank = true ->
  read_table_from_lines [] = Err IndexError
  /\ (forall rest, read_table_from_lines (blank :: rest) = Err IndexError)
  /\ (forall l0 a b inp out rows,
        parse_line l0 = OK (inp, out) ->
        comprehension parse_line a = OK rows ->
        List.length (l0 :: a ++ blank :: b) = (2 ^ List.length inp)%nat ->
        read_table_from_lines (l0 :: a ++ blank :: b) = Err IndexError).
Proof.
  intros Hb. pose proof (parse_line_blank blank Hb) as Pb.
  split; [reflexivity|]. split.
  - intros rest. unfold read_table_from_lines, list_index.
    cbn [nth_error bind]. rewrite Pb. reflexivity.
  - intros l0 a b inp out rows Hp Ha Hl.
    rewrite (read_table_unfold _ _ _ _ Hp). rewrite <- two_power.
    cbn [List.length] in Hl.
    destruct (Z.ltb_spec (Z.of_nat (S (List.length (a ++ blank :: b))))
                (Z.of_nat (2 ^ List.length inp))); [lia|].
    destruct (Z.gtb_spec (Z.of_nat (S (List.length (a ++ blank :: b))))
                (Z.of_nat (2 ^ List.length inp))); [lia|].
    rewrite (comprehension_error parse_line a rows blank b IndexError Ha Pb).
    reflexivity.
Qed.

Lemma blank_line_index_error_witness :
  forallb Str.isspace (file_line "") = true
  /\ read_table_from_lines example_file_blank = Err IndexError
  /\ read_table_from_lines [] = Err IndexError
  /\ (forall rest,
        read_table_from_lines (file_line "" :: rest) = Err IndexError)
  /\ (forall l0 a b inp out rows,
        parse_line l0 = OK (inp, out) ->
        comprehension parse_line a = OK rows ->
        List.length (l0 :: a ++ file_line "" :: b)
        = (2 ^ List.length inp)%nat ->
        read_table_from_lines (l0 :: a ++ file_line "" :: b)
        = Err IndexError).
Proof.
  split; [reflexivity|]. split; [reflexivity|].
  apply (blank_line_index_error (file_line "")). reflexivity.
Defined.

Lemma loaded_table_rows (lines : list pystr) (table : Table) :
  read_table_from_lines lines = OK table ->
  forall n,
    map fst table = product [0; 1] n ->
    exists row rest, table = row :: rest /\ List.length (fst row) = n.
Proof.
  intros _ n M. destruct table as [|row rest].
  - exfalso. apply (f_equal (@List.length _)) in M.
    rewrite product_length in M. cbn in M.
    pose proof (Nat.pow_nonzero 2 n ltac:(discriminate)). lia.
  - exists row, rest. split; [reflexivity|].
    apply (product_In n). rewrite <- M. left. reflexivity.
Qed.

(** ** The stored table is reused *)

Section Caching.

Lemma generated_table_length (circuit circuit' : Gate) :
  generate_truth_table circuit = OK circuit' ->
  expression circuit' = expression circuit
  /\ List.length (truth_table circuit')
     = (2 ^ List.length (extract_input_symbols (expression circuit)))%nat
  /\ bit_table (List.length (extract_input_symbols (expression circuit)))
       (truth_table circuit') = true.
Proof.
  intros H. apply generate_truth_table_rows in H. destruct H as [E F].
  split; [apply erase_expression in E; exact E|]. split.
  - rewrite <- (length_map fst), (row_of_inputs _ _ _ _ F).
    apply product_length.
  - apply generated_rows_bits, F.
Qed.

Lemma two_power_nonzero (n : nat) : ((2 ^ n =? 0) = false)%nat.
Proof. apply Nat.eqb_neq, Nat.pow_nonzero. discriminate. Qed.

Lemma sum_of_min_terms_state_snd (circuit : Gate) :
  sum_of_min_terms circuit
  = (r <- sum_of_min_terms_state circuit ;; OK (snd r)).
Proof.
  unfold sum_of_min_terms, sum_of_min_terms_state.
  destruct (if (List.length (truth_table circuit) =? 0)%nat
            then generate_truth_table circuit else OK circuit) as [c|];
    [|reflexivity].
  cbn [bind]. destruct (build_minterms _ _); reflexivity.
Qed.


End Caching.

(** X17: the table is generated once.  [sum_of_min_terms] generates the
    table only when the circuit holds none, and leaves it in the circuit:
    after a call that returned, the circuit holds a table, and a second
    call returns the same string and changes nothing.  A circuit that
    already holds a table is not touched. *)
Theorem minterms_cached (circuit circuit_1 : Gate) (s : pystr) :
  sum_of_min_terms_state circuit = OK (circuit_1, s) ->
  sum_of_min_terms circuit = OK s
  /\ truth_table circuit_1 <> []
  /\ sum_of_min_terms_state circuit_1 = OK (circuit_1, s)
  /\ sum_of_min_terms circuit_1 = OK s
  /\ (truth_table circuit = [] -> generate_truth_table circuit = OK circuit_1)
  /\ (truth_table circuit <> [] -> circuit_1 = circuit).
Proof.
  intros H.
  assert (S1 : sum_of_min_terms circuit = OK s).
  { rewrite sum_of_min_terms_state_snd, H. reflexivity. }
  assert (K : truth_table circuit_1 <> []
              /\ sum_of_min_terms_state circuit_1 = OK (circuit_1, s)
              /\ (truth_table circuit = [] ->
                  generate_truth_table circuit = OK circuit_1)
              /\ (truth_table circuit <> [] -> circuit_1 = circuit)).
  { unfold sum_of_min_terms_state in H.
    destruct (truth_table circuit) as [|row rows] eqn:T.
    - cbn [List.length Nat.eqb] in H.
      destruct (generate_truth_table circuit) as [c|] eqn:G;
        [|discriminate H].
      cbn [bind] in H.
      destruct (build_minterms _ _) as [m|] eqn:Bm; [|discriminate H].
      cbn [bind] in H. injection H as <- <-.
      destruct (generated_table_length _ _ G) as (_ & L & _).
      assert (N : (List.length (truth_table c) =? 0)%nat = false)
        by (rewrite L; apply two_power_nonzero).
      split; [|split; [|split]].
      + intros E. rewrite E in N. discriminate N.
      + unfold sum_of_min_terms_state. rewrite N. cbn [bind].
        rewrite Bm. reflexivity.
      + reflexivity.
      + intros C. contradiction.
    - cbn [List.length Nat.eqb bind] in H.
      destruct (build_minterms _ _) as [m|] eqn:Bm; [|discriminate H].
      cbn [bind] in H. injection H as <- <-.
      split; [|split; [|split]].
      + rewrite T. discriminate.
      + unfold sum_of_min_terms_state. rewrite T.
        cbn [List.length Nat.eqb bind]. rewrite Bm. reflexivity.
      + discriminate.
      + reflexivity. }
  destruct K as (K1 & K2 & K3 & K4).
  split; [exact S1|]. split; [exact K1|]. split; [exact K2|].
  split; [|split; assumption].
  rewrite sum_of_min_terms_state_snd, K2. reflexivity.
Qed.

Lemma minterms_cached_witness :
  sum_of_min_terms_state example_circuit
  = OK (example_generated, "F = BA + BA' + B'A" : pystr)
  /\ sum_of_min_terms example_circuit = OK ("F = BA + BA' + B'A" : pystr)
  /\ truth_table example_generated <> []
  /\ sum_of_min_terms_state example_generated
     = OK (example_generated, "F = BA + BA' + B'A" : pystr)
  /\ sum_of_min_terms example_generated = OK ("F = BA + BA' + B'A" : pystr)
  /\ (truth_table example_circuit = [] ->
      generate_truth_table example_circuit = OK example_generated)
  /\ (truth_table example_circuit <> [] ->
      example_generated = example_circuit).
Proof.
  split; [vm_compute; reflexivity|].
  apply (minterms_cached example_circuit example_generated
           "F = BA + BA' + B'A").
  vm_compute. reflexivity.
Defined.

(** ** The printed table *)

Section Printing.

Lemma fold_left_append {A B : Type} (f : A -> B) (l : list A) :
  forall init,
    fold_left (fun acc a => acc ++ [f a]) l init = init ++ map f l.
Proof.
  induction l as [|a l IH]; intros init; cbn [fold_left map].
  - rewrite app_nil_r. reflexivity.
  - rewrite IH, <- app_assoc. reflexivity.
Qed.

Lemma print_truth_table_text (table : Table) (input_symbols : list pystr) :
  print_truth_table table (Some input_symbols)
  = OK (Str.join newline (table_lines input_symbols table)).
Proof.
  unfold print_truth_table. cbn [bind].
  rewrite (fold_left_append row_text). reflexivity.
Qed.

Lemma lines_loop_app (l rest : pystr) :
  one_line l = true ->
  forall cur, lines_loop (l ++ rest) cur = lines_loop rest (cur ++ l).
Proof.
  unfold one_line.
  induction l as [|c l IH]; intros H cur.
  - rewrite app_nil_r. reflexivity.
  - cbn [forallb] in H. apply andb_true_iff in H. destruct H as [Hc H].
    cbn [app lines_loop]. apply negb_true_iff in Hc. rewrite Hc.
    rewrite (IH H). rewrite <- app_assoc. reflexivity.
Qed.

Lemma lines_of_join (x : pystr) (l : list pystr) :
  forallb one_line (x :: l) = true ->
  lines_of (Str.join newline (x :: l)) = x :: l.
Proof.
  unfold lines_of. revert x.
  induction l as [|y l IH]; intros x H.
  - cbn [forallb] in H. apply andb_true_iff in H. destruct H as [Hx _].
    cbn [Str.join]. rewrite <- (app_nil_r x) at 1.
    rewrite (lines_loop_app x [] Hx). reflexivity.
  - cbn [forallb] in H. apply andb_true_iff in H. destruct H as [Hx H].
    rewrite join_cons2, (lines_loop_app x _ Hx).
    unfold newline at 1. cbn [app lines_loop]. rewrite Ascii.eqb_refl.
    f_equal. apply (IH y H).
Qed.

Lemma uint_chars (d : Decimal.uint) :
  forallb sign_or_digit
    (list_ascii_of_string (DecimalString.NilEmpty.string_of_uint d)) = true.
Proof.
  induction d; cbn [DecimalString.NilEmpty.string_of_uint
                      list_ascii_of_string forallb];
    [reflexivity | rewrite IHd; reflexivity ..].
Qed.

Lemma str_of_int_chars (z : Z) : forallb sign_or_digit (str_of_int z) = true.
Proof.
  unfold str_of_int, DecimalString.NilZero.string_of_int,
    DecimalString.NilZero.string_of_uint.
  destruct (Z.to_int z) as [d|d].
  - destruct d; try apply uint_chars. reflexivity.
  - cbn [list_ascii_of_string forallb].
    destruct d; try (rewrite uint_chars; reflexivity). reflexivity.
Qed.

Lemma sign_or_digit_line (c : ascii) :
  sign_or_digit c = true -> negb (Ascii.eqb c "010") = true.
Proof.
  intros H. destruct (Ascii.eqb_spec c "010") as [->|]; [|reflexivity].
  discriminate H.
Qed.

Lemma one_line_app (a b : pystr) :
  one_line (a ++ b) = (one_line a && one_line b)%bool.
Proof. apply forallb_app. Qed.

Lemma one_line_join (sep : pystr) (l : list pystr) :
  one_line sep = true -> forallb one_line l = true ->
  one_line (Str.join sep l) = true.
Proof.
  intros Hs. induction l as [|x [|y l] IH]; intros H; [reflexivity | |].
  - cbn [forallb] in H. apply andb_true_iff in H. apply H.
  - rewrite join_cons2, !one_line_app, Hs.
    cbn [forallb] in H. apply andb_true_iff in H. destruct H as [-> H].
    rewrite (IH H). reflexivity.
Qed.

Lemma str_of_int_line (z : Z) : one_line (str_of_int z) = true.
Proof.
  unfold one_line. apply forallb_forall. intros c Hc.
  apply sign_or_digit_line.
  pose proof (str_of_int_chars z) as H. rewrite forallb_forall in H.
  apply H, Hc.
Qed.

Lemma row_text_line (line : list Z * Z) : one_line (row_text line) = true.
Proof.
  unfold row_text. rewrite !one_line_app, str_of_int_line.
  rewrite one_line_join; [reflexivity | reflexivity|].
  apply forallb_forall. intros s Hs. apply in_map_iff in Hs.
  destruct Hs as (z & <- & _). apply str_of_int_line.
Qed.

Lemma str_times_length (s : pystr) (n : nat) :
  List.length (str_times s n) = (n * List.length s)%nat.
Proof.
  unfold str_times. induction n as [|n IH]; [reflexivity|].
  cbn [repeat List.concat]. rewrite length_app, IH. cbn [Nat.mul]. reflexivity.
Qed.

Lemma str_times_line (s : pystr) (n : nat) :
  one_line s = true -> one_line (str_times s n) = true.
Proof.
  intros H. unfold str_times. induction n as [|n IH]; [reflexivity|].
  cbn [repeat List.concat]. rewrite one_line_app, H. exact IH.
Qed.

Lemma table_lines_line (input_symbols : list pystr) (table : Table) :
  forallb one_line input_symbols = true ->
  forallb one_line (table_lines input_symbols table) = true.
Proof.
  intros H. unfold table_lines. cbn [forallb].
  apply andb_true_iff. split; [|apply andb_true_iff; split].
  - unfold header_text.
    rewrite !one_line_app, (one_line_join tab _ eq_refl H). reflexivity.
  - unfold rule_text. apply str_times_line. reflexivity.
  - apply forallb_forall. intros s Hs. apply in_map_iff in Hs.
    destruct Hs as (line & <- & _). apply row_text_line.
Qed.

End Printing.

(** X18: the text of the table.  With a list of symbols
    [print_truth_table] never raises.  It prints one text, whose lines are
    a heading with the symbols and [F], a rule of eight dashes for every
    column, and one line for every row of the table, in the order of the
    table: when no symbol holds a newline the text has two lines more than
    the table has rows, the row lines have no blank line among them, and
    line [i+2] is written from row [i] alone. *)
Theorem printed_table_lines (table : Table) (input_symbols : list pystr) :
  print_truth_table table (Some input_symbols)
  = OK (Str.join newline (table_lines input_symbols table))
  /\ List.length (rule_text (List.length input_symbols))
     = (8 * (List.length input_symbols + 1))%nat
  /\ (forallb one_line input_symbols = true ->
      lines_of (Str.join newline (table_lines input_symbols table))
      = table_lines input_symbols table
      /\ List.length
           (lines_of (Str.join newline (table_lines input_symbols table)))
         = (List.length table + 2)%nat
      /\ forall i row,
          nth_error table i = Some row ->
          nth_error
            (lines_of (Str.join newline (table_lines input_symbols table)))
            (i + 2)
          = Some (row_text row)).
Proof.
  split; [apply print_truth_table_text|]. split.
  - unfold rule_text. rewrite str_times_length.
    change (List.length (list_ascii_of_string "--------")) with 8%nat. lia.
  - intros H.
    assert (E : lines_of (Str.join newline (table_lines input_symbols table))
                = table_lines input_symbols table).
    { unfold table_lines at 1.
      rewrite lines_of_join; [reflexivity|].
      apply (table_lines_line input_symbols table H). }
    rewrite E. split; [reflexivity|]. split.
    + unfold table_lines. cbn [List.length]. rewrite length_map. lia.
    + intros i row Hi. unfold table_lines.
      replace (i + 2)%nat with (S (S i)) by lia. cbn [nth_error].
      rewrite nth_error_map, Hi. reflexivity.
Qed.

(** ** The command line *)

Section Main.



End Main.


(** X20: what [main] prints for a table file.  With [-r] and without
    [-F] the line [Reading truth table...] is printed first, and an
    exception of the loader follows it.  For a table the loader returned
    with at most 26 columns, the heading and the sum of minterms are
    printed, followed with [-t] by the line [Truth Table:] and the text of
    the table under the same column names, and [main] returns 0. *)
Theorem main_file_mode (lines : list pystr) (t : bool) :
  match read_table_from_lines lines with
  | Err e =>
      main None t (Some lines) = (["Reading truth table..." : pystr], Err e)
  | OK table =>
      forall n,
        map fst table = product [0; 1] n -> (n <= 26)%nat ->
        main None t (Some lines)
        = (["Reading truth table..." : pystr;
            "Canonical form of F in sum-of-minterms notation:" : pystr;
            "F = " ++ truthy_minterms (default_symbols n) table]
             ++ (if t
                 then ["Truth Table:" : pystr;
                       Str.join newline
                         (table_lines (default_symbols n) table)]
                 else []),
           OK 0)
  end.
Proof.
  destruct (read_table_from_lines lines) as [table|e] eqn:R.
  - intros n M Hn.
    destruct (loaded_table_rows lines table R n M) as (row & rest & -> & Lr).
    destruct (default_symbols_sorted n Hn) as [_ Ls].
    assert (B : build_minterms (row :: rest) None
                = OK (truthy_minterms (default_symbols n) (row :: rest))).
    { unfold build_minterms, list_index. cbn [nth_error bind].
      rewrite Lr. fold (default_symbols n).
      pose proof (build_minterms_result (row :: rest) (default_symbols n))
        as Br.
      unfold build_minterms in Br. cbn [bind] in Br. rewrite Br.
      replace (fits (default_symbols n) (row :: rest)) with true;
        [reflexivity|].
      symmetry. unfold fits. apply forallb_forall. intros r Hin.
      apply filter_In in Hin. destruct Hin as [Hin _].
      destruct (product_In n (fst r)) as [Lx _].
      { rewrite <- M. apply in_map, Hin. }
      rewrite Lx, Ls. apply Nat.leb_refl. }
    assert (P : print_truth_table (row :: rest) None
                = OK (Str.join newline
                        (table_lines (default_symbols n) (row :: rest)))).
    { pose proof (print_truth_table_text (row :: rest) (default_symbols n))
        as Pt.
      unfold print_truth_table, list_index in *. cbn [nth_error bind] in *.
      rewrite Lr. fold (default_symbols n). rewrite Ls in Pt. exact Pt. }
    unfold main. rewrite R. cbn [io_lift io_bind print app].
    rewrite B. cbn [io_lift io_bind print app].
    destruct t; [|reflexivity].
    cbn [io_lift io_bind print app]. rewrite P. reflexivity.
  - unfold main. rewrite R. reflexivity.
Qed.


Lemma main_file_mode_witness :
  main None true (Some example_file)
  = (["Reading truth table..." : pystr;
      "Canonical form of F in sum-of-minterms notation:" : pystr;
      "F = BA + B'A'" : pystr;
      "Truth Table:" : pystr]
       ++ [Str.join newline
             ["B" ++ tab ++ "A" ++ tab ++ " | F";
              "------------------------" : pystr;
              "0" ++ tab ++ "0" ++ tab ++ " | 1";
              "0" ++ tab ++ "1" ++ tab ++ " | 0";
              "1" ++ tab ++ "0" ++ tab ++ " | 0";
              "1" ++ tab ++ "1" ++ tab ++ " | 1"]],
     OK 0).
Proof.
  pose proof (main_file_mode example_file true) as H.
  assert (R : read_table_from_lines example_file
              = OK [([0; 0], 1); ([0; 1], 0); ([1; 0], 0); ([1; 1], 1)])
    by reflexivity.
  rewrite R in H. rewrite (H 2%nat eq_refl ltac:(lia)).
  vm_compute. reflexivity.
Defined.

(** ** The constructor on parentheses *)

Section Groups.

Lemma count_cons (c x : ascii) (l : pystr) :
  Str.count c (x :: l) = (if Ascii.eqb x c then 1 else 0) + Str.count c l.
Proof.
  unfold Str.count. cbn [filter].
  destruct (Ascii.eqb x c); cbn [List.length]; lia.
Qed.

Lemma count_app (c : ascii) (a b : pystr) :
  Str.count c (a ++ b) = Str.count c a + Str.count c b.
Proof. unfold Str.count. rewrite filter_app, length_app. lia. Qed.

Lemma balanced_counts (m : pystr) :
  forall d, balanced_from d m = true ->
            Str.count "(" m + d = Str.count ")" m.
Proof.
  induction m as [|c m IH]; intros d H; cbn [balanced_from] in H.
  - apply Z.eqb_eq in H. subst d. reflexivity.
  - rewrite !count_cons.
    destruct (Ascii.eqb_spec c "(") as [->|N1].
    + apply IH in H. cbn [Ascii.eqb Bool.eqb andb] in *.
      change (Ascii.eqb "(" ")") with false. lia.
    + destruct (Ascii.eqb_spec c ")") as [->|N2].
      * apply andb_true_iff in H. destruct H as [_ H]. apply IH in H. lia.
      * apply IH in H. lia.
Qed.

Lemma parse_outer_loop_group (m rest : pystr) :
  forall i i_open i_close d,
    balanced_from d m = true -> 0 <= d -> i_open <> -1 ->
    parse_outer_loop (m ++ ")"%char :: rest) i i_open i_close (1 + d)
    = OK (i_open, i + Z.of_nat (List.length m)).
Proof.
  induction m as [|c m IH]; intros i io ic d H Hd Ho;
    cbn [balanced_from] in H.
  - apply Z.eqb_eq in H. subst d. cbn [app parse_outer_loop List.length].
    change (Ascii.eqb ")" "(") with false. change (Ascii.eqb ")" ")") with true.
    cbn [andb]. replace (1 + 0 - 1 =? 0) with true by reflexivity.
    f_equal. f_equal. lia.
  - cbn [app parse_outer_loop List.length].
    destruct (Ascii.eqb_spec c "(") as [->|N1].
    + change (Ascii.eqb "(" ")") with false.
      replace (1 + d =? 0) with false by (symmetry; apply Z.eqb_neq; lia).
      cbn [andb].
      replace (1 + d + 1) with (1 + (d + 1)) by lia.
      rewrite (IH (i + 1) io ic (d + 1) H) by (lia || assumption).
      f_equal. f_equal. lia.
    + cbn [andb]. destruct (Ascii.eqb_spec c ")") as [->|N2].
      * apply andb_true_iff in H. destruct H as [Hp H].
        apply Z.ltb_lt in Hp.
        replace (1 + d - 1 =? 0) with false by (symmetry; apply Z.eqb_neq; lia).
        replace (io =? -1) with false by (symmetry; apply Z.eqb_neq; assumption).
        replace (1 + d - 1) with (1 + (d - 1)) by lia.
        rewrite (IH (i + 1) io ic (d - 1) H) by (lia || assumption).
        f_equal. f_equal. lia.
      * rewrite (IH (i + 1) io ic d H) by (lia || assumption).
        f_equal. f_equal. lia.
Qed.

Lemma parse_outer_group (m rest : pystr) :
  balanced m = true ->
  parse_outer_paranthesis (group m ++ rest)
  = OK (0, 1 + Z.of_nat (List.length m)).
Proof.
  intros H. unfold parse_outer_paranthesis, group.
  cbn [app]. rewrite <- app_assoc. cbn [app parse_outer_loop].
  change (Ascii.eqb "(" "(") with true. change (Ascii.eqb "(" ")") with false.
  cbn [andb Z.eqb].
  change (0 + 1) with (1 + 0).
  apply (parse_outer_loop_group m rest (0 + 1) 0 (-1) 0 H); lia.
Qed.

End Groups.

Section GroupGate.

Lemma slice_inner (a : ascii) (m r : pystr) :
  r <> [] ->
  Str.slice (a :: m ++ r) 1 (- Z.of_nat (List.length r)) = m.
Proof.
  intros Hr. unfold Str.slice, Str.clip, Str.len.
  assert (Lr : (0 < List.length r)%nat) by (destruct r; [contradiction | simpl; lia]).
  cbn [List.length]. rewrite length_app.
  replace (1 <? 0) with false by reflexivity.
  replace (- Z.of_nat (List.length r) <? 0) with true
    by (symmetry; apply Z.ltb_lt; lia).
  replace (Z.to_nat (Z.min (Z.max 1 0)
                       (Z.of_nat (S (List.length m + List.length r)))))
    with 1%nat by lia.
  replace (Z.to_nat
             (Z.min (Z.max (- Z.of_nat (List.length r)
                            + Z.of_nat (S (List.length m + List.length r))) 0)
                (Z.of_nat (S (List.length m + List.length r)))))
    with (S (List.length m)) by lia.
  cbn [skipn]. replace (S (List.length m) - 1)%nat with (List.length m) by lia.
  rewrite firstn_app, firstn_all, Nat.sub_diag. cbn [firstn].
  apply app_nil_r.
Qed.

Lemma group_counts (m rest : pystr) :
  balanced m = true ->
  (Str.count "(" (group m ++ rest) =? 0) = false
  /\ Str.count "(" (group m ++ rest) = 1 + Str.count ")" m + Str.count "(" rest
  /\ Str.count ")" (group m ++ rest) = 1 + Str.count ")" m + Str.count ")" rest.
Proof.
  intros B. apply balanced_counts in B. unfold group.
  split; [apply count_some; left; reflexivity|].
  cbn [app]. rewrite <- app_assoc. cbn [app].
  rewrite !count_cons, !count_app, !count_cons.
  change (Ascii.eqb "(" "(") with true. change (Ascii.eqb ")" ")") with true.
  change (Ascii.eqb "(" ")") with false. change (Ascii.eqb ")" "(") with false.
  cbn [app]. split; lia.
Qed.

Lemma Gate_body_unity (rec : pystr -> result Gate) (e m : pystr) :
  normalize_bool_fct_str (Str.strip e) = group m ->
  balanced m = true ->
  Gate_body rec e
  = (inp_1 <- rec m ;; OK (new_gate (group m) UNITY (Some inp_1) None)).
Proof.
  intros HX B. unfold Gate_body. rewrite HX.
  destruct (group_counts m [] B) as (C0 & C1 & C2).
  rewrite app_nil_r in C0, C1, C2.
  pose proof (parse_outer_group m [] B) as P. rewrite app_nil_r in P.
  replace (Str.index (group m) 0) with (OK "("%char) by reflexivity.
  cbn [bind]. replace (is_operator_symbol "(") with false by reflexivity.
  rewrite C0. cbn [negb].
  replace (Str.count "(" (group m) =? Str.count ")" (group m)) with true
    by (symmetry; apply Z.eqb_eq; rewrite C1, C2;
        change (Str.count "(" []) with 0; change (Str.count ")" []) with 0;
        lia).
  cbn [negb]. rewrite P. cbn [bind].
  assert (L : Str.len (group m) = Z.of_nat (List.length m) + 2).
  { unfold Str.len, group. cbn [List.length]. rewrite length_app.
    cbn [List.length]. lia. }
  rewrite L.
  replace (1 + Z.of_nat (List.length m) =? Z.of_nat (List.length m) + 2 - 2)
    with false by (symmetry; apply Z.eqb_neq; lia).
  replace (1 + Z.of_nat (List.length m) =? Z.of_nat (List.length m) + 2 - 1)
    with true by (symmetry; apply Z.eqb_eq; lia).
  cbn [Z.eqb andb].
  replace (Str.slice (group m) 1 (-1)) with m; [reflexivity|].
  symmetry. apply (slice_inner "(" m [")"%char]). discriminate.
Qed.

Lemma Gate_body_not (rec : pystr -> result Gate) (e m : pystr) (c : ascii) :
  normalize_bool_fct_str (Str.strip e) = group m ++ [c] ->
  balanced m = true ->
  c <> "("%char -> c <> ")"%char ->
  Gate_body rec e
  = (inp_1 <- rec m ;; OK (new_gate (group m ++ [c]) NOT (Some inp_1) None)).
Proof.
  intros HX B N1 N2. unfold Gate_body. rewrite HX.
  destruct (group_counts m [c] B) as (C0 & C1 & C2).
  pose proof (parse_outer_group m [c] B) as P.
  replace (Str.index (group m ++ [c]) 0) with (OK "("%char) by reflexivity.
  cbn [bind]. replace (is_operator_symbol "(") with false by reflexivity.
  rewrite C0. cbn [negb].
  replace (Str.count "(" (group m ++ [c]) =? Str.count ")" (group m ++ [c]))
    with true.
  2:{ symmetry; apply Z.eqb_eq; rewrite C1, C2, !count_cons.
      destruct (Ascii.eqb_spec c "("); [contradiction|].
      destruct (Ascii.eqb_spec c ")"); [contradiction|]. reflexivity. }
  cbn [negb]. rewrite P. cbn [bind].
  assert (L : Str.len (group m ++ [c]) = Z.of_nat (List.length m) + 3).
  { unfold Str.len, group. rewrite length_app. cbn [List.length].
    rewrite length_app. cbn [List.length]. lia. }
  rewrite L.
  replace (1 + Z.of_nat (List.length m) =? Z.of_nat (List.length m) + 3 - 2)
    with true by (symmetry; apply Z.eqb_eq; lia).
  cbn [Z.eqb andb].
  replace (Str.slice (group m ++ [c]) 1 (-2)) with m; [reflexivity|].
  symmetry. unfold group. cbn [app]. rewrite <- app_assoc.
  apply (slice_inner "(" m [")"%char; c]). discriminate.
Qed.

Lemma group_segment (m rest : pystr) : segment m (group m ++ rest).
Proof.
  exists ["("%char], (")"%char :: rest). unfold group.
  cbn [app]. rewrite <- app_assoc. reflexivity.
Qed.

(** A recursive call on a part of the normalized text has fuel enough. *)
Lemma Gate_init_part (e sub : pystr) :
  smaller sub (normalize_bool_fct_str (Str.strip e)) ->
  Gate_init (List.length (normalize_bool_fct_str (Str.strip e))) sub
  = Gate_new sub.
Proof.
  intros [Sg L]. unfold Gate_new.
  assert (St : settled sub = true)
    by (apply (settled_segment _ _ Sg), normalize_settled).
  pose proof (settled_normalize_length sub St) as Ln.
  apply Gate_init_fuel; lia.
Qed.

End GroupGate.

(** X21: a group.  When the normalized text is one group [(m)], the
    parentheses of [m] balanced, the constructor returns a pass-through
    gate over the gate of [m].  When the group is followed by exactly one
    more character, it returns a NOT gate over the gate of [m]: the branch
    tests the position of the closing parenthesis only, so any single
    character that is no parenthesis is taken for the complement mark. *)
Theorem group_gate (e m : pystr) :
  balanced m = true ->
  (normalize_bool_fct_str (Str.strip e) = group m ->
   Gate_new e
   = (inp_1 <- Gate_new m ;; OK (new_gate (group m) UNITY (Some inp_1) None)))
  /\ (forall c,
        normalize_bool_fct_str (Str.strip e) = group m ++ [c] ->
        c <> "("%char -> c <> ")"%char ->
        Gate_new e
        = (inp_1 <- Gate_new m ;;
           OK (new_gate (group m ++ [c]) NOT (Some inp_1) None))).
Proof.
  intros B. split.
  - intros HX. unfold Gate_new at 1. rewrite Gate_init_body.
    rewrite (Gate_body_unity _ e m HX B).
    rewrite Gate_init_part; [reflexivity|].
    rewrite HX. split.
    + rewrite <- (app_nil_r (group m)). apply group_segment.
    + unfold group. cbn [List.length]. rewrite length_app.
      cbn [List.length]. lia.
  - intros c HX N1 N2. unfold Gate_new at 1. rewrite Gate_init_body.
    rewrite (Gate_body_not _ e m c HX B N1 N2).
    rewrite Gate_init_part; [reflexivity|].
    rewrite HX. split.
    + apply group_segment.
    + unfold group. rewrite length_app. cbn [List.length].
      rewrite length_app. cbn [List.length]. lia.
Qed.

Lemma group_gate_witness :
  balanced "A+B" = true
  /\ normalize_bool_fct_str (Str.strip " (a + b)' ") = group "A+B" ++ ["'"%char]
  /\ normalize_bool_fct_str (Str.strip "(a+b)7") = group "A+B" ++ ["7"%char]
  /\ Gate_new "(a+b)7"
     = OK (new_gate "(A+B)7" NOT (Some example_circuit) None)
  /\ (normalize_bool_fct_str (Str.strip "(a+b)") = group "A+B" ->
      Gate_new "(a+b)"
      = (inp_1 <- Gate_new "A+B" ;;
         OK (new_gate (group "A+B") UNITY (Some inp_1) None)))
  /\ (forall c,
        normalize_bool_fct_str (Str.strip "(a+b)") = group "A+B" ++ [c] ->
        c <> "("%char -> c <> ")"%char ->
        Gate_new "(a+b)"
        = (inp_1 <- Gate_new "A+B" ;;
           OK (new_gate (group "A+B" ++ [c]) NOT (Some inp_1) None))).
Proof.
  split; [reflexivity|]. split; [reflexivity|]. split; [reflexivity|].
  split; [reflexivity|].
  apply (group_gate "(a+b)" "A+B"). reflexivity.
Defined.

Section SplitGate.

Lemma index_middle (L R : pystr) (c : ascii) :
  Str.index (L ++ c :: R) (Z.of_nat (List.length L)) = OK c.
Proof.
  assert (E : (Z.of_nat (List.length L) <? 0) = false)
    by (apply Z.ltb_ge; lia).
  unfold Str.index. cbv zeta. rewrite E. cbv iota. rewrite E.
  rewrite Nat2Z.id, nth_error_app2, Nat.sub_diag by lia. reflexivity.
Qed.

Lemma clip_middle (L R : pystr) :
  Str.clip (L ++ R) (Z.of_nat (List.length L)) = List.length L.
Proof.
  assert (E : (Z.of_nat (List.length L) <? 0) = false)
    by (apply Z.ltb_ge; lia).
  unfold Str.clip, Str.len. cbv zeta. rewrite E, length_app. lia.
Qed.

Lemma slice_to_middle (L R : pystr) :
  Str.slice_to (L ++ R) (Z.of_nat (List.length L)) = L.
Proof.
  unfold Str.slice_to. rewrite clip_middle, firstn_app, firstn_all,
    Nat.sub_diag. cbn [firstn]. apply app_nil_r.
Qed.

Lemma slice_from_middle (L R : pystr) :
  Str.slice_from (L ++ R) (Z.of_nat (List.length L)) = R.
Proof.
  unfold Str.slice_from. rewrite clip_middle, skipn_app, skipn_all,
    Nat.sub_diag. reflexivity.
Qed.

(** The last branch of the constructor, once the split point is known:
    the text before it, the character at it and the text from it on. *)
Lemma Gate_body_split (rec : pystr -> result Gate) (L R : pystr) (c : ascii) :
  (operator <- operator_at c ;;
   inp_1 <- match Str.slice_to (L ++ c :: R) (Z.of_nat (List.length L)) with
            | [] => OK None
            | _ => g <- rec (Str.slice_to (L ++ c :: R)
                               (Z.of_nat (List.length L))) ;;
                   OK (Some g)
            end ;;
   inp_2 <- match Str.slice_from (L ++ c :: R) (Z.of_nat (List.length L)) with
            | [] => OK None
            | _ => g <- rec (Str.slice_from (L ++ c :: R)
                               (Z.of_nat (List.length L))) ;;
                   OK (Some g)
            end ;;
   OK (new_gate (L ++ c :: R) operator inp_1 inp_2))
  = (operator <- operator_at c ;;
     inp_1 <- match L with
              | [] => OK None
              | _ => g <- rec L ;; OK (Some g)
              end ;;
     inp_2 <- rec (c :: R) ;;
     OK (new_gate (L ++ c :: R) operator inp_1 (Some inp_2))).
Proof.
  rewrite slice_to_middle, slice_from_middle.
  destruct (operator_at c); [|reflexivity]. cbn [bind].
  destruct (match L with [] => OK None | _ => _ end); [|reflexivity].
  cbn [bind]. destruct (rec (c :: R)); reflexivity.
Qed.

Lemma Gate_body_after_group (rec : pystr -> result Gate)
  (e m q R : pystr) (c : ascii) :
  normalize_bool_fct_str (Str.strip e) = (group m ++ q) ++ c :: R ->
  balanced m = true ->
  Str.count "(" (q ++ c :: R) = Str.count ")" (q ++ c :: R) ->
  (q = [] /\ is_not_symbol c = false /\ R <> []) \/ q = ["'"%char] ->
  Gate_body rec e
  = (operator <- operator_at c ;;
     inp_1 <- rec (group m ++ q) ;;
     inp_2 <- rec (c :: R) ;;
     OK (new_gate ((group m ++ q) ++ c :: R) operator
           (Some inp_1) (Some inp_2))).
Proof.
  intros HX B HC Hq. unfold Gate_body. rewrite HX.
  set (X := (group m ++ q) ++ c :: R).
  assert (EX : X = group m ++ (q ++ c :: R))
    by (unfold X; rewrite <- app_assoc; reflexivity).
  destruct (group_counts m (q ++ c :: R) B) as (C0 & C1 & C2).
  pose proof (parse_outer_group m (q ++ c :: R) B) as P.
  rewrite <- EX in C0, C1, C2, P.
  replace (Str.index X 0) with (OK "("%char) by reflexivity.
  cbn [bind]. replace (is_operator_symbol "(") with false by reflexivity.
  rewrite C0. cbn [negb].
  replace (Str.count "(" X =? Str.count ")" X) with true
    by (symmetry; apply Z.eqb_eq; rewrite C1, C2, HC; reflexivity).
  cbn [negb]. rewrite P. cbn [bind].
  assert (Lg : List.length (group m) = S (S (List.length m))).
  { unfold group. cbn [List.length]. rewrite length_app.
    cbn [List.length]. lia. }
  assert (Lx : Str.len X
               = Z.of_nat (List.length m) + 2 + Z.of_nat (List.length q)
                 + 1 + Z.of_nat (List.length R)).
  { unfold Str.len, X. rewrite !length_app, Lg. cbn [List.length]. lia. }
  assert (Lq : 1 <= Z.of_nat (List.length q) + Z.of_nat (List.length R)).
  { destruct Hq as [(-> & _ & Hr) | ->]; cbn [List.length]; [|lia].
    destruct R; [contradiction | cbn [List.length]; lia]. }
  rewrite Lx.
  replace (1 + Z.of_nat (List.length m)
           =? Z.of_nat (List.length m) + 2 + Z.of_nat (List.length q) + 1
              + Z.of_nat (List.length R) - 2)
    with false by (symmetry; apply Z.eqb_neq; lia).
  replace (1 + Z.of_nat (List.length m)
           =? Z.of_nat (List.length m) + 2 + Z.of_nat (List.length q) + 1
              + Z.of_nat (List.length R) - 1)
    with false by (symmetry; apply Z.eqb_neq; lia).
  cbn [Z.eqb andb].
  assert (Sp : split_point X 0 (1 + Z.of_nat (List.length m))
               = OK (Z.of_nat (List.length (group m ++ q)) - 1)).
  { unfold split_point. cbn [Z.ltb Z.compare].
    replace (1 + Z.of_nat (List.length m) + 1)
      with (Z.of_nat (List.length (group m))) by lia.
    rewrite length_app.
    destruct Hq as [(-> & Hn & _) | ->].
    - rewrite EX. cbn [app]. rewrite index_middle. cbn [bind].
      rewrite Hn. f_equal. cbn [List.length]. lia.
    - rewrite EX. cbn [app]. rewrite index_middle. cbn [bind].
      replace (is_not_symbol "'") with true by reflexivity.
      f_equal. cbn [List.length]. lia. }
  rewrite Sp. cbn [bind].
  replace (Z.of_nat (List.length (group m ++ q)) - 1 + 1)
    with (Z.of_nat (List.length (group m ++ q))) by lia.
  unfold X. rewrite index_middle. cbn [bind]. fold (operator_at c).
  rewrite (Gate_body_split rec (group m ++ q) R c).
  destruct (operator_at c); [|reflexivity]. cbn [bind].
  unfold group at 1. cbn [app]. destruct (rec _); reflexivity.
Qed.

End SplitGate.

(** X22: a group at the start of the text.  When the normalized text
    begins with a group [(m)], an optional complement mark behind it, and
    goes on, with as many opening as closing parentheses in the rest (the
    unmatched-parenthesis failure is raised before, otherwise), the
    constructor splits right behind the group and its mark,
    whatever follows: the character there decides the gate ([*] for AND,
    [+] for OR, anything else raises the unknown-operator failure before
    any input is built), the first input is the gate of the group with its
    mark, and the second the gate of the rest of the text from the
    operator on.  The operator behind the group becomes the root, whatever
    its precedence among the operators to its right. *)
Theorem split_after_group (e m q R : pystr) (c : ascii) :
  normalize_bool_fct_str (Str.strip e) = (group m ++ q) ++ c :: R ->
  balanced m = true ->
  Str.count "(" (q ++ c :: R) = Str.count ")" (q ++ c :: R) ->
  (q = [] /\ is_not_symbol c = false /\ R <> []) \/ q = ["'"%char] ->
  Gate_new e
  = split_gate ((group m ++ q) ++ c :: R) c (group m ++ q) (c :: R).
Proof.
  intros HX B HC Hq. unfold Gate_new at 1. rewrite Gate_init_body.
  rewrite (Gate_body_after_group _ e m q R c HX B HC Hq).
  assert (Lg : (0 < List.length (group m ++ q))%nat).
  { unfold group. cbn [app List.length]. lia. }
  rewrite !Gate_init_part; [reflexivity | |]; rewrite HX; split.
  - exists (group m ++ q), []. rewrite app_nil_r. reflexivity.
  - rewrite (length_app (group m ++ q)). lia.
  - exists [], (c :: R). reflexivity.
  - rewrite (length_app (group m ++ q)). cbn [List.length]. lia.
Qed.

Lemma split_after_group_witness :
  normalize_bool_fct_str (Str.strip "(a+b)(c+d)") = "(A+B)(C+D)"
  /\ Gate_new "(a+b)(c+d)" = Err UnknownOperator
  /\ Gate_new "(a)b+c"
     = OK (new_gate "(A)*B+C" AND
             (Some (new_gate "(A)" UNITY (Some (input_gate "A")) None))
             (Some (new_gate "B+C" OR (Some (input_gate "B"))
                      (Some (input_gate "C")))))
  /\ Gate_new "(a)b+c"
     = split_gate ((group "A" ++ []) ++ "*"%char :: "B+C") "*"
         (group "A" ++ []) ("*"%char :: "B+C").
Proof.
  split; [reflexivity|]. split; [reflexivity|]. split; [reflexivity|].
  apply (split_after_group "(a)b+c" "A" [] "B+C" "*").
  - reflexivity.
  - reflexivity.
  - reflexivity.
  - left. split; [reflexivity|]. split; [reflexivity | discriminate].
Defined.

Section FirstGroup.

Lemma parse_outer_loop_plain (L : pystr) :
  Str.count "(" L = 0 -> Str.count ")" L = 0 ->
  forall rest i i_open i_close n,
    parse_outer_loop (L ++ rest) i i_open i_close n
    = parse_outer_loop rest (i + Z.of_nat (List.length L)) i_open i_close n.
Proof.
  induction L as [|x L IH]; intros H1 H2 rest i io ic n.
  - cbn [app List.length]. f_equal. lia.
  - rewrite count_cons in H1, H2.
    pose proof (count_nonneg "(" L). pose proof (count_nonneg ")" L).
    destruct (Ascii.eqb x "(") eqn:E1; [lia|].
    destruct (Ascii.eqb x ")") eqn:E2; [lia|].
    cbn [app parse_outer_loop]. rewrite E1, E2. cbn [andb].
    rewrite IH by lia. f_equal. cbn [List.length]. lia.
Qed.

Lemma parse_outer_loop_open (rest : pystr) :
  forall i i_open i_close n,
    1 <= n -> i_open <> -1 ->
    exists i_close',
      parse_outer_loop rest i i_open i_close n = OK (i_open, i_close').
Proof.
  induction rest as [|x rest IH]; intros i io ic n Hn Ho.
  - exists ic. reflexivity.
  - cbn [parse_outer_loop].
    replace (n =? 0) with false by (symmetry; apply Z.eqb_neq; lia).
    rewrite andb_false_r.
    destruct (Ascii.eqb_spec x "(") as [->|N1].
    + change (Ascii.eqb "(" ")") with false. apply IH; lia.
    + destruct (Ascii.eqb x ")").
      * destruct (Z.eqb_spec (n - 1) 0); [eexists; reflexivity|].
        replace (io =? -1) with false
          by (symmetry; apply Z.eqb_neq; assumption).
        apply IH; lia.
      * apply IH; lia.
Qed.

Lemma parse_outer_first (P R : pystr) :
  Str.count "(" P = 0 -> Str.count ")" P = 0 ->
  exists i_close,
    parse_outer_paranthesis (P ++ "("%char :: R)
    = OK (Z.of_nat (List.length P), i_close).
Proof.
  intros H1 H2. unfold parse_outer_paranthesis.
  rewrite (parse_outer_loop_plain P H1 H2). cbn [parse_outer_loop].
  change (Ascii.eqb "(" "(") with true. change (Ascii.eqb "(" ")") with false.
  cbn [andb Z.eqb Z.add].
  apply parse_outer_loop_open; lia.
Qed.

Lemma settled_before_group (X L R : pystr) (c : ascii) :
  settled X = true -> X = L ++ c :: "("%char :: R ->
  is_not_symbol c = false.
Proof.
  intros S ->.
  assert (Sg : segment [c; "("%char] (L ++ c :: "("%char :: R))
    by (exists L, R; reflexivity).
  pose proof (settled_segment _ _ Sg S) as H. unfold settled in H.
  apply andb_true_iff in H. destruct H as [Hp Hc].
  cbn [forallb calm] in Hp, Hc.
  unfold is_not_symbol.
  destruct (Ascii.eqb_spec c "'") as [->|_]; [discriminate Hc|].
  destruct (Ascii.eqb_spec c "!") as [->|_]; [discriminate Hp|].
  reflexivity.
Qed.

Lemma Gate_body_before_group (rec : pystr -> result Gate)
  (e L R : pystr) (a c : ascii) :
  normalize_bool_fct_str (Str.strip e) = L ++ c :: "("%char :: R ->
  Str.index (L ++ c :: "("%char :: R) 0 = OK a ->
  is_operator_symbol a = false ->
  Str.count "(" (L ++ [c]) = 0 -> Str.count ")" (L ++ [c]) = 0 ->
  Str.count ")" R = 1 + Str.count "(" R ->
  Gate_body rec e
  = (operator <- operator_at c ;;
     inp_1 <- match L with
              | [] => OK None
              | _ => g <- rec L ;; OK (Some g)
              end ;;
     inp_2 <- rec (c :: "("%char :: R) ;;
     OK (new_gate (L ++ c :: "("%char :: R) operator inp_1 (Some inp_2))).
Proof.
  intros HX Ha Hop H1 H2 HR.
  pose proof (normalize_settled (Str.strip e)) as St. rewrite HX in St.
  pose proof (settled_before_group _ L R c St eq_refl) as Hn.
  unfold Gate_body. rewrite HX.
  set (X := L ++ c :: "("%char :: R) in *.
  assert (EX : X = (L ++ [c]) ++ "("%char :: R)
    by (unfold X; rewrite <- app_assoc; reflexivity).
  rewrite Ha. cbn [bind]. rewrite Hop.
  assert (C1 : Str.count "(" X = 1 + Str.count "(" R).
  { rewrite EX, count_app, count_cons, H1. reflexivity. }
  assert (C2 : Str.count ")" X = Str.count ")" R).
  { rewrite EX, count_app, count_cons, H2. reflexivity. }
  pose proof (count_nonneg "(" R).
  replace (Str.count "(" X =? 0) with false
    by (symmetry; apply Z.eqb_neq; lia).
  cbn [negb].
  replace (Str.count "(" X =? Str.count ")" X) with true
    by (symmetry; apply Z.eqb_eq; lia).
  cbn [negb].
  destruct (parse_outer_first (L ++ [c]) R H1 H2) as [ic P].
  rewrite <- EX in P. rewrite P. cbn [bind].
  rewrite length_app in *. cbn [List.length] in *.
  replace (Z.of_nat (List.length L + 1) =? 0) with false
    by (symmetry; apply Z.eqb_neq; lia).
  cbn [andb].
  assert (Sp : split_point X (Z.of_nat (List.length L + 1)) ic
               = OK (Z.of_nat (List.length L) - 1)).
  { unfold split_point.
    replace (0 <? Z.of_nat (List.length L + 1)) with true
      by (symmetry; apply Z.ltb_lt; lia).
    replace (Z.of_nat (List.length L + 1) - 2 + 1)
      with (Z.of_nat (List.length L)) by lia.
    unfold X. rewrite index_middle. cbn [bind]. rewrite Hn.
    f_equal. lia. }
  rewrite Sp. cbn [bind].
  replace (Z.of_nat (List.length L) - 1 + 1)
    with (Z.of_nat (List.length L)) by lia.
  unfold X. rewrite index_middle. cbn [bind]. fold (operator_at c).
  apply Gate_body_split.
Qed.

End FirstGroup.

(** X23: a group further right.  When the normalized text begins with
    no operator symbol, has as many opening as closing parentheses, and
    its first parenthesis is an opening one behind a text [L] and one more
    character [c], the constructor splits at [c], whatever [L] holds and
    wherever the group ends: [c] decides the gate ([*] for AND, [+] for
    OR, anything else raises the unknown-operator failure), the first
    input is the gate of [L], and the second the gate of the text from
    [c] on.  The operator in front of the first group becomes the root,
    whatever its precedence among the operators of [L].  A text whose
    second character opens its first group always raises the
    unknown-operator failure. *)
Theorem split_before_group (e L R : pystr) (a c : ascii) :
  normalize_bool_fct_str (Str.strip e) = L ++ c :: "("%char :: R ->
  Str.index (L ++ c :: "("%char :: R) 0 = OK a ->
  is_operator_symbol a = false ->
  Str.count "(" (L ++ [c]) = 0 -> Str.count ")" (L ++ [c]) = 0 ->
  Str.count ")" R = 1 + Str.count "(" R ->
  (L <> [] ->
   Gate_new e
   = split_gate (L ++ c :: "("%char :: R) c L (c :: "("%char :: R))
  /\ (L = [] -> Gate_new e = Err UnknownOperator).
Proof.
  intros HX Ha Hop H1 H2 HR.
  unfold Gate_new at 1 2. rewrite Gate_init_body.
  rewrite (Gate_body_before_group _ e L R a c HX Ha Hop H1 H2 HR).
  split.
  - intros Hne. unfold split_gate.
    destruct (operator_at c) as [op|]; [|reflexivity]. cbn [bind].
    destruct L as [|x L]; [contradiction|].
    rewrite !Gate_init_part; [|rewrite HX; split ..].
    + destruct (Gate_new (x :: L)); [|reflexivity]. cbn [bind].
      destruct (Gate_new _); reflexivity.
    + exists (x :: L), []. rewrite app_nil_r. reflexivity.
    + rewrite (length_app (x :: L)). cbn [List.length]. lia.
    + exists [], (c :: "("%char :: R). reflexivity.
    + rewrite (length_app (x :: L)). cbn [List.length]. lia.
  - intros ->. cbn [app] in Ha. injection Ha as <-.
    unfold operator_at, is_operator_symbol in *.
    destruct (Ascii.eqb c "'"); [discriminate Hop|].
    destruct (Ascii.eqb c "*"); [discriminate Hop|].
    destruct (Ascii.eqb c "+"); [discriminate Hop|].
    reflexivity.
Qed.

Lemma split_before_group_witness :
  normalize_bool_fct_str (Str.strip "a + b(c)") = "A+B*(C)"
  /\ Gate_new "a + b(c)"
     = OK (new_gate "A+B*(C)" AND
             (Some example_circuit)
             (Some (new_gate "(C)" UNITY (Some (input_gate "C")) None)))
  /\ Gate_new "1(a)" = Err UnknownOperator
  /\ (("A+B" : pystr) <> [] ->
      Gate_new "a + b(c)"
      = split_gate ("A+B" ++ "*"%char :: "("%char :: "C)") "*" "A+B"
          ("*"%char :: "("%char :: "C)"))
  /\ (("A+B" : pystr) = [] -> Gate_new "a + b(c)" = Err UnknownOperator).
Proof.
  split; [reflexivity|]. split; [reflexivity|]. split; [reflexivity|].
  apply (split_before_group "a + b(c)" "A+B" "C)" "A" "*"); reflexivity.
Defined.

Lemma Gate_new_letter_text (a : ascii) :
  Str.is_upper a = true -> normalize_bool_fct_str (Str.strip [a]) = [a].
Proof.
  intros H.
  assert (V : valid_sum [[(a, true)]] = true).
  { unfold valid_sum, valid_term, valid_literal. cbn. rewrite H. reflexivity. }
  apply (normalize_sum_text _ V).
Qed.

(** ** Complement marks *)

Section Marks.

Lemma mod2_even (n : nat) : (Z.of_nat n mod 2 =? 0) = Nat.even n.
Proof.
  assert (H : forall k, (Z.of_nat k mod 2 =? 0) = Nat.even k
                        /\ (Z.of_nat (S k) mod 2 =? 0) = Nat.even (S k)).
  { induction k as [|k [IH1 IH2]]; [split; reflexivity|].
    split; [exact IH2|]. cbn [Nat.even]. rewrite <- IH1.
    replace (Z.of_nat (S (S k))) with (Z.of_nat k + 1 * 2) by lia.
    rewrite Z.mod_add by lia. reflexivity. }
  apply H.
Qed.

Lemma count_repeat (c d : ascii) (n : nat) :
  Str.count c (repeat d n) = if Ascii.eqb d c then Z.of_nat n else 0.
Proof.
  induction n as [|n IH]; [destruct (Ascii.eqb d c); reflexivity|].
  cbn [repeat]. rewrite count_cons, IH.
  destruct (Ascii.eqb d c); lia.
Qed.

Lemma marked_chars (a : ascii) (n : nat) :
  Str.is_upper a = true ->
  forallb literal_char (a :: repeat "'"%char n) = true.
Proof.
  intros H. cbn [forallb]. rewrite (upper_literal_char a H). cbn [andb].
  apply forallb_forall. intros x Hx. apply repeat_spec in Hx. subst x.
  reflexivity.
Qed.

Lemma Gate_new_letter (a : ascii) :
  Str.is_upper a = true -> Gate_new [a] = OK (input_gate a).
Proof.
  intros H.
  assert (V : valid_sum [[(a, true)]] = true).
  { unfold valid_sum, valid_term, valid_literal. cbn. rewrite H. reflexivity. }
  pose proof (normalize_sum_text _ V) as N.
  change (sum_text [[(a, true)]]) with [a] in N.
  unfold Gate_new. rewrite N.
  apply (Gate_init_sum 2 [[(a, true)]] V).
  change (sum_text [[(a, true)]]) with [a]. cbn [List.length].
  apply Nat.lt_succ_diag_r.
Qed.

Lemma Gate_new_marked (e : pystr) (a : ascii) (k : nat) :
  Str.is_upper a = true ->
  normalize_bool_fct_str (Str.strip e) = a :: repeat "'"%char (S k) ->
  Gate_new e
  = OK (new_gate (a :: repeat "'"%char (S k))
          (if Nat.even k then NOT else UNITY) (Some (input_gate a)) None).
Proof.
  intros Ha HX. unfold Gate_new.
  set (X := a :: repeat "'"%char (S k)) in *.
  pose proof (marked_chars a (S k) Ha) as Hc. fold X in Hc.
  assert (Z0 : forall c, literal_char c = false -> Str.count c X = 0)
    by (intros c; apply (count_none literal_char); exact Hc).
  rewrite (Gate_init_flat _ e X (repeat "'"%char (S k)) a HX eq_refl
             (upper_not_operator a Ha) (Z0 "("%char eq_refl)).
  rewrite (Z0 "+"%char eq_refl), (Z0 "*"%char eq_refl), (Z0 "!"%char eq_refl).
  cbn [Z.eqb negb].
  assert (Cq : Str.count "'" X = Z.of_nat (S k)).
  { unfold X. rewrite count_cons, count_repeat.
    rewrite (upper_not_quote a Ha). reflexivity. }
  rewrite Cq, Z.add_0_r.
  replace (Z.of_nat (S k) =? 0) with false
    by (symmetry; apply Z.eqb_neq; lia).
  cbn [negb]. rewrite mod2_even.
  rewrite Gate_init_part.
  2:{ rewrite HX. split.
      - exists [], (repeat "'"%char (S k)). reflexivity.
      - unfold X. cbn [List.length]. rewrite repeat_length. lia. }
  rewrite (Gate_new_letter a Ha).
  cbn [bind]. rewrite Nat.even_succ, Nat.negb_odd. reflexivity.
Qed.

End Marks.

(** X24: complement marks are counted.  When the normalized text is one
    capital letter followed by complement marks, the constructor returns
    a NOT gate over the input variable when the number of marks is odd and
    a pass-through gate when it is even, and the output under an
    assignment is the value of the variable, complemented when the number
    of marks is odd: [A''] is [A]. *)
Theorem complement_parity (e : pystr) (a : ascii) (k : nat) :
  Str.is_upper a = true ->
  normalize_bool_fct_str (Str.strip e) = a :: repeat "'"%char (S k) ->
  let g := new_gate (a :: repeat "'"%char (S k))
             (if Nat.even k then NOT else UNITY) (Some (input_gate a)) None in
  Gate_new e = OK g
  /\ forall inputs v,
      dict_get inputs [a] = OK v ->
      exists g',
        update g inputs = OK g'
        /\ truthy (output g') = xorb (truthy v) (Nat.even k).
Proof.
  intros Ha HX g. split; [apply (Gate_new_marked e a k Ha HX)|].
  intros inputs v Hv. unfold g, new_gate, input_gate, new_gate.
  rewrite update_unfold, update_unfold. cbn [bind]. rewrite Hv.
  cbn [bind output_of output].
  destruct (Nat.even k); cbn [bind]; eexists; (split; [reflexivity|]);
    cbn [output]; destruct (truthy v); reflexivity.
Qed.

Lemma complement_parity_witness :
  Str.is_upper "A" = true
  /\ normalize_bool_fct_str (Str.strip " a!' ") = "A"%char :: repeat "'"%char 2
  /\ let g := new_gate ("A"%char :: repeat "'"%char 2)
                (if Nat.even 1 then NOT else UNITY)
                (Some (input_gate "A")) None in
     Gate_new " a!' " = OK g
     /\ forall inputs v,
         dict_get inputs ["A"%char] = OK v ->
         exists g',
           update g inputs = OK g'
           /\ truthy (output g') = xorb (truthy v) (Nat.even 1).
Proof.
  split; [reflexivity|]. split; [reflexivity|].
  apply (complement_parity " a!' " "A" 1); reflexivity.
Defined.

(** ** The check of a table, alone *)

Section CheckTable.

Lemma check_loop_short (table : Table) (inps : list (list Z)) :
  forall i,
    (forall j, (i + j < List.length table)%nat ->
               nth_error (map fst table) (i + j) = nth_error inps j) ->
    (i <= List.length table)%nat ->
    (List.length table < i + List.length inps)%nat ->
    check_loop table inps i = Err IndexError.
Proof.
  induction inps as [|inp inps IH]; intros i Hj Hi Hl;
    [cbn [List.length] in Hl; lia|].
  cbn [check_loop]. unfold list_index.
  destruct (nth_error table i) as [row|] eqn:R; [|reflexivity].
  assert (Li : (i < List.length table)%nat)
    by (apply nth_error_Some; congruence).
  pose proof (Hj 0%nat ltac:(lia)) as H0.
  rewrite Nat.add_0_r, nth_error_map, R in H0. cbn in H0.
  injection H0 as H0. cbn [bind].
  destruct (list_eq_dec Z.eq_dec (fst row) inp); [|contradiction].
  apply IH; [|lia|cbn [List.length] in Hl; lia].
  intros j Hlt. specialize (Hj (S j) ltac:(lia)).
  replace (i + S j)%nat with (S i + j)%nat in Hj by lia. exact Hj.
Qed.

End CheckTable.

(** X25: what [check_table] looks at.  It passes exactly when the first
    2^n rows of the table hold the tuples of the enumeration in order:
    rows beyond these are not read.  On a table with fewer rows, all of
    them in order, it raises the IndexError where the table ends and not
    the ValueError of an inconsistent line. *)
Theorem check_table_result (table : Table) (n : nat) :
  (check_table table n = OK tt
   <-> firstn (2 ^ n) (map fst table) = product [0; 1] n)
  /\ ((List.length table < 2 ^ n)%nat ->
      map fst table = firstn (List.length table) (product [0; 1] n) ->
      check_table table n = Err IndexError).
Proof.
  unfold check_table. split; [split|].
  - intros H. apply nth_error_ext. intros j. rewrite nth_error_firstn.
    destruct (Nat.ltb_spec j (2 ^ n)) as [Hj|Hj].
    + apply (check_loop_sound table _ 0 H j). rewrite product_length. exact Hj.
    + symmetry. apply nth_error_None. rewrite product_length. exact Hj.
  - intros H. apply check_loop_pass. intros j Hj.
    rewrite product_length in Hj. rewrite <- H, nth_error_firstn.
    apply Nat.ltb_lt in Hj. rewrite Hj. reflexivity.
  - intros L H. apply check_loop_short.
    + intros j Hj. cbn [Nat.add]. rewrite H, nth_error_firstn.
      apply Nat.ltb_lt in Hj. cbn [Nat.add] in Hj. rewrite Hj. reflexivity.
    + lia.
    + rewrite product_length. lia.
Qed.

Lemma check_table_result_witness :
  check_table [([0], 1); ([1], 0); ([5], 1)] 1 = OK tt
  /\ check_table [([0; 0], 1); ([0; 1], 0)] 2 = Err IndexError
  /\ (check_table example_table 2 = OK tt
      <-> firstn (2 ^ 2) (map fst example_table) = product [0; 1] 2)
  /\ ((List.length example_table < 2 ^ 2)%nat ->
      map fst example_table
      = firstn (List.length example_table) (product [0; 1] 2) ->
      check_table example_table 2 = Err IndexError).
Proof.
  split; [reflexivity|]. split; [reflexivity|].
  apply (check_table_result example_table 2).
Defined.

(** ** The table of a sum of products *)

Section SumTable.

Lemma Forall2_map_r {A B : Type} (P : A -> B -> Prop) (f : A -> B)
  (l : list A) :
  (forall a, In a l -> P a (f a)) -> Forall2 P l (map f l).
Proof.
  induction l as [|a l IH]; intros H; [constructor|].
  cbn [map]. constructor; [apply H; left; reflexivity|].
  apply IH. intros x Hx. apply H. right. exact Hx.
Qed.

Lemma sum_text_literal (ts : list (list literal)) (t : list literal)
  (l : literal) :
  In t ts -> In l t -> In (fst l) (sum_text ts).
Proof.
  intros Ht Hl. apply (join_In _ _ (term_text t)); [apply in_map, Ht|].
  apply (join_In _ _ (literal_text l)); [apply in_map, Hl|].
  apply literal_text_fst.
Qed.

Lemma sum_rows (ts : list (list literal)) (inp : list Z) :
  valid_sum ts = true ->
  In inp (product [0; 1]
            (List.length (extract_input_symbols (sum_text ts)))) ->
  row_of (sum_gate ts) (extract_input_symbols (sum_text ts)) inp
    (inp, sum_value ts inp).
Proof.
  intros V Hinp. unfold sum_value.
  destruct (extract_input_symbols_spec (sum_text ts))
    as (chars & Es & D & M).
  fold (symbols_of chars) in Es. rewrite Es in *.
  unfold symbols_of in Hinp at 1. rewrite length_map in Hinp.
  destruct (product_In _ _ Hinp) as [L B].
  assert (Hv : forallb valid_term ts = true).
  { unfold valid_sum in V. apply andb_true_iff in V. apply V. }
  assert (Bd : Forall (binds (dict_zip (symbols_of chars) (map PInt inp))) ts).
  { apply Forall_forall. intros t Ht. apply Forall_forall. intros l Hl.
    rewrite forallb_forall in Hv.
    pose proof (valid_term_literals t (Hv t Ht)) as Vl.
    rewrite forallb_forall in Vl. specialize (Vl l Hl).
    assert (Hc : In (fst l) chars).
    { apply M. split; [apply (sum_text_literal ts t l Ht Hl)|].
      apply upper_isalpha, Vl. }
    destruct (in_combine_of_length chars inp (fst l) L Hc) as [b Hb].
    exists (PInt b). split.
    - apply (dict_zip_get chars inp (fst l) b (descending_NoDup _ D) Hb).
    - apply (bits_bitlike inp); [exact B|].
      apply in_map. apply (in_combine_r _ _ _ _ Hb). }
  destruct (valid_sum_binds _ ts V Bd) as [Hne HB].
  destruct (update_sum_gate _ ts Hne HB) as (g' & U & Bl & T).
  exists g'. split; [exact U|].
  rewrite (bitlike_normalize _ Bl), T. reflexivity.
Qed.

End SumTable.

(** * The recursion limit *)

Section CallShape.

(** One call of the constructor has one of four shapes, whatever the
    nested calls return. *)
Lemma Gate_body_shape (e : pystr) :
  exists shape,
    (forall rec,
        Gate_body rec e
        = run_shape rec (normalize_bool_fct_str (Str.strip e)) shape)
    /\ shape <> Raises OutOfFuel.
Proof.
  unfold Gate_body. generalize (normalize_bool_fct_str (Str.strip e)) as X.
  intros X.
  destruct (Str.index X 0) as [c0|x] eqn:E0.
  2:{ exists (Raises x). split; [reflexivity|].
      intros H. injection H as ->.
      apply (index_no_fuel_error X 0 E0). }
  assert (EX : exists m, X = c0 :: m).
  { destruct X as [|x m]; [discriminate E0|]. injection E0 as ->. eauto. }
  destruct EX as [m ->]. cbn [bind].
  destruct (is_operator_symbol c0) eqn:Hop.
  { exists (Raises LeadingOperator). split; [reflexivity | discriminate]. }
  destruct (negb (Str.count "(" (c0 :: m) =? 0)).
  { destruct (negb (_ =? _)).
    { exists (Raises UnmatchedParenthesis).
      split; [reflexivity | discriminate]. }
    destruct (parse_outer_paranthesis (c0 :: m)) as [[i_open i_close]|x] eqn:P.
    2:{ exists (Raises x). split; [reflexivity|].
        intros H. injection H as ->.
        apply (parse_outer_no_fuel_error (c0 :: m) 0 (-1) (-1) 0 P). }
    cbn [bind].
    destruct (_ && _)%bool.
    { exists (Unary NOT (Str.slice (c0 :: m) 1 (-2))).
      split; [reflexivity | discriminate]. }
    destruct (_ && _)%bool.
    { exists (Unary UNITY (Str.slice (c0 :: m) 1 (-1))).
      split; [reflexivity | discriminate]. }
    destruct (split_point (c0 :: m) i_open i_close) as [split_at|x] eqn:Sp.
    2:{ exists (Raises x). split; [reflexivity|].
        intros H. injection H as ->.
        apply (split_point_no_fuel_error (c0 :: m) i_open i_close Sp). }
    cbn [bind].
    destruct (Str.index (c0 :: m) (split_at + 1)) as [c|x] eqn:Ec.
    2:{ exists (Raises x). split; [reflexivity|].
        intros H. injection H as ->.
        apply (index_no_fuel_error (c0 :: m) (split_at + 1) Ec). }
    cbn [bind].
    destruct (Ascii.eqb c "*" || Ascii.eqb c "+")%bool eqn:Hc.
    2:{ apply orb_false_iff in Hc. destruct Hc as [-> ->].
        exists (Raises UnknownOperator).
        split; [reflexivity | discriminate]. }
    destruct (split_nonempty c0 c m (split_at + 1) Hop Ec Hc) as [N1 N2].
    destruct (Str.slice_to (c0 :: m) (split_at + 1)) as [|x1 s1] eqn:S1;
      [contradiction|].
    destruct (Str.slice_from (c0 :: m) (split_at + 1)) as [|x2 s2] eqn:S2;
      [contradiction|].
    exists (Binary (if Ascii.eqb c "*" then AND else OR) (x1 :: s1) (x2 :: s2)).
    split; [|discriminate].
    intros rec. cbn [run_shape].
    destruct (Ascii.eqb c "*"); cbn [bind].
    - destruct (rec (x1 :: s1)); [|reflexivity]. cbn [bind].
      destruct (rec (x2 :: s2)); reflexivity.
    - cbn [orb] in Hc. rewrite Hc. cbn [bind].
      destruct (rec (x1 :: s1)); [|reflexivity]. cbn [bind].
      destruct (rec (x2 :: s2)); reflexivity. }
  destruct (negb (Str.count "+" (c0 :: m) =? 0)).
  { exists (Binary OR (fst (Str.split1 "+" (c0 :: m)))
              (snd (Str.split1 "+" (c0 :: m)))).
    split; [reflexivity | discriminate]. }
  destruct (negb (Str.count "*" (c0 :: m) =? 0)).
  { exists (Binary AND (fst (Str.split1 "*" (c0 :: m)))
              (snd (Str.split1 "*" (c0 :: m)))).
    split; [reflexivity | discriminate]. }
  destruct (negb (_ =? 0)).
  - exists (Unary (if negb ((Str.count "'" (c0 :: m)
                             + Str.count "!" (c0 :: m)) mod 2 =? 0)
                   then NOT else UNITY) [c0]).
    split; [reflexivity | discriminate].
  - exists Leaf. split; [reflexivity | discriminate].
Qed.

(** A result other than the end of the bound is kept under any larger
    bound. *)
Lemma Gate_init_definite (n : nat) :
  forall m e,
    (n <= m)%nat -> Gate_init n e <> Err OutOfFuel ->
    Gate_init m e = Gate_init n e.
Proof.
  induction n as [|n IH]; intros m e L N; [contradiction N; reflexivity|].
  destruct m as [|m]; [lia|].
  rewrite !Gate_init_body in *.
  destruct (Gate_body_shape e) as (shape & Hs & _). rewrite !Hs in *.
  destruct shape as [x| |op s|op s1 s2]; cbn [run_shape] in *;
    try reflexivity.
  - destruct (Gate_init n s) as [a|x] eqn:E.
    + rewrite (IH m s) by (lia || (rewrite E; discriminate)).
      rewrite E. reflexivity.
    + cbn [bind] in N. rewrite (IH m s) by (lia || (rewrite E; exact N)).
      rewrite E. reflexivity.
  - destruct (Gate_init n s1) as [a|x] eqn:E1.
    + rewrite (IH m s1) by (lia || (rewrite E1; discriminate)).
      rewrite E1. cbn [bind] in *.
      destruct (Gate_init n s2) as [b|x] eqn:E2.
      * rewrite (IH m s2) by (lia || (rewrite E2; discriminate)).
        rewrite E2. reflexivity.
      * cbn [bind] in N. rewrite (IH m s2) by (lia || (rewrite E2; exact N)).
        rewrite E2. reflexivity.
    + cbn [bind] in N. rewrite (IH m s1) by (lia || (rewrite E1; exact N)).
      rewrite E1. reflexivity.
Qed.

(** A tree is built by as many nested calls as it is high. *)
Lemma Gate_init_height (n : nat) :
  forall e g, Gate_init n e = OK g -> (height g <= n)%nat.
Proof.
  induction n as [|n IH]; intros e g H; [discriminate H|].
  rewrite Gate_init_body in H.
  destruct (Gate_body_shape e) as (shape & Hs & _). rewrite Hs in H.
  destruct shape as [x| |op s|op s1 s2]; cbn [run_shape] in H.
  - discriminate H.
  - injection H as <-. cbn [new_gate height Nat.max]. lia.
  - destruct (Gate_init n s) as [a|] eqn:E; [|discriminate H].
    injection H as <-. apply IH in E. cbn [new_gate height]. lia.
  - destruct (Gate_init n s1) as [a|] eqn:E1; [|discriminate H].
    cbn [bind] in H.
    destruct (Gate_init n s2) as [b|] eqn:E2; [|discriminate H].
    injection H as <-. apply IH in E1. apply IH in E2.
    cbn [new_gate height]. lia.
Qed.

Lemma Gate_init_low (m : nat) :
  forall n e g,
    Gate_init n e = OK g -> (height g <= m)%nat -> Gate_init m e = OK g.
Proof.
  induction m as [|m IH]; intros n e g H L.
  { destruct g. cbn [height] in L. lia. }
  destruct n as [|n]; [discriminate H|].
  rewrite Gate_init_body in *.
  destruct (Gate_body_shape e) as (shape & Hs & _). rewrite Hs in *.
  destruct shape as [x| |op s|op s1 s2]; cbn [run_shape] in *.
  - discriminate H.
  - exact H.
  - destruct (Gate_init n s) as [a|] eqn:E; [|discriminate H].
    injection H as <-. cbn [new_gate height] in L.
    rewrite (IH n s a E) by lia. reflexivity.
  - destruct (Gate_init n s1) as [a|] eqn:E1; [|discriminate H].
    cbn [bind] in H.
    destruct (Gate_init n s2) as [b|] eqn:E2; [|discriminate H].
    injection H as <-. cbn [new_gate height] in L.
    rewrite (IH n s1 a E1), (IH n s2 b E2) by lia. reflexivity.
Qed.

End CallShape.

Section Limit.

Lemma Gate_init_cases (limit : nat) (e : pystr) :
  Gate_init limit e = Gate_new e \/ Gate_init limit e = Err OutOfFuel.
Proof.
  assert (D : Gate_init limit e <> Err OutOfFuel ->
              Gate_init limit e = Gate_new e).
  { intros N. unfold Gate_new.
    set (L := List.length (normalize_bool_fct_str (Str.strip e))).
    destruct (Nat.le_gt_cases limit (S L)) as [H|H].
    - symmetry. apply Gate_init_definite; assumption.
    - apply Gate_init_fuel; unfold L; lia. }
  destruct (Gate_init limit e) as [g|x] eqn:E.
  - left. apply D. discriminate.
  - destruct x; try (left; apply D; discriminate). right. reflexivity.
Qed.

Lemma Gate_call_cases (limit : nat) (e : pystr) :
  Gate_call limit e = Gate_new e \/ Gate_call limit e = Err RecursionError.
Proof.
  unfold Gate_call. destruct (Gate_init_cases limit e) as [H|H]; rewrite H.
  - left. pose proof (Gate_new_terminates e) as N.
    destruct (Gate_new e) as [g|x]; [reflexivity|].
    destruct x; try reflexivity. contradiction N; reflexivity.
  - right. reflexivity.
Qed.

Lemma Gate_call_OK (limit : nat) (e : pystr) (g : Gate) :
  Gate_call limit e = OK g -> Gate_new e = OK g /\ (height g <= limit)%nat.
Proof.
  intros H. unfold Gate_call in H.
  destruct (Gate_init limit e) as [a|x] eqn:E.
  - injection H as ->. split; [|apply (Gate_init_height _ _ _ E)].
    destruct (Gate_init_cases limit e) as [C|C]; rewrite E in C;
      [symmetry; exact C | discriminate C].
  - destruct x; discriminate H.
Qed.

Lemma Gate_call_limited (limit : nat) (e : pystr) :
  Gate_call limit e = limited limit (Gate_new e)
  \/ ((exists x, Gate_new e = Err x)
      /\ Gate_call limit e = Err RecursionError).
Proof.
  destruct (Gate_new e) as [g|x] eqn:G.
  - left. cbn [limited].
    destruct (Nat.leb_spec (height g) limit) as [L|L].
    + unfold Gate_call. rewrite (Gate_init_low limit _ e g G L). reflexivity.
    + destruct (Gate_call_cases limit e) as [C|C]; [|exact C].
      rewrite G in C. apply Gate_call_OK in C. lia.
  - destruct (Gate_call_cases limit e) as [C|C].
    + left. rewrite C, G. reflexivity.
    + right. split; [eauto | exact C].
Qed.

Lemma Gate_call_built (limit : nat) (e : pystr) (g : Gate) :
  Gate_new e = OK g ->
  Gate_call limit e
  = if Nat.leb (height g) limit then OK g else Err RecursionError.
Proof.
  intros G. destruct (Gate_call_limited limit e) as [H | [[x Hx] _]].
  - rewrite H, G. reflexivity.
  - rewrite G in Hx. discriminate Hx.
Qed.

Lemma Gate_call_enough (limit : nat) (e : pystr) :
  (List.length (normalize_bool_fct_str (Str.strip e)) < limit)%nat ->
  Gate_call limit e = Gate_new e.
Proof.
  intros L. unfold Gate_call.
  rewrite (Gate_init_fuel (S (List.length
                                (normalize_bool_fct_str (Str.strip e))))
             limit e) by lia.
  fold (Gate_new e). pose proof (Gate_new_terminates e) as N.
  destruct (Gate_new e) as [g|x]; [reflexivity|].
  destruct x; try reflexivity. contradiction N; reflexivity.
Qed.

Lemma Gate_call_normal (limit : nat) (e1 e2 : pystr) :
  normalize_bool_fct_str (Str.strip e1) = normalize_bool_fct_str (Str.strip e2) ->
  Gate_call limit e1 = Gate_call limit e2.
Proof.
  intros H. unfold Gate_call. rewrite (Gate_init_normal limit e1 e2 H).
  reflexivity.
Qed.

Lemma term_gate_height (t : list literal) : (1 <= height (term_gate t))%nat.
Proof. destruct (term_gate t). cbn [height]. lia. Qed.

Lemma sum_gate_height (ts : list (list literal)) :
  (List.length ts <= height (sum_gate ts))%nat.
Proof.
  induction ts as [|t ts IH]; [cbn; lia|].
  destruct ts as [|t' ts].
  - cbn [sum_gate List.length]. apply term_gate_height.
  - change (sum_gate (t :: t' :: ts))
      with (new_gate (sum_text (t :: t' :: ts)) OR (Some (term_gate t))
              (Some (sum_gate (t' :: ts)))).
    cbn [new_gate height]. cbn [List.length] in *. lia.
Qed.

End Limit.

(** X27: the recursion limit adds one failure and changes nothing else.
    Under a limit on the nested calls of the constructor,
    [Gate(expression)] raises RecursionError or does what it does where
    no limit is reached.  When the constructor returns a tree without
    the limit, it returns this tree under every limit that is at least
    the height of the tree, and raises RecursionError under every lower
    limit.  A limit above the length of the normalized text is never
    reached. *)
Theorem recursion_limit_only_raises (limit : nat) (e : pystr) :
  (Gate_call limit e = Gate_new e \/ Gate_call limit e = Err RecursionError)
  /\ (forall g,
        Gate_call limit e = OK g <->
        Gate_new e = OK g /\ (height g <= limit)%nat)
  /\ (forall g,
        Gate_new e = OK g -> (limit < height g)%nat ->
        Gate_call limit e = Err RecursionError)
  /\ ((List.length (normalize_bool_fct_str (Str.strip e)) < limit)%nat ->
      Gate_call limit e = Gate_new e).
Proof.
  split; [apply Gate_call_cases|]. split; [|split].
  - intros g. split; [apply Gate_call_OK|].
    intros [G L]. rewrite (Gate_call_built limit e g G).
    apply Nat.leb_le in L. rewrite L. reflexivity.
  - intros g G L. rewrite (Gate_call_built limit e g G).
    apply Nat.leb_gt in L. rewrite L. reflexivity.
  - apply Gate_call_enough.
Qed.

Lemma recursion_limit_only_raises_witness :
  Gate_call 2 "A+B+C" = Err RecursionError
  /\ Gate_call 3 "A+B+C" = Gate_new "A+B+C"
  /\ (Gate_call 2 "A+B+C" = Gate_new "A+B+C"
      \/ Gate_call 2 "A+B+C" = Err RecursionError)
  /\ (forall g,
        Gate_call 2 "A+B+C" = OK g <->
        Gate_new "A+B+C" = OK g /\ (height g <= 2)%nat)
  /\ (forall g,
        Gate_new "A+B+C" = OK g -> (2 < height g)%nat ->
        Gate_call 2 "A+B+C" = Err RecursionError)
  /\ ((List.length (normalize_bool_fct_str (Str.strip "A+B+C")) < 2)%nat ->
      Gate_call 2 "A+B+C" = Gate_new "A+B+C").
Proof.
  split; [reflexivity|]. split; [reflexivity|].
  apply (recursion_limit_only_raises 2 "A+B+C").
Defined.

Section LimitedSums.

Lemma Gate_call_sum (limit : nat) (ts : list (list literal)) :
  valid_sum ts = true ->
  Gate_call limit (sum_text ts)
  = (if Nat.leb (height (sum_gate ts)) limit
     then OK (sum_gate ts) else Err RecursionError)
  /\ Gate_call limit (raw_sum_text ts) = Gate_call limit (sum_text ts).
Proof.
  intros V. split.
  - apply Gate_call_built. unfold Gate_new.
    rewrite normalize_sum_text by exact V.
    apply Gate_init_sum; [exact V | lia].
  - apply Gate_call_normal.
    rewrite normalize_raw_sum, normalize_sum_text by exact V. reflexivity.
Qed.

Lemma Gate_call_sum_cases (limit : nat) (ts : list (list literal)) :
  valid_sum ts = true ->
  ((limit < height (sum_gate ts))%nat ->
   Gate_call limit (sum_text ts) = Err RecursionError)
  /\ ((height (sum_gate ts) <= limit)%nat ->
      Gate_call limit (sum_text ts) = OK (sum_gate ts)).
Proof.
  intros V. destruct (Gate_call_sum limit ts V) as [-> _]. split; intros L.
  - apply Nat.leb_gt in L. rewrite L. reflexivity.
  - apply Nat.leb_le in L. rewrite L. reflexivity.
Qed.

End LimitedSums.

(** X9: on a sum of products the constructor and the evaluator follow
    the precedence of the grammar.  For a text T1+..+Tk without
    parentheses, each term a product L1*..*Ln of variables with or without
    a complement mark, the tree of the sum is ORs of ANDs of literals, one
    OR nested in the other for every term.  Under a recursion limit below
    the height of this tree the constructor raises RecursionError; under
    any other limit it returns the tree (from the text with explicit
    markers, and from the text the builder writes, with implicit ANDs and
    blanks around [+]), and under an assignment of bits the output is
    true exactly when some term has all its literals true. *)
Theorem sum_of_products_value (limit : nat) (ts : list (list literal))
  (inputs : dict) :
  valid_sum ts = true ->
  Forall (binds inputs) ts ->
  (List.length ts <= height (sum_gate ts))%nat
  /\ Gate_call limit (raw_sum_text ts) = Gate_call limit (sum_text ts)
  /\ ((limit < height (sum_gate ts))%nat ->
      Gate_call limit (sum_text ts) = Err RecursionError)
  /\ ((height (sum_gate ts) <= limit)%nat ->
      Gate_call limit (sum_text ts) = OK (sum_gate ts)
      /\ exists g',
          update (sum_gate ts) inputs = OK g'
          /\ truthy (output g') = sum_true inputs ts
          /\ normalize_bool (output g') = Z.b2z (sum_true inputs ts)).
Proof.
  intros V B. split; [apply sum_gate_height|].
  split; [apply (Gate_call_sum limit ts V)|].
  destruct (Gate_call_sum_cases limit ts V) as [Hlow Hhigh].
  split; [exact Hlow|]. intros L. split; [apply Hhigh, L|].
  destruct (valid_sum_binds inputs ts V B) as [Hne HB].
  destruct (update_sum_gate inputs ts Hne HB) as (g' & U & Bl & T).
  exists g'. split; [exact U|]. split; [exact T|].
  rewrite (bitlike_normalize _ Bl), T. reflexivity.
Qed.

Lemma sum_of_products_value_witness :
  valid_sum example_sum = true
  /\ sum_text example_sum = ("A*B'+C" : pystr)
  /\ raw_sum_text example_sum = ("AB' + C" : pystr)
  /\ sum_true example_sum_inputs example_sum = true
  /\ height (sum_gate example_sum) = 4%nat
  /\ (List.length example_sum <= height (sum_gate example_sum))%nat
  /\ Gate_call 4 (raw_sum_text example_sum)
     = Gate_call 4 (sum_text example_sum)
  /\ ((4 < height (sum_gate example_sum))%nat ->
      Gate_call 4 (sum_text example_sum) = Err RecursionError)
  /\ ((height (sum_gate example_sum) <= 4)%nat ->
      Gate_call 4 (sum_text example_sum) = OK (sum_gate example_sum)
      /\ exists g',
          update (sum_gate example_sum) example_sum_inputs = OK g'
          /\ truthy (output g') = sum_true example_sum_inputs example_sum
          /\ normalize_bool (output g')
             = Z.b2z (sum_true example_sum_inputs example_sum)).
Proof.
  split; [reflexivity|]. split; [reflexivity|]. split; [reflexivity|].
  split; [reflexivity|]. split; [reflexivity|].
  apply (sum_of_products_value 4 example_sum example_sum_inputs);
    [reflexivity|].
  repeat constructor;
    (eexists; split; [reflexivity | first [left; reflexivity
                                          | right; left; reflexivity]]).
Defined.

(** X26: the table of a sum of products.  For a sum of products without
    parentheses, under a recursion limit below the height of its tree the
    constructor raises RecursionError.  Under any other limit it builds
    the tree, the table is generated, and the output of every row is the
    value of the sum under the assignment of the bits of the row to the
    variable set: 1 exactly when some term has all its literals true. *)
Theorem sum_of_products_table (limit : nat) (ts : list (list literal)) :
  valid_sum ts = true ->
  ((limit < height (sum_gate ts))%nat ->
   Gate_call limit (sum_text ts) = Err RecursionError)
  /\ ((height (sum_gate ts) <= limit)%nat ->
      Gate_call limit (sum_text ts) = OK (sum_gate ts)
      /\ expression (sum_gate ts) = sum_text ts
      /\ exists g',
          generate_truth_table (sum_gate ts) = OK g'
          /\ truth_table g' = sum_table ts).
Proof.
  intros V. destruct (Gate_call_sum_cases limit ts V) as [Hlow Hhigh].
  split; [exact Hlow|]. intros L. split; [apply Hhigh, L|].
  assert (E : expression (sum_gate ts) = sum_text ts)
    by (apply (Gate_new_sum ts V)).
  split; [exact E|].
  apply generate_truth_table_complete. rewrite E. unfold sum_table.
  apply Forall2_map_r. intros inp Hinp. apply sum_rows; assumption.
Qed.

Lemma sum_of_products_table_witness :
  valid_sum example_sum = true
  /\ sum_table example_sum
     = [([0; 0; 0], 0); ([0; 0; 1], 1); ([0; 1; 0], 0); ([0; 1; 1], 0);
        ([1; 0; 0], 1); ([1; 0; 1], 1); ([1; 1; 0], 1); ([1; 1; 1], 1)]
  /\ Gate_call 3 (sum_text example_sum) = Err RecursionError
  /\ ((1000 < height (sum_gate example_sum))%nat ->
      Gate_call 1000 (sum_text example_sum) = Err RecursionError)
  /\ ((height (sum_gate example_sum) <= 1000)%nat ->
      Gate_call 1000 (sum_text example_sum) = OK (sum_gate example_sum)
      /\ expression (sum_gate example_sum) = sum_text example_sum
      /\ exists g',
          generate_truth_table (sum_gate example_sum) = OK g'
          /\ truth_table g' = sum_table example_sum).
Proof.
  split; [reflexivity|]. split; [vm_compute; reflexivity|].
  split; [reflexivity|].
  apply (sum_of_products_table 1000 example_sum). reflexivity.
Defined.

Section LimitedRoundTrip.

Lemma round_trip_limit (limit : nat) (e : pystr) (g g1 : Gate) :
  Gate_call limit e = OK g ->
  generate_truth_table g = OK g1 ->
  has_true_row (truth_table g1) = true ->
  exists body g2,
    build_minterms (truth_table g1)
      (Some (extract_input_symbols (expression g))) = OK body
    /\ sum_of_min_terms g = OK ("F = " ++ body)
    /\ (List.length (minterm_rows (truth_table g1)) <= height g2)%nat
    /\ forall limit',
        ((limit' < height g2)%nat ->
         Gate_call limit' body = Err RecursionError)
        /\ ((height g2 <= limit')%nat ->
            Gate_call limit' body = OK g2
            /\ exists g2',
                generate_truth_table g2 = OK g2'
                /\ truth_table g2' = truth_table g1).
Proof.
  intros Hc Hgen Htrue. destruct (Gate_call_OK _ _ _ Hc) as [Hg _].
  destruct (extract_input_symbols_spec (expression g)) as (chars & Es & D & M).
  pose proof (generate_truth_table_rows g g1 Hgen) as [_ F].
  pose proof (generate_truth_table_variables g g1 Hgen) as Hne.
  rewrite Es in F, Hne. fold (symbols_of chars) in F, Hne, Es.
  unfold symbols_of in F at 2. rewrite length_map in F.
  assert (Hch : chars <> []) by (intros ->; apply Hne; reflexivity).
  assert (Hu : forallb Str.is_upper chars = true).
  { apply (stored_variables_upper e g chars Hg). intros c. apply M. }
  set (table := truth_table g1) in *.
  set (ms := minterm_sum chars table).
  pose proof (minterm_sum_valid g chars table D Hu Hch F Htrue) as V.
  fold ms in V.
  destruct (round_trip_rows g chars table D Hu Hch F Htrue)
    as (g2 & g2' & G2 & T2 & E2).
  rewrite (minterm_sum_text chars table) in G2. fold ms in G2.
  rewrite (proj1 (Gate_new_sum ms V)) in G2. injection G2 as <-.
  assert (B : build_minterms table
                (Some (extract_input_symbols (expression g)))
              = OK (raw_sum_text ms)).
  { rewrite Es. unfold ms. rewrite <- (minterm_sum_text chars table).
    apply build_minterms_spec. apply (table_bits g chars table F). }
  exists (raw_sum_text ms), (sum_gate ms).
  split; [exact B|]. split.
  { apply (sum_of_min_terms_generated g g1); auto.
    apply (Gate_init_truth_table _ _ _ Hg). }
  split.
  { replace (List.length (minterm_rows table)) with (List.length ms);
      [apply sum_gate_height|].
    unfold ms, minterm_sum, minterm_rows.
    rewrite length_rev, length_map. reflexivity. }
  intros limit'.
  destruct (Gate_call_sum limit' ms V) as [C1 C2]. rewrite C2, C1.
  split; intros L.
  - apply Nat.leb_gt in L. rewrite L. reflexivity.
  - apply Nat.leb_le in L. rewrite L. split; [reflexivity|].
    exists g2'. split; assumption.
Qed.

End LimitedRoundTrip.

(** C5, as stated, fails under the recursion limit of the interpreter.
    The OR of ten variables has a table with 1023 rows of output 1, and
    the body of its minterm string has 1023 terms.  Under every limit of
    at least 10 nested calls the constructor accepts the expression, and
    under every limit below 1023, which every interpreter with the
    default recursion limit of 1000 imposes, it raises RecursionError on
    the body. *)
Theorem round_trip_exceeds_limit :
  exists g g1 body,
    (forall limit, (10 <= limit)%nat -> Gate_call limit example_wide = OK g)
    /\ generate_truth_table g = OK g1
    /\ has_true_row (truth_table g1) = true
    /\ sum_of_min_terms g = OK ("F = " ++ body)
    /\ List.length (minterm_rows (truth_table g1)) = 1023%nat
    /\ (forall limit, (limit < 1023)%nat ->
                      Gate_call limit body = Err RecursionError).
Proof.
  assert (G : Gate_new example_wide = OK example_wide_circuit)
    by (vm_compute; reflexivity).
  assert (C : Gate_call 10 example_wide = OK example_wide_circuit)
    by (vm_compute; reflexivity).
  assert (T : generate_truth_table example_wide_circuit
              = OK example_wide_generated)
    by (vm_compute; reflexivity).
  assert (H : has_true_row (truth_table example_wide_generated) = true)
    by (vm_compute; reflexivity).
  assert (N : List.length (minterm_rows (truth_table example_wide_generated))
              = 1023%nat)
    by (vm_compute; reflexivity).
  destruct (round_trip_limit 10 example_wide example_wide_circuit
              example_wide_generated C T H)
    as (body & g2 & _ & S & Hh & Hl).
  exists example_wide_circuit, example_wide_generated, body.
  split.
  { intros limit L. rewrite (Gate_call_built limit _ _ G).
    replace (height example_wide_circuit) with 10%nat
      by (vm_compute; reflexivity).
    apply Nat.leb_le in L. rewrite L. reflexivity. }
  split; [exact T|]. split; [exact H|]. split; [exact S|].
  split; [exact N|].
  intros limit L. apply (proj1 (Hl limit)). lia.
Qed.

(** C5: for an expression that the constructor accepts and whose table
    has a row with output 1, the body of the minterm string is the text
    of a tree of ORs of ANDs of literals, one OR nested in the other for
    every row of output 1.  Parsed as a new expression under a recursion
    limit of at least the height of this tree, the body gives this tree,
    and [generate_truth_table] stores in it the rows of the table of the
    expression; under a lower limit the constructor raises RecursionError
    on the body. *)
Theorem minterms_round_trip (limit : nat) (e : pystr) (g g1 : Gate) :
  Gate_call limit e = OK g ->
  generate_truth_table g = OK g1 ->
  has_true_row (truth_table g1) = true ->
  exists body g2,
    build_minterms (truth_table g1)
      (Some (extract_input_symbols (expression g))) = OK body
    /\ sum_of_min_terms g = OK ("F = " ++ body)
    /\ (List.length (minterm_rows (truth_table g1)) <= height g2)%nat
    /\ forall limit',
        ((limit' < height g2)%nat ->
         Gate_call limit' body = Err RecursionError)
        /\ ((height g2 <= limit')%nat ->
            Gate_call limit' body = OK g2
            /\ exists g2',
                generate_truth_table g2 = OK g2'
                /\ truth_table g2' = truth_table g1).
Proof. apply round_trip_limit. Qed.

Lemma minterms_round_trip_witness :
  Gate_call 1000 "A+B" = OK example_circuit
  /\ generate_truth_table example_circuit = OK example_generated
  /\ has_true_row (truth_table example_generated) = true
  /\ exists body g2,
      build_minterms (truth_table example_generated)
        (Some (extract_input_symbols (expression example_circuit))) = OK body
      /\ sum_of_min_terms example_circuit = OK ("F = " ++ body)
      /\ (List.length (minterm_rows (truth_table example_generated))
          <= height g2)%nat
      /\ forall limit',
          ((limit' < height g2)%nat ->
           Gate_call limit' body = Err RecursionError)
          /\ ((height g2 <= limit')%nat ->
              Gate_call limit' body = OK g2
              /\ exists g2',
                  generate_truth_table g2 = OK g2'
                  /\ truth_table g2' = truth_table example_generated).
Proof.
  assert (H1 : Gate_call 1000 "A+B" = OK example_circuit)
    by (vm_compute; reflexivity).
  assert (H2 : generate_truth_table example_circuit = OK example_generated)
    by (vm_compute; reflexivity).
  assert (H3 : has_true_row (truth_table example_generated) = true)
    by (vm_compute; reflexivity).
  split; [exact H1|]. split; [exact H2|]. split; [exact H3|].
  exact (minterms_round_trip 1000 "A+B" example_circuit example_generated
           H1 H2 H3).
Defined.
